(** * The grid survival game of [src/scripts/index.js]

    A shallow embedding of the entity classes ([Entity], [Player], [Enemy],
    [Projectile], [XPGem]) and of the [VampireGame] class, followed by the
    properties of the simulation that the design document states and by
    further properties of the game.

    Numbers.  JavaScript numbers are modelled by exact rationals [Q]: the
    properties below are about comparisons, clamping and counters, not
    about rounding.  Quantities that only ever hold integers in the source
    (hit points, score, wave number, grid coordinates) are [Z].

    Host.  [Math.sqrt], [Math.atan2], [Math.cos] and [Math.sin] belong to
    the JavaScript host; they are the operations of the class [MathHost]
    and every definition that calls them is parametric in it.  The values
    of [performance.now()], [Math.random()] and [requestAnimationFrame]
    are inputs of the operation that reads them.  The DOM is reduced to
    what the game does to it: the cells it writes, the listeners it
    attaches, the frame request it holds and the background animation it
    stops and starts.

    Division.  [a / 0] is [0] in [Q].  The divisions of the source are
    guarded ([dist > 0.5], [len > 0]) but for the normalisation of a
    diagonal input, whose divisor is the square root of 2.

    Page.  [updateHUD], the overlays ([showGameOver], [hideGameOver],
    [showPauseMenu], [hidePauseMenu]), the two key handlers and the
    callbacks that [initVampireWindow] registers are in [GameUI], on the
    page elements they touch.  A HUD number is written in decimal, as the
    source's integers print.  The class is local to the file and
    constructed once, by [initVampireWindow], on what [getElementById]
    finds for the canvas, which may be [null], and on an object literal
    of the three HUD elements, each of which may be [null]: a game
    carries whether it has a canvas, and the HUD object is the record
    [Hud].

    Left out: the profile page of the first part of the file, the window
    manager and [openVampireGame] and [closeVampireGame], which are
    document code through and through. *)

From Stdlib Require Import ZArith QArith Qabs Qround Qminmax Lqa Lia String.
From stdpp Require Import base option list strings gmap pretty.

Local Open Scope Q_scope.

(** ** Numbers *)

(** [a < b] on numbers, as a test. *)
Definition Qltb (a b : Q) : bool := negb (Qle_bool b a).

(** [a >= b] is [Qle_bool b a]; [a !== 0] on numbers: *)
Definition Qnonzero (a : Q) : bool := negb (Qeq_bool a 0).

(** The host's mathematical functions. *)
Class MathHost := {
  Math_sqrt : Q -> Q;
  Math_atan2 : Q -> Q -> Q;
  Math_cos : Q -> Q;
  Math_sin : Q -> Q
}.

(** ** Game constants *)

Definition CANVAS_WIDTH : Z := 30.
Definition CANVAS_HEIGHT : Z := 15.
Definition PLAYER_SPEED : Q := 0.008.
Definition ENEMY_SPEED : Q := 0.002.
Definition PROJECTILE_SPEED : Q := 0.03.
Definition ATTACK_COOLDOWN : Q := 350.
Definition PLAYER_MAX_HP : Z := 100.
Definition ENEMY_DAMAGE : Z := 10.
Definition WAVE_DURATION : Q := 20000.
Definition BASE_SPAWN_RATE : Z := 2000.
Definition MIN_SPAWN_RATE : Z := 500.

Definition CHAR_EMPTY : string := "".
Definition CHAR_PLAYER : string := "🧛".
Definition CHAR_ENEMY : string := "🧟".
Definition CHAR_PROJECTILE : string := "🔥".
Definition CHAR_XP : string := "💎".

(** [Entity.getGridPos]: the cell of a position, [Math.floor] of both
    coordinates. *)
Definition getGridPos (x y : Q) : Z * Z := (Qfloor x, Qfloor y).

(** [Math.max(0, Math.min(hi, v))], the clamp of the two moving classes. *)
Definition clamp (hi v : Q) : Q := Qmax 0 (Qmin hi v).

(** ** Projectile *)

Module Projectile.

Record t := mk {
  x : Q; y : Q; char : string; active : bool;
  vx : Q; vy : Q; lifetime : Q
}.

Section Host.
Context `{host : MathHost}.

(** The constructor: the launch direction is normalised and scaled by the
    projectile speed; a zero direction fires to the right. *)
Definition new (x0 y0 vx0 vy0 : Q) : t :=
  let len := Math_sqrt (vx0 * vx0 + vy0 * vy0) in
  {| x := x0; y := y0; char := CHAR_PROJECTILE; active := true;
     vx := if Qltb 0 len then (vx0 / len) * PROJECTILE_SPEED else PROJECTILE_SPEED;
     vy := if Qltb 0 len then (vy0 / len) * PROJECTILE_SPEED else 0;
     lifetime := 3000 |}.

End Host.

Definition update (dt : Q) (p : t) : t :=
  let x1 := x p + vx p * dt in
  let y1 := y p + vy p * dt in
  let lifetime1 := lifetime p - dt in
  {| x := x1; y := y1; char := char p;
     active :=
       if Qltb x1 0 || Qle_bool (inject_Z CANVAS_WIDTH) x1 ||
          Qltb y1 0 || Qle_bool (inject_Z CANVAS_HEIGHT) y1 ||
          Qle_bool lifetime1 0
       then false else active p;
     vx := vx p; vy := vy p; lifetime := lifetime1 |}.

Definition deactivate (p : t) : t :=
  {| x := x p; y := y p; char := char p; active := false;
     vx := vx p; vy := vy p; lifetime := lifetime p |}.

End Projectile.

(** ** Player *)

Module Player.

Record t := mk {
  x : Q; y : Q; char : string; active : bool;
  hp : Z;
  lastAttack : Q;
  lastDirection : Q * Q;
  invincible : bool;
  invincibleTimer : Q
}.

Definition new (x0 y0 : Q) : t :=
  {| x := x0; y := y0; char := CHAR_PLAYER; active := true;
     hp := PLAYER_MAX_HP; lastAttack := 0; lastDirection := (1, 0);
     invincible := false; invincibleTimer := 0 |}.

(** [keys[code]], where a key never seen is [undefined], hence falsy. *)
Definition pressed (keys : gmap string bool) (code : string) : bool :=
  default false (keys !! code).

Section Host.
Context `{host : MathHost}.

(** The direction read from the keys, diagonal input normalised. *)
Definition inputDirection (keys : gmap string bool) : Q * Q :=
  let dx := 0 in
  let dy := 0 in
  let dy := if pressed keys "KeyW" || pressed keys "ArrowUp" then dy - 1 else dy in
  let dy := if pressed keys "KeyS" || pressed keys "ArrowDown" then dy + 1 else dy in
  let dx := if pressed keys "KeyA" || pressed keys "ArrowLeft" then dx - 1 else dx in
  let dx := if pressed keys "KeyD" || pressed keys "ArrowRight" then dx + 1 else dx in
  if Qnonzero dx && Qnonzero dy then
    let len := Math_sqrt (dx * dx + dy * dy) in
    (dx / len, dy / len)
  else (dx, dy).

Definition handleInput (keys : gmap string bool) (dt : Q) (p : t) : t :=
  let '(dx, dy) := inputDirection keys in
  let x1 := x p + dx * PLAYER_SPEED * dt in
  let y1 := y p + dy * PLAYER_SPEED * dt in
  {| x := clamp (inject_Z CANVAS_WIDTH - 1) x1;
     y := clamp (inject_Z CANVAS_HEIGHT - 1) y1;
     char := char p; active := active p; hp := hp p;
     lastAttack := lastAttack p;
     lastDirection :=
       if Qnonzero dx || Qnonzero dy then (dx, dy) else lastDirection p;
     invincible := invincible p; invincibleTimer := invincibleTimer p |}.

(** [attack]: records the time and fires along the remembered direction,
    half a unit ahead of the player. *)
Definition attack (now : Q) (p : t) : t * Projectile.t :=
  ({| x := x p; y := y p; char := char p; active := active p; hp := hp p;
      lastAttack := now; lastDirection := lastDirection p;
      invincible := invincible p; invincibleTimer := invincibleTimer p |},
   Projectile.new (x p + fst (lastDirection p) * 0.5)
                  (y p + snd (lastDirection p) * 0.5)
                  (fst (lastDirection p)) (snd (lastDirection p))).

Definition attackToward (now : Q) (direction : Q * Q) (p : t) : t * Projectile.t :=
  ({| x := x p; y := y p; char := char p; active := active p; hp := hp p;
      lastAttack := now; lastDirection := lastDirection p;
      invincible := invincible p; invincibleTimer := invincibleTimer p |},
   Projectile.new (x p) (y p) (fst direction) (snd direction)).

End Host.

(** [update]: the invincibility countdown. *)
Definition update (dt : Q) (p : t) : t :=
  if invincible p then
    let timer := invincibleTimer p - dt in
    {| x := x p; y := y p; char := char p; active := active p; hp := hp p;
       lastAttack := lastAttack p; lastDirection := lastDirection p;
       invincible := if Qle_bool timer 0 then false else invincible p;
       invincibleTimer := timer |}
  else p.

(** [takeDamage]: the new player and the returned flag. *)
Definition takeDamage (amount : Z) (p : t) : t * bool :=
  if invincible p then (p, false)
  else
    ({| x := x p; y := y p; char := char p; active := active p;
        hp := (hp p - amount)%Z;
        lastAttack := lastAttack p; lastDirection := lastDirection p;
        invincible := true; invincibleTimer := 500 |}, true).

Definition canAttack (now : Q) (p : t) : bool :=
  Qle_bool ATTACK_COOLDOWN (now - lastAttack p).

End Player.

(** ** Enemy *)

Module Enemy.

Record t := mk {
  x : Q; y : Q; char : string; active : bool;
  hp : Z
}.

Definition new (x0 y0 : Q) : t :=
  {| x := x0; y := y0; char := CHAR_ENEMY; active := true; hp := 1 |}.

Section Host.
Context `{host : MathHost}.

(** [update]: seek the player unless closer than half a unit, then clamp. *)
Definition update (dt : Q) (player : Player.t) (e : t) : t :=
  let dx := Player.x player - x e in
  let dy := Player.y player - y e in
  let dist := Math_sqrt (dx * dx + dy * dy) in
  let x1 := if Qltb 0.5 dist then x e + (dx / dist) * ENEMY_SPEED * dt else x e in
  let y1 := if Qltb 0.5 dist then y e + (dy / dist) * ENEMY_SPEED * dt else y e in
  {| x := clamp (inject_Z CANVAS_WIDTH - 1) x1;
     y := clamp (inject_Z CANVAS_HEIGHT - 1) y1;
     char := char e; active := active e; hp := hp e |}.

End Host.

(** [takeDamage]: one hit point less; the flag says whether the enemy died. *)
Definition takeDamage (e : t) : t * bool :=
  let hp1 := (hp e - 1)%Z in
  if (hp1 <=? 0)%Z then
    ({| x := x e; y := y e; char := char e; active := false; hp := hp1 |}, true)
  else
    ({| x := x e; y := y e; char := char e; active := active e; hp := hp1 |}, false).

Definition moveTo (x1 y1 : Q) (e : t) : t :=
  {| x := x1; y := y1; char := char e; active := active e; hp := hp e |}.

End Enemy.

(** ** XPGem *)

Module XPGem.

Record t := mk {
  x : Q; y : Q; char : string; active : bool;
  value : Z
}.

Definition new (x0 y0 : Q) : t :=
  {| x := x0; y := y0; char := CHAR_XP; active := true; value := 10 |}.

Definition deactivate (g : t) : t :=
  {| x := x g; y := y g; char := char g; active := false; value := value g |}.

End XPGem.

(** ** The host page, as far as the game touches it *)

(** [window.Starfield] may be absent; when present it is running or
    stopped.  The two key listeners are attached or not.  The pending
    animation-frame requests are the set of their handles. *)
Record World := mkWorld {
  starfield : option bool;
  keydownListener : bool;
  keyupListener : bool;
  frameRequests : gset positive
}.

Definition Starfield_stop (w : World) : World :=
  {| starfield := match starfield w with Some _ => Some false | None => None end;
     keydownListener := keydownListener w; keyupListener := keyupListener w;
     frameRequests := frameRequests w |}.

Definition Starfield_start (w : World) : World :=
  {| starfield := match starfield w with Some _ => Some true | None => None end;
     keydownListener := keydownListener w; keyupListener := keyupListener w;
     frameRequests := frameRequests w |}.

Definition setListeners (down up : bool) (w : World) : World :=
  {| starfield := starfield w;
     keydownListener := down; keyupListener := up;
     frameRequests := frameRequests w |}.

Definition requestAnimationFrame (id : positive) (w : World) : World :=
  {| starfield := starfield w;
     keydownListener := keydownListener w; keyupListener := keyupListener w;
     frameRequests := {[ id ]} ∪ frameRequests w |}.

Definition cancelAnimationFrame (id : positive) (w : World) : World :=
  {| starfield := starfield w;
     keydownListener := keydownListener w; keyupListener := keyupListener w;
     frameRequests := frameRequests w ∖ {[ id ]} |}.

(** One cell of a frame: glyph and style class. *)
Record Cell := mkCell { cellChar : string; cellClass : string }.

(** One write to the drawing surface: [gridCells[y][x].textContent] and
    [.className]. *)
Record Write := mkWrite {
  writeX : nat; writeY : nat; textContent : string; className : string
}.

Inductive State := idle | playing | paused | gameover.

Definition State_eqb (a b : State) : bool :=
  match a, b with
  | idle, idle | playing, playing | paused, paused | gameover, gameover => true
  | _, _ => false
  end.

(** What one call of [gameLoop] reads from the host: its argument, the
    clock at the attack test and at the blink test, the two random numbers
    of [spawnEnemy], and the handle of the frame request it makes. *)
Record TickInput := mkTick {
  timestamp : Q;
  attackNow : Q;
  randomSide : Q;
  randomAlong : Q;
  renderNow : Q;
  frameId : positive
}.

(** References into an array of entities: the positions of the elements
    that pass [f], as [Array.prototype.filter] keeps them, in order.  The
    filtered arrays of [checkCollisions] hold the same objects as the
    arrays of the game, so they are lists of positions in those. *)
Fixpoint refsFrom {A : Type} (f : A -> bool) (i : nat) (l : list A) : list nat :=
  match l with
  | [] => []
  | a :: l' => if f a then i :: refsFrom f (S i) l' else refsFrom f (S i) l'
  end.

Definition refs {A : Type} (f : A -> bool) (l : list A) : list nat := refsFrom f 0 l.

(** ** VampireGame *)

Module VampireGame.

Record t := mk {
  canvas : bool;
  state : State;
  player : option Player.t;
  enemies : list Enemy.t;
  projectiles : list Projectile.t;
  xpGems : list XPGem.t;
  wave : Z;
  score : Z;
  waveTimer : Q;
  spawnTimer : Q;
  enemiesSpawnedThisWave : Z;
  keys : gmap string bool;
  lastTimestamp : Q;
  animationId : option positive;
  prevGrid : list (list Cell)
}.

(** The constructor: no player and no grid yet ([null] and [undefined]).
    [canvas] tells whether [canvasEl] is an element: [initVampireWindow]
    passes the result of [getElementById], unguarded, which is [null]
    on a page without the element. *)
Definition construct (canvasEl : bool) : t :=
  {| canvas := canvasEl; state := idle; player := None;
     enemies := []; projectiles := []; xpGems := [];
     wave := 1; score := 0; waveTimer := 0; spawnTimer := 0;
     enemiesSpawnedThisWave := 0; keys := ∅;
     lastTimestamp := 0; animationId := None; prevGrid := [] |}.

(** The new game of a page that has the canvas. *)
Definition new : t := construct true.

(** Assignments to the fields of [this]. *)
Definition setState (s : State) (g : t) : t :=
  {| state := s; player := player g; enemies := enemies g;
     projectiles := projectiles g; xpGems := xpGems g; wave := wave g;
     score := score g; waveTimer := waveTimer g; spawnTimer := spawnTimer g;
     enemiesSpawnedThisWave := enemiesSpawnedThisWave g; keys := keys g;
     lastTimestamp := lastTimestamp g; animationId := animationId g;
     prevGrid := prevGrid g; canvas := canvas g |}.

Definition setLastTimestamp (ts : Q) (g : t) : t :=
  {| state := state g; player := player g; enemies := enemies g;
     projectiles := projectiles g; xpGems := xpGems g; wave := wave g;
     score := score g; waveTimer := waveTimer g; spawnTimer := spawnTimer g;
     enemiesSpawnedThisWave := enemiesSpawnedThisWave g; keys := keys g;
     lastTimestamp := ts; animationId := animationId g;
     prevGrid := prevGrid g; canvas := canvas g |}.

Definition setAnimationId (id : option positive) (g : t) : t :=
  {| state := state g; player := player g; enemies := enemies g;
     projectiles := projectiles g; xpGems := xpGems g; wave := wave g;
     score := score g; waveTimer := waveTimer g; spawnTimer := spawnTimer g;
     enemiesSpawnedThisWave := enemiesSpawnedThisWave g; keys := keys g;
     lastTimestamp := lastTimestamp g; animationId := id;
     prevGrid := prevGrid g; canvas := canvas g |}.

Definition setPrevGrid (grid : list (list Cell)) (g : t) : t :=
  {| state := state g; player := player g; enemies := enemies g;
     projectiles := projectiles g; xpGems := xpGems g; wave := wave g;
     score := score g; waveTimer := waveTimer g; spawnTimer := spawnTimer g;
     enemiesSpawnedThisWave := enemiesSpawnedThisWave g; keys := keys g;
     lastTimestamp := lastTimestamp g; animationId := animationId g;
     prevGrid := grid; canvas := canvas g |}.

(** The entities and the score, which the movement and collision phases
    change together. *)
Definition setEntities (p : Player.t) (es : list Enemy.t)
    (ps : list Projectile.t) (gems : list XPGem.t) (sc : Z) (g : t) : t :=
  {| state := state g; player := Some p; enemies := es;
     projectiles := ps; xpGems := gems; wave := wave g;
     score := sc; waveTimer := waveTimer g; spawnTimer := spawnTimer g;
     enemiesSpawnedThisWave := enemiesSpawnedThisWave g; keys := keys g;
     lastTimestamp := lastTimestamp g; animationId := animationId g;
     prevGrid := prevGrid g; canvas := canvas g |}.

Definition setLists (es : list Enemy.t) (ps : list Projectile.t)
    (gems : list XPGem.t) (g : t) : t :=
  {| state := state g; player := player g; enemies := es;
     projectiles := ps; xpGems := gems; wave := wave g;
     score := score g; waveTimer := waveTimer g; spawnTimer := spawnTimer g;
     enemiesSpawnedThisWave := enemiesSpawnedThisWave g; keys := keys g;
     lastTimestamp := lastTimestamp g; animationId := animationId g;
     prevGrid := prevGrid g; canvas := canvas g |}.

(** The wave clock: wave number, the two timers and the per-wave count. *)
Definition setWaveClock (w : Z) (wt st : Q) (n : Z) (g : t) : t :=
  {| state := state g; player := player g; enemies := enemies g;
     projectiles := projectiles g; xpGems := xpGems g; wave := w;
     score := score g; waveTimer := wt; spawnTimer := st;
     enemiesSpawnedThisWave := n; keys := keys g;
     lastTimestamp := lastTimestamp g; animationId := animationId g;
     prevGrid := prevGrid g; canvas := canvas g |}.

(** *** Rendering *)

Definition rows : nat := Z.to_nat CANVAS_HEIGHT.
Definition cols : nat := Z.to_nat CANVAS_WIDTH.

Definition emptyCell : Cell := {| cellChar := CHAR_EMPTY; cellClass := "game-empty" |}.

(** A grid whose every cell is empty: the frame before painting, and
    [prevGrid] as [initGrid] leaves it. *)
Definition blankGrid : list (list Cell) := replicate rows (replicate cols emptyCell).

Definition inGrid (pos : Z * Z) : bool :=
  (0 <=? pos.1)%Z && (pos.1 <? CANVAS_WIDTH)%Z &&
  (0 <=? pos.2)%Z && (pos.2 <? CANVAS_HEIGHT)%Z.

(** [grid[pos.y][pos.x] = c], behind the bounds test of [render]. *)
Definition paint (pos : Z * Z) (c : Cell) (grid : list (list Cell)) : list (list Cell) :=
  if inGrid pos
  then alter (fun row => <[Z.to_nat pos.1 := c]> row) (Z.to_nat pos.2) grid
  else grid.

(** The blink test: [!invincible || Math.floor(now / 100) % 2 === 0]. *)
Definition showPlayer (now : Q) (p : Player.t) : bool :=
  negb (Player.invincible p) || (Z.rem (Qfloor (now / 100)) 2 =? 0)%Z.

(** The current frame: gems, then projectiles, then enemies, then the
    player on top. *)
Definition buildFrame (now : Q) (p : Player.t) (es : list Enemy.t)
    (ps : list Projectile.t) (gems : list XPGem.t) : list (list Cell) :=
  let grid := blankGrid in
  let grid :=
    foldl (fun grid gem =>
             paint (getGridPos (XPGem.x gem) (XPGem.y gem))
                   {| cellChar := XPGem.char gem; cellClass := "game-xp" |} grid)
          grid gems in
  let grid :=
    foldl (fun grid proj =>
             paint (getGridPos (Projectile.x proj) (Projectile.y proj))
                   {| cellChar := Projectile.char proj; cellClass := "game-projectile" |} grid)
          grid ps in
  let grid :=
    foldl (fun grid enemy =>
             paint (getGridPos (Enemy.x enemy) (Enemy.y enemy))
                   {| cellChar := Enemy.char enemy; cellClass := "game-enemy" |} grid)
          grid es in
  let playerPos := getGridPos (Player.x p) (Player.y p) in
  if inGrid playerPos && showPlayer now p
  then paint playerPos {| cellChar := Player.char p; cellClass := "game-player" |} grid
  else grid.

(** [current.char !== prev.char || current.class !== prev.class] *)
Definition cellDiffers (current prev : Cell) : bool :=
  negb (String.eqb (cellChar current) (cellChar prev)) ||
  negb (String.eqb (cellClass current) (cellClass prev)).

(** The cells in the order of the two nested loops, as [(y, x)]. *)
Definition scanOrder : list (nat * nat) :=
  y ← seq 0 rows; x ← seq 0 cols; [(y, x)].

(** The selective update over a list of cells.  Reading a cell that the
    grid does not have is a [TypeError], here [None]. *)
Fixpoint diffCells (cells : list (nat * nat)) (grid prev : list (list Cell))
    : option (list (list Cell) * list Write) :=
  match cells with
  | [] => Some (prev, [])
  | (y, x) :: cells' =>
    row ← grid !! y;
    current ← row !! x;
    prevRow ← prev !! y;
    prevCell ← prevRow !! x;
    if cellDiffers current prevCell then
      let prev' :=
        <[y := <[x := {| cellChar := cellChar current; cellClass := cellClass current |}]> prevRow]> prev in
      '(prev'', writes) ← diffCells cells' grid prev';
      Some (prev'',
            {| writeX := x; writeY := y; textContent := cellChar current;
               className := "game-cell " +:+ cellClass current |} :: writes)
    else diffCells cells' grid prev
  end.

(** [render]: the new game (only [prevGrid] changes) and the writes
    issued, in order. *)
Definition render (now : Q) (g : t) : option (t * list Write) :=
  p ← player g;
  let grid := buildFrame now p (enemies g) (projectiles g) (xpGems g) in
  '(prev', writes) ← diffCells scanOrder grid (prevGrid g);
  Some (setPrevGrid prev' g, writes).

(** [initGrid] rebuilds the surface with every cell empty.  It assigns
    [this.canvas.innerHTML] and asks the canvas for each cell: on a game
    whose canvas is [null] that is a [TypeError], here [None]. *)
Definition initGrid (g : t) : option t :=
  if canvas g then Some (setPrevGrid blankGrid g) else None.

(** *** Collision detection *)

(** The axis-aligned proximity test: [|ax - bx| < r && |ay - by| < r]. *)
Definition near (r ax ay bx by' : Q) : bool :=
  Qltb (Qabs (ax - bx)) r && Qltb (Qabs (ay - by')) r.

Section Host.
Context `{host : MathHost}.

(** Player against the enemies that were active on entry. *)
Fixpoint playerVsEnemies (px py : Q) (erefs : list nat)
    (p : Player.t) (es : list Enemy.t) : Player.t * list Enemy.t :=
  match erefs with
  | [] => (p, es)
  | i :: erefs' =>
    match es !! i with
    | None => playerVsEnemies px py erefs' p es
    | Some enemy =>
      if near 0.8 px py (Enemy.x enemy) (Enemy.y enemy) then
        let '(p', hit) := Player.takeDamage ENEMY_DAMAGE p in
        if hit then
          let angle := Math_atan2 (Enemy.y enemy - py) (Enemy.x enemy - px) in
          let enemy' :=
            Enemy.moveTo (Enemy.x enemy + Math_cos angle * 2)
                         (Enemy.y enemy + Math_sin angle * 2) enemy in
          playerVsEnemies px py erefs' p' (<[i := enemy']> es)
        else playerVsEnemies px py erefs' p' es
      else playerVsEnemies px py erefs' p es
    end
  end.

End Host.

(** The inner loop of one projectile: the first enemy, in the order of
    [activeEnemies], that is still active and near takes the hit, and the
    loop breaks.  The flag says whether the projectile hit. *)
Fixpoint projectileVsEnemies (proj : Projectile.t) (erefs : list nat)
    (es : list Enemy.t) (sc : Z) (gems : list XPGem.t)
    : bool * (list Enemy.t * Z * list XPGem.t) :=
  match erefs with
  | [] => (false, (es, sc, gems))
  | j :: erefs' =>
    match es !! j with
    | None => projectileVsEnemies proj erefs' es sc gems
    | Some enemy =>
      if negb (Enemy.active enemy) then projectileVsEnemies proj erefs' es sc gems
      else if near 0.8 (Projectile.x proj) (Projectile.y proj)
                       (Enemy.x enemy) (Enemy.y enemy) then
        let '(enemy', died) := Enemy.takeDamage enemy in
        if died then
          (true, (<[j := enemy']> es, (sc + 10)%Z,
                  gems ++ [XPGem.new (Enemy.x enemy') (Enemy.y enemy')]))
        else (true, (<[j := enemy']> es, sc, gems))
      else projectileVsEnemies proj erefs' es sc gems
    end
  end.

(** The outer loop over the projectiles that were active on entry. *)
Fixpoint projectilesVsEnemies (prefs erefs : list nat)
    (ps : list Projectile.t) (es : list Enemy.t) (sc : Z) (gems : list XPGem.t)
    : list Projectile.t * list Enemy.t * Z * list XPGem.t :=
  match prefs with
  | [] => (ps, es, sc, gems)
  | i :: prefs' =>
    match ps !! i with
    | None => projectilesVsEnemies prefs' erefs ps es sc gems
    | Some proj =>
      if negb (Projectile.active proj)
      then projectilesVsEnemies prefs' erefs ps es sc gems
      else
        let '(hit, (es', sc', gems')) := projectileVsEnemies proj erefs es sc gems in
        let ps' := if hit then <[i := Projectile.deactivate proj]> ps else ps in
        projectilesVsEnemies prefs' erefs ps' es' sc' gems'
    end
  end.

(** Player against the gems that were active on entry. *)
Fixpoint playerVsGems (px py : Q) (grefs : list nat)
    (gems : list XPGem.t) (sc : Z) : list XPGem.t * Z :=
  match grefs with
  | [] => (gems, sc)
  | i :: grefs' =>
    match gems !! i with
    | None => playerVsGems px py grefs' gems sc
    | Some gem =>
      if near 1.5 px py (XPGem.x gem) (XPGem.y gem)
      then playerVsGems px py grefs' (<[i := XPGem.deactivate gem]> gems)
                        (sc + XPGem.value gem)%Z
      else playerVsGems px py grefs' gems sc
    end
  end.

Section Host.
Context `{host : MathHost}.

Definition checkCollisions (g : t) : option t :=
  let activeEnemies := refs Enemy.active (enemies g) in
  let activeProjectiles := refs Projectile.active (projectiles g) in
  let activeGems := refs XPGem.active (xpGems g) in
  p ← player g;
  let px := Player.x p in
  let py := Player.y p in
  let '(p, es) := playerVsEnemies px py activeEnemies p (enemies g) in
  let '(ps, es, sc, gems) :=
    if (0 <? length activeProjectiles)%nat && (0 <? length activeEnemies)%nat
    then projectilesVsEnemies activeProjectiles activeEnemies
           (projectiles g) es (score g) (xpGems g)
    else (projectiles g, es, score g, xpGems g) in
  let '(gems, sc) := playerVsGems px py activeGems gems sc in
  Some (setEntities p es ps gems sc g).

End Host.

(** *** Wave system *)

(** The two per-wave quantities of [updateWave]. *)
Definition spawnRate (w : Z) : Z :=
  Z.max MIN_SPAWN_RATE (BASE_SPAWN_RATE - (w - 1) * 150).

Definition maxEnemies (w : Z) : Z := (3 + (w - 1) * 2)%Z.

(** The edge position that [spawnEnemy] draws from the two values of
    [Math.random()].  The [switch] has no default: for another side the
    coordinates stay [undefined], which [Math.random()] in [0, 1)
    excludes; the model then takes the origin. *)
Definition spawnPosition (r1 r2 : Q) : Q * Q :=
  let side := Qfloor (r1 * 4) in
  match side with
  | 0%Z => (r2 * inject_Z CANVAS_WIDTH, 0)
  | 1%Z => (inject_Z CANVAS_WIDTH - 1, r2 * inject_Z CANVAS_HEIGHT)
  | 2%Z => (r2 * inject_Z CANVAS_WIDTH, inject_Z CANVAS_HEIGHT - 1)
  | 3%Z => (0, r2 * inject_Z CANVAS_HEIGHT)
  | _ => (0, 0)
  end.

Definition spawnEnemy (r1 r2 : Q) (g : t) : t :=
  let pos := spawnPosition r1 r2 in
  setWaveClock (wave g) (waveTimer g) (spawnTimer g)
    (enemiesSpawnedThisWave g + 1)%Z
    (setLists (enemies g ++ [Enemy.new pos.1 pos.2]) (projectiles g) (xpGems g) g).

(** The spawn test of [updateWave], on the timer and the wave after the
    wave check. *)
Definition spawnDue (st : Q) (w : Z) (es : list Enemy.t) : bool :=
  Qle_bool (inject_Z (spawnRate w)) st &&
  (Z.of_nat (length es) <? maxEnemies w * 2)%Z.

Definition updateWave (r1 r2 dt : Q) (g : t) : t :=
  let wt := waveTimer g + dt in
  let st := spawnTimer g + dt in
  let g :=
    if Qle_bool WAVE_DURATION wt
    then setWaveClock (wave g + 1)%Z 0 st 0%Z g
    else setWaveClock (wave g) wt st (enemiesSpawnedThisWave g) g in
  if spawnDue (spawnTimer g) (wave g) (enemies g) then
    let g := spawnEnemy r1 r2 g in
    setWaveClock (wave g) (waveTimer g) 0 (enemiesSpawnedThisWave g) g
  else g.

(** *** The game loop *)

(** Step 6: each array is filtered only when it holds an inactive entity. *)
Definition cleanup (g : t) : t :=
  let es :=
    if existsb (fun e => negb (Enemy.active e)) (enemies g)
    then List.filter Enemy.active (enemies g) else enemies g in
  let ps :=
    if existsb (fun p => negb (Projectile.active p)) (projectiles g)
    then List.filter Projectile.active (projectiles g) else projectiles g in
  let gems :=
    if existsb (fun x => negb (XPGem.active x)) (xpGems g)
    then List.filter XPGem.active (xpGems g) else xpGems g in
  setLists es ps gems g.

Definition gameOver (wg : World * t) : World * t :=
  let '(w, g) := wg in
  let g := setState gameover g in
  let w := match animationId g with
           | Some id => cancelAnimationFrame id w
           | None => w
           end in
  let g := setAnimationId None g in
  let w := Starfield_start w in
  let w := setListeners (keydownListener w) false w in
  (w, g).

Section Host.
Context `{host : MathHost}.

(** Steps 1 to 3: input, auto-attack, and the update of every entity. *)
Definition moveEntities (now dt : Q) (g : t) : option t :=
  p ← player g;
  let p := Player.handleInput (keys g) dt p in
  let '(p, ps) :=
    if Player.canAttack now p
    then let '(p, projectile) := Player.attack now p in
         (p, projectiles g ++ [projectile])
    else (p, projectiles g) in
  let p := Player.update dt p in
  let es := Enemy.update dt p <$> enemies g in
  let ps := Projectile.update dt <$> ps in
  Some (setEntities p es ps (xpGems g) (score g) g).

(** One call of [gameLoop]: the new page and game and the cells written,
    or [None] for the [TypeError] of a game that was never initialised. *)
Definition gameLoop (inp : TickInput) (wg : World * t)
    : option (World * t * list Write) :=
  let '(w, g) := wg in
  if negb (State_eqb (state g) playing) then Some (w, g, [])
  else
    let dt := timestamp inp - lastTimestamp g in
    let g := setLastTimestamp (timestamp inp) g in
    g ← moveEntities (attackNow inp) dt g;
    g ← checkCollisions g;
    let g := updateWave (randomSide inp) (randomAlong inp) dt g in
    let g := cleanup g in
    p ← player g;
    if (Player.hp p <=? 0)%Z then
      let '(w, g) := gameOver (w, g) in Some (w, g, [])
    else
      '(g, writes) ← render (renderNow inp) g;
      Some (requestAnimationFrame (frameId inp) w,
            setAnimationId (Some (frameId inp)) g, writes).

End Host.

(** *** Lifecycle *)

Definition start (now : Q) (id : positive) (wg : World * t) : World * t :=
  let '(w, g) := wg in
  if State_eqb (state g) playing then (w, g)
  else
    let g := setLastTimestamp now (setState playing g) in
    let w := Starfield_stop w in
    let w := setListeners true true w in
    (requestAnimationFrame id w, setAnimationId (Some id) g).

Definition pause (wg : World * t) : World * t :=
  let '(w, g) := wg in
  if negb (State_eqb (state g) playing) then (w, g)
  else
    let g := setState paused g in
    let w := match animationId g with
             | Some id => cancelAnimationFrame id w
             | None => w
             end in
    let g := setAnimationId None g in
    (Starfield_start w, g).

Definition resume (now : Q) (id : positive) (wg : World * t) : World * t :=
  let '(w, g) := wg in
  if negb (State_eqb (state g) paused) then (w, g)
  else
    let g := setLastTimestamp now (setState playing g) in
    let w := Starfield_stop w in
    (requestAnimationFrame id w, setAnimationId (Some id) g).

Definition destroy (wg : World * t) : World * t :=
  let '(w, g) := wg in
  let g := setState idle g in
  let w := match animationId g with
           | Some id => cancelAnimationFrame id w
           | None => w
           end in
  let g := setAnimationId None g in
  let w := Starfield_start w in
  (setListeners false false w, g).

End VampireGame.

(** ** The HUD, the overlays, the keyboard and the window callbacks

    The rest of the [VampireGame] class and the callbacks that
    [initVampireWindow] hands to the window manager.  The page elements
    they touch are kept beside the game: each is absent ([None]) or
    holds what the code writes to it. *)

Module GameUI.

(** [this.hud]: the object literal that [initVampireWindow] passes to the
    constructor, with the three HUD elements, each absent ([None], the
    [null] of [getElementById]) or holding its [textContent]. *)
Record Hud := mkHud {
  hudWave : option string;
  hudScore : option string;
  hudHp : option string
}.

(** The game-over overlay (its [active] class, and the text of its
    [.stats] child when it has one), the pause overlay and the start
    overlay (their [active] and [hidden] classes), and the [active] class
    of the game window. *)
Record Overlays := mkOverlays {
  gameOverOverlay : option (bool * option string);
  pauseOverlay : option bool;
  startOverlayHidden : option bool;
  windowActive : bool
}.

(** What a keyboard handler reads of its event. *)
Record KeyEvent := mkKeyEvent { targetTagName : string; code : string }.

Definition newline : string := String (Ascii.ascii_of_nat 10) "".

(** [String.prototype.repeat]: a negative count is a [RangeError]. *)
Definition String_repeat (s : string) (count : Z) : option string :=
  if (count <? 0)%Z then None
  else Some (String.concat "" (replicate (Z.to_nat count) s)).

(** [Math.ceil((hp / PLAYER_MAX_HP) * 10)] *)
Definition hpBlocks (hp : Z) : Z :=
  Qceiling ((inject_Z hp / inject_Z PLAYER_MAX_HP) * 10).

Definition updateHUD (g : VampireGame.t) (h : Hud) : option Hud :=
  let waveText := match hudWave h with
                  | Some _ => Some (pretty (VampireGame.wave g))
                  | None => None
                  end in
  let scoreText := match hudScore h with
                   | Some _ => Some (pretty (VampireGame.score g))
                   | None => None
                   end in
  match hudHp h with
  | None => Some {| hudWave := waveText; hudScore := scoreText; hudHp := None |}
  | Some _ =>
    p ← VampireGame.player g;
    let blocks := hpBlocks (Player.hp p) in
    full ← String_repeat "█" blocks;
    light ← String_repeat "░" (10 - blocks);
    Some {| hudWave := waveText; hudScore := scoreText; hudHp := Some (full +:+ light) |}
  end.

Definition showGameOver (g : VampireGame.t) (ov : Overlays) : Overlays :=
  {| gameOverOverlay :=
       match gameOverOverlay ov with
       | Some (_, stats) =>
         Some (true,
               match stats with
               | Some _ =>
                 Some ("Wave: " +:+ pretty (VampireGame.wave g) +:+ newline +:+
                       "Score: " +:+ pretty (VampireGame.score g))
               | None => None
               end)
       | None => None
       end;
     pauseOverlay := pauseOverlay ov;
     startOverlayHidden := startOverlayHidden ov;
     windowActive := windowActive ov |}.

Definition hideGameOver (ov : Overlays) : Overlays :=
  {| gameOverOverlay :=
       match gameOverOverlay ov with
       | Some (_, stats) => Some (false, stats)
       | None => None
       end;
     pauseOverlay := pauseOverlay ov;
     startOverlayHidden := startOverlayHidden ov;
     windowActive := windowActive ov |}.

Definition setPauseOverlay (active : bool) (ov : Overlays) : Overlays :=
  {| gameOverOverlay := gameOverOverlay ov;
     pauseOverlay := match pauseOverlay ov with Some _ => Some active | None => None end;
     startOverlayHidden := startOverlayHidden ov;
     windowActive := windowActive ov |}.

Definition setStartOverlayHidden (hidden : bool) (ov : Overlays) : Overlays :=
  {| gameOverOverlay := gameOverOverlay ov;
     pauseOverlay := pauseOverlay ov;
     startOverlayHidden :=
       match startOverlayHidden ov with Some _ => Some hidden | None => None end;
     windowActive := windowActive ov |}.

Definition setWindowActive (active : bool) (ov : Overlays) : Overlays :=
  {| gameOverOverlay := gameOverOverlay ov;
     pauseOverlay := pauseOverlay ov;
     startOverlayHidden := startOverlayHidden ov;
     windowActive := active |}.

(** The page and the game together. *)
Definition Ui : Type := Overlays * Hud * World * VampireGame.t.

Definition showPauseMenu (ui : Ui) : Ui :=
  let '(ov, h, w, g) := ui in
  let '(w, g) := VampireGame.pause (w, g) in
  (setPauseOverlay true ov, h, w, g).

Definition hidePauseMenu (now : Q) (id : positive) (ui : Ui) : Ui :=
  let '(ov, h, w, g) := ui in
  let ov := setPauseOverlay false ov in
  let '(w, g) := VampireGame.resume now id (w, g) in
  (ov, h, w, g).

(** [this.keys = ...] *)
Definition setKeys (keys : gmap string bool) (g : VampireGame.t) : VampireGame.t :=
  {| VampireGame.state := VampireGame.state g;
     VampireGame.player := VampireGame.player g;
     VampireGame.enemies := VampireGame.enemies g;
     VampireGame.projectiles := VampireGame.projectiles g;
     VampireGame.xpGems := VampireGame.xpGems g;
     VampireGame.wave := VampireGame.wave g;
     VampireGame.score := VampireGame.score g;
     VampireGame.waveTimer := VampireGame.waveTimer g;
     VampireGame.spawnTimer := VampireGame.spawnTimer g;
     VampireGame.enemiesSpawnedThisWave := VampireGame.enemiesSpawnedThisWave g;
     VampireGame.keys := keys;
     VampireGame.lastTimestamp := VampireGame.lastTimestamp g;
     VampireGame.animationId := VampireGame.animationId g;
     VampireGame.prevGrid := VampireGame.prevGrid g;
     VampireGame.canvas := VampireGame.canvas g |}.

(** [init]: a fresh player at the centre, everything else zeroed and no
    key held, then the grid, a first render and the HUD. *)
Definition init (now : Q) (ui : Ui) : option (Ui * list Write) :=
  let '(ov, h, w, g) := ui in
  let p := Player.new (inject_Z (Qfloor (inject_Z CANVAS_WIDTH / 2)))
                      (inject_Z (Qfloor (inject_Z CANVAS_HEIGHT / 2))) in
  let g := VampireGame.setEntities p [] [] [] 0 g in
  let g := VampireGame.setWaveClock 1 0 0 0 g in
  let g := setKeys ∅ g in
  g ← VampireGame.initGrid g;
  '(g, writes) ← VampireGame.render now g;
  h ← updateHUD g h;
  Some ((ov, h, w, g), writes).

(** [reset]: the key-down listener removed, the game-over overlay
    hidden, then [init] and [start]. *)
Definition reset (now : Q) (id : positive) (ui : Ui) : option (Ui * list Write) :=
  let '(ov, h, w, g) := ui in
  let w := setListeners false (keyupListener w) w in
  let ov := hideGameOver ov in
  '((ov, h, w, g), writes) ← init now (ov, h, w, g);
  let '(w, g) := VampireGame.start now id (w, g) in
  Some ((ov, h, w, g), writes).

(** [handleKeyDown]: the new page and game, the cells written by a
    restart, and whether [preventDefault] was called. *)
Definition handleKeyDown (e : KeyEvent) (now : Q) (id : positive) (ui : Ui)
    : option (Ui * list Write * bool) :=
  if String.eqb (targetTagName e) "INPUT" then Some (ui, [], false)
  else
    let '(ov, h, w, g) := ui in
    let g := setKeys (<[code e := true]> (VampireGame.keys g)) g in
    '((ov, h, w, g), writes) ←
      (if String.eqb (code e) "KeyR" && State_eqb (VampireGame.state g) gameover
       then reset now id (ov, h, w, g)
       else Some ((ov, h, w, g), []));
    if String.eqb (code e) "Escape" &&
       (State_eqb (VampireGame.state g) playing || State_eqb (VampireGame.state g) paused)
    then
      if State_eqb (VampireGame.state g) playing
      then Some (showPauseMenu (ov, h, w, g), writes, true)
      else if State_eqb (VampireGame.state g) paused
      then Some (hidePauseMenu now id (ov, h, w, g), writes, true)
      else Some ((ov, h, w, g), writes, true)
    else Some ((ov, h, w, g), writes, false).

Definition handleKeyUp (e : KeyEvent) (g : VampireGame.t) : VampireGame.t :=
  setKeys (<[code e := false]> (VampireGame.keys g)) g.

(** The callbacks of [initVampireWindow]. *)
Definition onMinimize (wg : World * VampireGame.t) : World * VampireGame.t :=
  if State_eqb (VampireGame.state wg.2) playing then VampireGame.pause wg else wg.

Definition onRestore (now : Q) (id : positive) (wg : World * VampireGame.t)
    : World * VampireGame.t :=
  if State_eqb (VampireGame.state wg.2) paused then VampireGame.resume now id wg else wg.

Definition onClose (now : Q) (ui : Ui) : option (Ui * list Write) :=
  let '(ov, h, w, g) := ui in
  let ov := setWindowActive false ov in
  let '(w, g) := VampireGame.destroy (w, g) in
  '((ov, h, w, g), writes) ← init now (ov, h, w, g);
  Some ((setStartOverlayHidden false ov, h, w, g), writes).

(** The click on the start button.  The handler is attached when the
    button exists and uses the start overlay unguarded: without the
    overlay it is a [TypeError], here [None]. *)
Definition startButtonClick (now : Q) (id : positive) (ui : Ui) : option Ui :=
  let '(ov, h, w, g) := ui in
  _ ← startOverlayHidden ov;
  let ov := setStartOverlayHidden true ov in
  let '(w, g) := VampireGame.start now id (w, g) in
  Some (ov, h, w, g).

Definition pauseRestartClick (now : Q) (id : positive) (ui : Ui)
    : option (Ui * list Write) :=
  let '(ov, h, w, g) := ui in
  let ov := setPauseOverlay false ov in
  let '(w, g) := VampireGame.destroy (w, g) in
  '((ov, h, w, g), writes) ← init now (ov, h, w, g);
  let '(w, g) := VampireGame.start now id (w, g) in
  Some ((ov, h, w, g), writes).

Section Host.
Context `{host : MathHost}.

(** One call of [gameLoop] with what it does to the page: the HUD after
    the render of a tick that goes on, the game-over overlay after a tick
    that ends the run. *)
Definition gameLoop (inp : TickInput) (ui : Ui) : option (Ui * list Write) :=
  let '(ov, h, w, g) := ui in
  '(w', g', writes) ← VampireGame.gameLoop inp (w, g);
  if negb (State_eqb (VampireGame.state g) playing) then Some ((ov, h, w', g'), writes)
  else if State_eqb (VampireGame.state g') gameover
  then Some ((showGameOver g' ov, h, w', g'), writes)
  else
    h ← updateHUD g' h;
    Some ((ov, h, w', g'), writes).

End Host.

End GameUI.

(** ** A host to run the model on

    Rational approximations of the four functions, good to a few
    thousandths, so that the definitions above evaluate on concrete
    inputs.  [Math_sqrt] is exact on the squares of rationals with at most
    six decimals. *)

Definition approxPi : Q := 355 # 113.

Definition approxSqrt (a : Q) : Q :=
  if Qle_bool a 0 then 0
  else Qred (Z.sqrt (Qfloor (a * 1000000000000)) # 1000000).

(** [atan t] for [|t| <= 1]. *)
Definition approxAtanUnit (t : Q) : Q := t / (1 + 0.28 * t * t).

Definition approxAtan (t : Q) : Q :=
  if Qle_bool (Qabs t) 1 then approxAtanUnit t
  else if Qltb 0 t then approxPi / 2 - approxAtanUnit (1 / t)
  else - (approxPi / 2) - approxAtanUnit (1 / t).

Definition approxAtan2 (y x : Q) : Q :=
  if Qltb 0 x then approxAtan (y / x)
  else if Qltb x 0 then
    if Qle_bool 0 y then approxAtan (y / x) + approxPi
    else approxAtan (y / x) - approxPi
  else if Qltb 0 y then approxPi / 2
  else if Qltb y 0 then - (approxPi / 2)
  else 0.

(** [sin a] for [0 <= a <= pi]. *)
Definition approxSinHalf (a : Q) : Q :=
  Qred (16 * a * (approxPi - a) /
        (5 * approxPi * approxPi - 4 * a * (approxPi - a))).

Definition approxSin (a : Q) : Q :=
  let turns := Qfloor ((a + approxPi) / (2 * approxPi)) in
  let r := Qred (a - inject_Z turns * (2 * approxPi)) in
  if Qle_bool 0 r then approxSinHalf r else - approxSinHalf (- r).

Definition approxCos (a : Q) : Q := approxSin (a + approxPi / 2).

Definition approxHost : MathHost :=
  {| Math_sqrt := approxSqrt; Math_atan2 := approxAtan2;
     Math_cos := approxCos; Math_sin := approxSin |}.

(** ** Games to run

    A game in the [playing] state, as [init] and [start] leave it, with
    the given entities in place. *)
Definition playingWith (p : Player.t) (es : list Enemy.t)
    (ps : list Projectile.t) (gems : list XPGem.t) : VampireGame.t :=
  VampireGame.setEntities p es ps gems 0
    (VampireGame.setState playing
       (VampireGame.setPrevGrid VampireGame.blankGrid VampireGame.new)).

(** A page with the background animation stopped, both listeners
    attached and the frame request [id] pending, as [start] leaves it. *)
Definition pageWith (id : positive) : World :=
  {| starfield := Some false; keydownListener := true; keyupListener := true;
     frameRequests := {[ id ]} |}.

(** ** The vocabulary of the properties *)

(** The arena as the three movers keep to it. *)
Definition inArena (x y : Q) : Prop :=
  0 <= x <= inject_Z CANVAS_WIDTH - 1 /\ 0 <= y <= inject_Z CANVAS_HEIGHT - 1.

Definition onGrid (x y : Q) : Prop :=
  0 <= x < inject_Z CANVAS_WIDTH /\ 0 <= y < inject_Z CANVAS_HEIGHT.

(** What one tick brings to the player: the elapsed time, the keys, the
    clock at the attack test, and the enemies of the collision phase (the
    references of those active on entry, and the array). *)
Record Tick := mkPlayerTick {
  tickDt : Q;
  tickKeys : gmap string bool;
  tickNow : Q;
  tickRefs : list nat;
  tickEnemies : list Enemy.t
}.

(** Some referenced enemy is within 0.8 of the player on both axes. *)
Definition contact (p : Player.t) (erefs : list nat) (es : list Enemy.t) : Prop :=
  exists i e, i ∈ erefs /\ es !! i = Some e /\
              VampireGame.near 0.8 (Player.x p) (Player.y p) (Enemy.x e) (Enemy.y e) = true.

Definition sumDt (ticks : list Tick) : Q :=
  foldr (fun t acc => tickDt t + acc) 0 ticks.

(** Hit points, invincibility flag and countdown. *)
Definition vitals (p : Player.t) : Z * bool * Q :=
  (Player.hp p, Player.invincible p, Player.invincibleTimer p).

Section Ticks.
Context `{host : MathHost}.

(** The player after the player-enemy loop of [checkCollisions]. *)
Definition collide (erefs : list nat) (es : list Enemy.t) (p : Player.t) : Player.t :=
  (VampireGame.playerVsEnemies (Player.x p) (Player.y p) erefs p es).1.

(** The player after steps 1 to 3 of [gameLoop]. *)
Definition movePlayer (t : Tick) (p : Player.t) : Player.t :=
  let p := Player.handleInput (tickKeys t) (tickDt t) p in
  let p := if Player.canAttack (tickNow t) p then (Player.attack (tickNow t) p).1 else p in
  Player.update (tickDt t) p.

(** The player after the movement and collision phases of one tick. *)
Definition playerTick (p : Player.t) (t : Tick) : Player.t :=
  collide (tickRefs t) (tickEnemies t) (movePlayer t p).

End Ticks.

(** The scenario of the design document: the player at (15, 7) with 100
    hit points, an enemy half a unit above, no key held. *)
Definition meeting (dt now : Q) : Tick :=
  {| tickDt := dt; tickKeys := ∅; tickNow := now;
     tickRefs := [0%nat]; tickEnemies := [Enemy.new 15 6.5] |}.

(** A contact with the first enemy of the array, by evaluation. *)
Ltac contact_with_first e :=
  exists 0%nat, e;
  split; [apply list_elem_of_here | split; [reflexivity | vm_compute; reflexivity]].

Definition sumQ (l : list Q) : Q := foldr Qplus 0 l.

(** A projectile through a series of updates. *)
Definition fly (p : Projectile.t) (dts : list Q) : Projectile.t :=
  foldl (fun p dt => Projectile.update dt p) p dts.

(** The other phases of a tick change neither the wave nor its timer. *)
Definition sameWaveClock (g g1 : VampireGame.t) : Prop :=
  VampireGame.wave g1 = VampireGame.wave g /\
  VampireGame.waveTimer g1 = VampireGame.waveTimer g.

(** A run of ticks as the wave clock sees it: in each tick the other
    phases do what they do, and [updateWave] advances the clock by the
    tick's [dt]. *)
Inductive waveRun : VampireGame.t -> list Q -> VampireGame.t -> Prop :=
| waveRun_done g : waveRun g [] g
| waveRun_tick g g1 r1 r2 dt dts g' :
    sameWaveClock g g1 ->
    waveRun (VampireGame.updateWave r1 r2 dt g1) dts g' ->
    waveRun g (dt :: dts) g'.

Definition countActive (es : list Enemy.t) : nat :=
  length (List.filter Enemy.active es).

(** Six enemies around a player at (15, 7), none within reach, and a
    projectile next to the first; wave 1, with the spawn timer at
    1990 ms. *)
Definition crowded : VampireGame.t :=
  VampireGame.setWaveClock 1 5000 1990 6
    (playingWith (Player.new 15 7)
       [Enemy.new 5 2; Enemy.new 25 2; Enemy.new 5 12;
        Enemy.new 25 12; Enemy.new 10 2; Enemy.new 20 12]
       [Projectile.new (host := approxHost) 5 2.2 (-1) 0] []).

(** The enemy a projectile hits: [j] is the first reference whose enemy is
    still active and within 0.8 on both axes. *)
Definition firstHit (proj : Projectile.t) (es : list Enemy.t)
    (erefs : list nat) (j : nat) (e : Enemy.t) : Prop :=
  exists pre post,
    erefs = pre ++ j :: post /\
    es !! j = Some e /\ Enemy.active e = true /\
    VampireGame.near 0.8 (Projectile.x proj) (Projectile.y proj)
                     (Enemy.x e) (Enemy.y e) = true /\
    forall k e', k ∈ pre -> es !! k = Some e' -> Enemy.active e' = true ->
      VampireGame.near 0.8 (Projectile.x proj) (Projectile.y proj)
                       (Enemy.x e') (Enemy.y e') = false.


(** [grid[y][x]], when the grid has it. *)
Definition cellAt (grid : list (list Cell)) (y x : nat) : option Cell :=
  row ← grid !! y; row !! x.

(** A grid of [CANVAS_HEIGHT] rows of [CANVAS_WIDTH] cells. *)
Definition gridShape (grid : list (list Cell)) : Prop :=
  length grid = VampireGame.rows /\
  Forall (fun row => length row = VampireGame.cols) grid.

(** The write that [render] issues for cell [(y, x)] showing [cur]. *)
Definition writeOf (y x : nat) (cur : Cell) : Write :=
  {| writeX := x; writeY := y; textContent := cellChar cur;
     className := "game-cell " +:+ cellClass cur |}.

(** The write due at a cell: one when the frame and the previous frame
    differ there in glyph or class, none otherwise. *)
Definition changedAt (grid prev : list (list Cell)) (yx : nat * nat) : option Write :=
  cur ← cellAt grid yx.1 yx.2;
  old ← cellAt prev yx.1 yx.2;
  if VampireGame.cellDiffers cur old then Some (writeOf yx.1 yx.2 cur) else None.

Definition changed (grid prev : list (list Cell)) (cells : list (nat * nat)) : list Write :=
  omap (changedAt grid prev) cells.

(** What a frame shows of an entity: its cell and its glyph. *)
Definition gemLook (gem : XPGem.t) : Z * Z * string :=
  (getGridPos (XPGem.x gem) (XPGem.y gem), XPGem.char gem).

Definition projectileLook (proj : Projectile.t) : Z * Z * string :=
  (getGridPos (Projectile.x proj) (Projectile.y proj), Projectile.char proj).

Definition enemyLook (enemy : Enemy.t) : Z * Z * string :=
  (getGridPos (Enemy.x enemy) (Enemy.y enemy), Enemy.char enemy).

Definition playerLook (p : Player.t) : Z * Z * string :=
  (getGridPos (Player.x p) (Player.y p), Player.char p).

(** No entity has changed grid cell or glyph from one game to the other. *)
Definition sameLooks (g1 g2 : VampireGame.t) : Prop :=
  gemLook <$> VampireGame.xpGems g1 = gemLook <$> VampireGame.xpGems g2 /\
  projectileLook <$> VampireGame.projectiles g1 =
    projectileLook <$> VampireGame.projectiles g2 /\
  enemyLook <$> VampireGame.enemies g1 = enemyLook <$> VampireGame.enemies g2 /\
  playerLook <$> VampireGame.player g1 = playerLook <$> VampireGame.player g2.

(** Painting a layer from the looks alone. *)
Definition paintLooks (cls : string) (grid : list (list Cell))
    (looks : list (Z * Z * string)) : list (list Cell) :=
  foldl (fun grid lk =>
           VampireGame.paint lk.1 {| cellChar := lk.2; cellClass := cls |} grid)
        grid looks.

(** A game just hit: the player at (15, 7) is invincible for another
    400 ms, an enemy stands at the top edge, and the last attack is
    recent. *)
Definition justHitPlayer : Player.t :=
  {| Player.x := 15; Player.y := 7; Player.char := CHAR_PLAYER;
     Player.active := true; Player.hp := 90; Player.lastAttack := 900;
     Player.lastDirection := (1, 0); Player.invincible := true;
     Player.invincibleTimer := 400 |}.

Definition justHit : VampireGame.t :=
  playingWith justHitPlayer [Enemy.new 15 0] [] [].

(** ** The vocabulary of the further properties *)

(** The keys ask for no movement: on each axis the two directions are
    both held or both released. *)
Definition noInput (keys : gmap string bool) : Prop :=
  (Player.pressed keys "KeyW" || Player.pressed keys "ArrowUp") =
  (Player.pressed keys "KeyS" || Player.pressed keys "ArrowDown") /\
  (Player.pressed keys "KeyA" || Player.pressed keys "ArrowLeft") =
  (Player.pressed keys "KeyD" || Player.pressed keys "ArrowRight").


(** A gem the player picks up: active, and within 1.5 on both axes. *)
Definition gemInReach (px py : Q) (gem : XPGem.t) : bool :=
  XPGem.active gem && VampireGame.near 1.5 px py (XPGem.x gem) (XPGem.y gem).

(** [collect]: the gem after the pick-up loop. *)
Definition collect (px py : Q) (gem : XPGem.t) : XPGem.t :=
  if gemInReach px py gem then XPGem.deactivate gem else gem.

(** The points of the gems picked up. *)
Definition collectedValue (px py : Q) (gems : list XPGem.t) : Z :=
  foldr (fun gem acc => ((if gemInReach px py gem then XPGem.value gem else 0) + acc)%Z)
        0%Z gems.

(** A gem as a kill leaves it. *)
Definition freshGem (gem : XPGem.t) : Prop :=
  XPGem.active gem = true /\ XPGem.value gem = 10%Z /\ XPGem.char gem = CHAR_XP.

(** An enemy later in the phase: no more hit points, not back to life,
    same glyph. *)
Definition enemyAged (e e' : Enemy.t) : Prop :=
  (Enemy.hp e' <= Enemy.hp e)%Z /\
  (Enemy.active e' = true -> Enemy.active e = true) /\
  Enemy.char e' = Enemy.char e.

(** A projectile later in the phase: as it was, or deactivated. *)
Definition projectileAged (pr pr' : Projectile.t) : Prop :=
  pr' = pr \/ (Projectile.active pr = true /\ pr' = Projectile.deactivate pr).

(** A game that [gameLoop] can run: it has a player, and a previous
    frame of the grid's shape.  [init] makes one. *)
Definition ready (g : VampireGame.t) : Prop :=
  is_Some (VampireGame.player g) /\ gridShape (VampireGame.prevGrid g).

(** Every gem is worth ten points, as [XPGem]'s constructor makes it. *)
Definition gemsWorthTen (g : VampireGame.t) : Prop :=
  Forall (fun gem => XPGem.value gem = 10%Z) (VampireGame.xpGems g).

Section Simulation.
Context `{host : MathHost}.

(** The simulation part of a tick: steps 1 to 6. *)
Definition simulate (inp : TickInput) (g : VampireGame.t) : option VampireGame.t :=
  let dt := timestamp inp - VampireGame.lastTimestamp g in
  g ← VampireGame.moveEntities (attackNow inp) dt
         (VampireGame.setLastTimestamp (timestamp inp) g);
  g ← VampireGame.checkCollisions g;
  Some (VampireGame.cleanup
          (VampireGame.updateWave (randomSide inp) (randomAlong inp) dt g)).

End Simulation.

(** The grid position [pos] is the cell in row [y] and column [x]. *)
Definition onCell (y x : nat) (pos : Z * Z) : bool :=
  bool_decide (pos = (Z.of_nat x, Z.of_nat y)).

(** The glyph that a layer shows at a cell: that of the last entity of
    the array standing there, if any. *)
Definition lookAt (y x : nat) (looks : list (Z * Z * string)) : option string :=
  last (snd <$> List.filter (fun lk => onCell y x lk.1) looks).

(** The player's cell of a frame. *)
Definition playerCell : Cell := {| cellChar := CHAR_PLAYER; cellClass := "game-player" |}.

(** The game that [init] leaves: everything of a new game but the
    canvas, the state, the time base and the frame handle, with the
    player drawn at the centre, (15, 7), the floors of half the width
    and half the height. *)
Definition freshFrom (g : VampireGame.t) : VampireGame.t :=
  {| VampireGame.state := VampireGame.state g;
     VampireGame.player := Some (Player.new 15 7);
     VampireGame.enemies := []; VampireGame.projectiles := [];
     VampireGame.xpGems := [];
     VampireGame.wave := 1; VampireGame.score := 0;
     VampireGame.waveTimer := 0; VampireGame.spawnTimer := 0;
     VampireGame.enemiesSpawnedThisWave := 0; VampireGame.keys := ∅;
     VampireGame.lastTimestamp := VampireGame.lastTimestamp g;
     VampireGame.animationId := VampireGame.animationId g;
     VampireGame.prevGrid := VampireGame.paint (15, 7)%Z playerCell VampireGame.blankGrid;
     VampireGame.canvas := VampireGame.canvas g |}.

(** The game that every restart leaves, started at [now] with frame
    request [id]. *)
Definition freshGame (now : Q) (id : positive) : VampireGame.t :=
  VampireGame.setAnimationId (Some id)
    (VampireGame.setLastTimestamp now
       (VampireGame.setState playing (freshFrom VampireGame.new))).

(** The HUD of a fresh game: wave 1, score 0 and ten full segments, on
    the elements that exist. *)
Definition freshHud (h : GameUI.Hud) : GameUI.Hud :=
  {| GameUI.hudWave := (fun _ => "1") <$> GameUI.hudWave h;
     GameUI.hudScore := (fun _ => "0") <$> GameUI.hudScore h;
     GameUI.hudHp := (fun _ => "██████████") <$> GameUI.hudHp h |}.

(** The page of a running game: both listeners attached, the background
    animation stopped, and [id] among the pending frame requests. *)
Definition running (id : positive) (w0 w : World) : Prop :=
  keydownListener w = true /\ keyupListener w = true /\
  starfield w = (fun _ => false) <$> starfield w0 /\
  id ∈ frameRequests w.

(** A health bar of ten segments, [n] of them full. *)
Definition bar (n : Z) : string :=
  String.concat "" (replicate (Z.to_nat n) "█") +:+
  String.concat "" (replicate (Z.to_nat (10 - n)) "░").

(** A press of [Escape] on an element with tag [tag]. *)
Definition escape (tag : string) : GameUI.KeyEvent := GameUI.mkKeyEvent tag "Escape".

(** The game of a round trip through a pause ended at [now]. *)
Definition restamped (now : Q) (id : positive) (g : VampireGame.t) : VampireGame.t :=
  VampireGame.setAnimationId (Some id) (VampireGame.setLastTimestamp now g).

(** The eight key codes that [handleInput] reads. *)
Definition movementKeys : list string :=
  ["KeyW"; "ArrowUp"; "KeyS"; "ArrowDown"; "KeyA"; "ArrowLeft"; "KeyD"; "ArrowRight"].

(** No movement key is held. *)
Definition idleKeys (keys : gmap string bool) : Prop :=
  Forall (fun c => Player.pressed keys c = false) movementKeys.

(** The direction that a movement key stands for in [handleInput]. *)
Definition keyDirection (c : string) : option (Q * Q) :=
  if String.eqb c "KeyW" || String.eqb c "ArrowUp" then Some (0, -1)
  else if String.eqb c "KeyS" || String.eqb c "ArrowDown" then Some (0, 1)
  else if String.eqb c "KeyA" || String.eqb c "ArrowLeft" then Some (-1, 0)
  else if String.eqb c "KeyD" || String.eqb c "ArrowRight" then Some (1, 0)
  else None.

(** Two games that differ in the keys at most. *)
Definition sameButKeys (g g' : VampireGame.t) : Prop :=
  VampireGame.canvas g' = VampireGame.canvas g /\
  VampireGame.state g' = VampireGame.state g /\
  VampireGame.player g' = VampireGame.player g /\
  VampireGame.enemies g' = VampireGame.enemies g /\
  VampireGame.projectiles g' = VampireGame.projectiles g /\
  VampireGame.xpGems g' = VampireGame.xpGems g /\
  VampireGame.wave g' = VampireGame.wave g /\
  VampireGame.score g' = VampireGame.score g /\
  VampireGame.waveTimer g' = VampireGame.waveTimer g /\
  VampireGame.spawnTimer g' = VampireGame.spawnTimer g /\
  VampireGame.enemiesSpawnedThisWave g' = VampireGame.enemiesSpawnedThisWave g /\
  VampireGame.lastTimestamp g' = VampireGame.lastTimestamp g /\
  VampireGame.animationId g' = VampireGame.animationId g /\
  VampireGame.prevGrid g' = VampireGame.prevGrid g.

(** Case analysis on a key code with a direction. *)
Ltac key_cases c H :=
  unfold keyDirection in H;
  repeat match type of H with
         | context [String.eqb c ?s] =>
             destruct (String.eqb_spec c s) as [-> | ?]; cbn [orb] in H
         end.

(** * Properties *)

(** ** Tests on numbers *)

Lemma Qltb_lt (a b : Q) : Qltb a b = true <-> a < b.
Proof.
  unfold Qltb. rewrite negb_true_iff.
  destruct (Qle_bool b a) eqn:E.
  - apply Qle_bool_iff in E. split; [discriminate | intros; lra].
  - split; [intros _ | reflexivity].
    destruct (Qlt_le_dec a b) as [Hlt | Hle]; [exact Hlt |].
    apply Qle_bool_iff in Hle. congruence.
Qed.

Lemma Qltb_ge (a b : Q) : Qltb a b = false <-> b <= a.
Proof.
  destruct (Qltb a b) eqn:E.
  - apply Qltb_lt in E. split; [discriminate | intros; lra].
  - split; [intros _ | reflexivity].
    destruct (Qlt_le_dec a b) as [Hlt | Hle]; [| exact Hle].
    apply Qltb_lt in Hlt. congruence.
Qed.

Lemma Qle_bool_gt (a b : Q) : Qle_bool a b = false <-> b < a.
Proof.
  rewrite <- Qltb_lt. unfold Qltb. destruct (Qle_bool a b); simpl; intuition congruence.
Qed.

Lemma clamp_bounds (hi v : Q) : 0 <= hi -> 0 <= clamp hi v <= hi.
Proof.
  intros Hhi. unfold clamp. split.
  - apply Q.le_max_l.
  - apply Q.max_lub; [exact Hhi | apply Q.le_min_l].
Qed.

(** ** Movement *)

Section Movement.
Context `{host : MathHost}.

Lemma handleInput_inArena keys dt p :
  let p' := Player.handleInput keys dt p in
  inArena (Player.x p') (Player.y p').
Proof.
  unfold Player.handleInput. destruct (Player.inputDirection keys) as [dx dy].
  simpl. split; apply clamp_bounds; vm_compute; discriminate.
Qed.

Lemma Enemy_update_inArena dt p e :
  inArena (Enemy.x (Enemy.update dt p e)) (Enemy.y (Enemy.update dt p e)).
Proof.
  unfold Enemy.update. simpl. split; apply clamp_bounds; vm_compute; discriminate.
Qed.

Lemma Projectile_update_onGrid dt pr :
  Projectile.active (Projectile.update dt pr) = true ->
  onGrid (Projectile.x (Projectile.update dt pr))
         (Projectile.y (Projectile.update dt pr)) /\
  0 < Projectile.lifetime (Projectile.update dt pr).
Proof.
  unfold Projectile.update. simpl.
  destruct (Qltb _ 0) eqn:E1; [discriminate |].
  destruct (Qle_bool (inject_Z CANVAS_WIDTH) _) eqn:E2; [discriminate |].
  destruct (Qltb (Projectile.y pr + _) 0) eqn:E3; [discriminate |].
  destruct (Qle_bool (inject_Z CANVAS_HEIGHT) _) eqn:E4; [discriminate |].
  destruct (Qle_bool (Projectile.lifetime pr - dt) 0) eqn:E5; [discriminate |].
  intros _. apply Qltb_ge in E1, E3. apply Qle_bool_gt in E2, E4, E5.
  unfold onGrid. auto.
Qed.

Lemma Player_attack_position now p :
  Player.x (Player.attack now p).1 = Player.x p /\
  Player.y (Player.attack now p).1 = Player.y p.
Proof. split; reflexivity. Qed.

Lemma Player_update_position dt p :
  Player.x (Player.update dt p) = Player.x p /\
  Player.y (Player.update dt p) = Player.y p.
Proof. unfold Player.update. destruct (Player.invincible p); split; reflexivity. Qed.

(** C1, as the code has it.  After the movement steps of a tick (input,
    auto-attack, entity updates) the player and every enemy lie in
    [0, W-1] x [0, H-1], because their positions are clamped; a projectile
    is not clamped: one that is still active lies in [0, W) x [0, H). *)
Theorem moveEntities_bounds now dt g g' :
  VampireGame.moveEntities now dt g = Some g' ->
  (exists p, VampireGame.player g' = Some p /\
             inArena (Player.x p) (Player.y p)) /\
  (forall e, e ∈ VampireGame.enemies g' -> inArena (Enemy.x e) (Enemy.y e)) /\
  (forall pr, pr ∈ VampireGame.projectiles g' ->
              Projectile.active pr = true ->
              onGrid (Projectile.x pr) (Projectile.y pr)).
Proof.
  unfold VampireGame.moveEntities. intros Hrun.
  destruct (VampireGame.player g) as [p |]; [| discriminate]. simpl in Hrun.
  pose proof (handleInput_inArena (VampireGame.keys g) dt p) as Hin.
  set (p1 := Player.handleInput (VampireGame.keys g) dt p) in *.
  destruct (Player.canAttack now p1).
  - injection Hrun as <-. simpl. split; [| split].
    + eexists; split; [reflexivity |].
      match goal with
      | |- inArena (Player.x (Player.update dt ?q)) _ =>
          destruct (Player_update_position dt q) as [-> ->]
      end.
      exact Hin.
    + intros e [e0 [-> _]]%list_elem_of_fmap. apply Enemy_update_inArena.
    + intros pr [pr0 [-> _]]%list_elem_of_fmap Hact.
      apply Projectile_update_onGrid, Hact.
  - injection Hrun as <-. simpl. split; [| split].
    + eexists; split; [reflexivity |].
      destruct (Player_update_position dt p1) as [-> ->]. exact Hin.
    + intros e [e0 [-> _]]%list_elem_of_fmap. apply Enemy_update_inArena.
    + intros pr [pr0 [-> _]]%list_elem_of_fmap Hact.
      apply Projectile_update_onGrid, Hact.
Qed.

(** The movement steps only need a player. *)
Lemma moveEntities_runs now dt g p :
  VampireGame.player g = Some p ->
  exists g', VampireGame.moveEntities now dt g = Some g'.
Proof.
  intros Hp. unfold VampireGame.moveEntities. rewrite Hp. simpl.
  destruct (Player.canAttack _ _); eexists; reflexivity.
Qed.

End Movement.

(** C1 as stated fails for projectiles.  The player stands at the right
    edge, (29, 7), facing right; the auto-attack fires from (29.5, 7) and
    after a tick of 10 ms the projectile is at x = 29.8, inside the grid,
    still active, and beyond W - 1 = 29. *)
Lemma moveEntities_projectile_beyond_clamp :
  exists g' pr,
    VampireGame.moveEntities (host := approxHost) 1000 10
      (playingWith (Player.new 29 7) [] [] []) = Some g' /\
    VampireGame.projectiles g' = [pr] /\
    Projectile.active pr = true /\
    Projectile.x pr == 29.8 /\
    inject_Z CANVAS_WIDTH - 1 < Projectile.x pr.
Proof.
  eexists. eexists. split; [vm_compute; reflexivity |].
  split; [reflexivity |]. split; [reflexivity |].
  split; vm_compute; reflexivity.
Qed.

(** [moveEntities_bounds] at a game with the player in the centre, an
    enemy at the top edge and a projectile in flight. *)
Lemma moveEntities_bounds_witness :
  exists g',
    VampireGame.moveEntities (host := approxHost) 1000 16
      (playingWith (Player.new 15 7) [Enemy.new 15 0]
                   [Projectile.new (host := approxHost) 20 7 1 0] []) = Some g' /\
    (exists p, VampireGame.player g' = Some p /\
               inArena (Player.x p) (Player.y p)) /\
    (forall e, e ∈ VampireGame.enemies g' -> inArena (Enemy.x e) (Enemy.y e)) /\
    (forall pr, pr ∈ VampireGame.projectiles g' ->
                Projectile.active pr = true ->
                onGrid (Projectile.x pr) (Projectile.y pr)).
Proof.
  eexists. split; [vm_compute; reflexivity |].
  apply (moveEntities_bounds (host := approxHost) 1000 16
           (playingWith (Player.new 15 7) [Enemy.new 15 0]
                        [Projectile.new (host := approxHost) 20 7 1 0] [])).
  vm_compute; reflexivity.
Defined.

(** ** Invincibility *)

Section Invincibility.
Context `{host : MathHost}.

(** [playerTick] is what [gameLoop] does to the player: the phases after
    the collisions do not touch it. *)
Lemma playerTick_phases now dt g g1 g2 p :
  VampireGame.player g = Some p ->
  VampireGame.moveEntities now dt g = Some g1 ->
  VampireGame.checkCollisions g1 = Some g2 ->
  VampireGame.player g2 =
    Some (playerTick p
            {| tickDt := dt; tickKeys := VampireGame.keys g; tickNow := now;
               tickRefs := refs Enemy.active (VampireGame.enemies g1);
               tickEnemies := VampireGame.enemies g1 |}).
Proof.
  intros Hp Hmove Hcoll. unfold VampireGame.moveEntities in Hmove.
  rewrite Hp in Hmove. cbv beta iota delta [mbind option_bind] in Hmove.
  unfold playerTick, movePlayer, collide. simpl.
  set (p1 := Player.handleInput (VampireGame.keys g) dt p) in *.
  assert (exists ps,
            g1 = VampireGame.setEntities
                   (Player.update dt
                      (if Player.canAttack now p1 then (Player.attack now p1).1 else p1))
                   (Enemy.update dt
                      (Player.update dt
                         (if Player.canAttack now p1 then (Player.attack now p1).1 else p1))
                    <$> VampireGame.enemies g)
                   ps (VampireGame.xpGems g) (VampireGame.score g) g) as [ps ->].
  { destruct (Player.canAttack now p1); injection Hmove as <-; eexists; reflexivity. }
  unfold VampireGame.checkCollisions in Hcoll.
  cbn [VampireGame.player VampireGame.enemies VampireGame.setEntities
       mbind option_bind] in Hcoll.
  match type of Hcoll with
  | context [VampireGame.playerVsEnemies ?a ?b ?c ?d ?e] =>
      change (VampireGame.playerVsEnemies _ _ _ _ _)
        with (VampireGame.playerVsEnemies a b c d e);
      destruct (VampireGame.playerVsEnemies a b c d e) as [p' es']
  end.
  match type of Hcoll with
  | context [if ?c then ?x else ?y] => destruct (if c then x else y) as [[[ps1 es1] sc1] gems1]
  end.
  match type of Hcoll with
  | context [VampireGame.playerVsGems ?a ?b ?c ?d ?e] =>
      destruct (VampireGame.playerVsGems a b c d e) as [gems2 sc2]
  end.
  injection Hcoll as <-. reflexivity.
Qed.

Lemma wave_cleanup_player r1 r2 dt g :
  VampireGame.player (VampireGame.cleanup (VampireGame.updateWave r1 r2 dt g)) =
  VampireGame.player g.
Proof.
  unfold VampireGame.updateWave.
  destruct (Qle_bool WAVE_DURATION _); simpl; destruct (VampireGame.spawnDue _ _ _); reflexivity.
Qed.

Lemma playerVsEnemies_invincible px py erefs p es :
  Player.invincible p = true ->
  VampireGame.playerVsEnemies px py erefs p es = (p, es).
Proof.
  intros Hinv. revert es. induction erefs as [| i erefs IH]; intros es; simpl.
  - reflexivity.
  - destruct (es !! i) as [e |]; [| apply IH].
    destruct (VampireGame.near _ _ _ _ _); [| apply IH].
    unfold Player.takeDamage. rewrite Hinv. apply IH.
Qed.

Lemma playerVsEnemies_hit px py erefs p es :
  Player.invincible p = false ->
  (exists i e, i ∈ erefs /\ es !! i = Some e /\
               VampireGame.near 0.8 px py (Enemy.x e) (Enemy.y e) = true) ->
  vitals (VampireGame.playerVsEnemies px py erefs p es).1 =
    ((Player.hp p - ENEMY_DAMAGE)%Z, true, 500).
Proof.
  intros Hinv. induction erefs as [| i erefs IH]; intros (j & e & Hj & He & Hnear).
  - inversion Hj.
  - simpl. destruct (es !! i) as [e0 |] eqn:Hi.
    + destruct (VampireGame.near 0.8 px py (Enemy.x e0) (Enemy.y e0)) eqn:Hn0.
      * unfold Player.takeDamage. rewrite Hinv.
        rewrite playerVsEnemies_invincible by reflexivity. reflexivity.
      * apply IH. exists j, e. apply elem_of_cons in Hj as [-> | Hj]; [congruence | auto].
    + apply IH. exists j, e. apply elem_of_cons in Hj as [-> | Hj]; [congruence | auto].
Qed.

(** Input and attack leave the vitals alone, and [update] reads nothing
    else. *)
Lemma movePlayer_vitals t p :
  vitals (movePlayer t p) = vitals (Player.update (tickDt t) p).
Proof.
  unfold movePlayer, Player.handleInput.
  destruct (Player.inputDirection (tickKeys t)) as [dx dy].
  destruct (Player.canAttack _ _); unfold vitals, Player.update; simpl;
    destruct (Player.invincible p) eqn:E; simpl; rewrite ?E; reflexivity.
Qed.

Lemma update_counts_down dt p :
  Player.invincible p = true ->
  dt < Player.invincibleTimer p ->
  vitals (Player.update dt p) = (Player.hp p, true, Player.invincibleTimer p - dt).
Proof.
  intros Hinv Hlt. unfold Player.update, vitals. rewrite Hinv. simpl.
  destruct (Qle_bool _ 0) eqn:E; [| reflexivity].
  apply Qle_bool_iff in E. lra.
Qed.

Lemma update_expires dt p :
  Player.invincibleTimer p <= dt ->
  Player.hp (Player.update dt p) = Player.hp p /\
  Player.invincible (Player.update dt p) = false.
Proof.
  intros Hle. unfold Player.update. destruct (Player.invincible p) eqn:Hinv; simpl.
  - split; [reflexivity |].
    destruct (Qle_bool _ 0) eqn:E; [reflexivity |].
    apply Qle_bool_gt in E. lra.
  - split; [reflexivity | exact Hinv].
Qed.

Lemma sumDt_nonneg ticks : Forall (fun t => 0 <= tickDt t) ticks -> 0 <= sumDt ticks.
Proof. induction 1 as [| t ts Ht _ IH]; simpl; lra. Qed.

(** While the countdown lasts, ticks leave the hit points alone. *)
Lemma window_holds ticks : forall p,
  Player.invincible p = true ->
  Forall (fun t => 0 <= tickDt t) ticks ->
  sumDt ticks < Player.invincibleTimer p ->
  let p' := foldl playerTick p ticks in
  Player.hp p' = Player.hp p /\
  Player.invincible p' = true /\
  Player.invincibleTimer p' == Player.invincibleTimer p - sumDt ticks.
Proof.
  induction ticks as [| t ticks IH]; intros p Hinv Hpos Hsum; simpl in *.
  - split; [reflexivity | split; [exact Hinv | lra]].
  - apply Forall_cons in Hpos as [Hdt Hpos].
    pose proof (sumDt_nonneg ticks Hpos) as Hnn.
    assert (vitals (playerTick p t) =
            (Player.hp p, true, Player.invincibleTimer p - tickDt t)) as Hv.
    { pose proof (movePlayer_vitals t p) as Hm.
      rewrite (update_counts_down (tickDt t) p Hinv) in Hm by lra.
      unfold playerTick, collide.
      rewrite playerVsEnemies_invincible; [exact Hm |].
      unfold vitals in Hm. congruence. }
    unfold vitals in Hv. injection Hv as Hhp1 Hinv1 Htm1.
    destruct (IH (playerTick p t) Hinv1 Hpos) as (Hhp2 & Hinv2 & Htm2).
    { rewrite Htm1. lra. }
    split; [congruence | split; [exact Hinv2 |]].
    rewrite Htm2, Htm1. lra.
Qed.

Lemma sumDt_take (ticks : list Tick) n :
  Forall (fun t => 0 <= tickDt t) ticks ->
  sumDt (take n ticks) <= sumDt ticks.
Proof.
  intros Hpos. revert n. induction Hpos as [| t ts Ht Hts IH]; intros [| n]; simpl; try lra.
  - pose proof (sumDt_nonneg ts Hts). lra.
  - specialize (IH n). lra.
Qed.

(** C2.  A contact while the player is not invincible costs [ENEMY_DAMAGE]
    hit points and starts a countdown of 500 ms.  Through the following
    ticks (each with its [dt >= 0], its keys, and any enemies at all in
    its collision phase) the hit points stay as they are as long as the
    elapsed time is below 500 ms, and the countdown is what is left of
    it.  At the tick that brings the elapsed time to 500 ms or more, a
    contact costs [ENEMY_DAMAGE] again. *)
Theorem invincibility_window (p : Player.t) (erefs0 : list nat) (es0 : list Enemy.t)
    (ticks : list Tick) (last : Tick) :
  Player.invincible p = false ->
  contact p erefs0 es0 ->
  Forall (fun t => 0 <= tickDt t) ticks ->
  sumDt ticks < 500 ->
  500 <= sumDt ticks + tickDt last ->
  let p1 := collide erefs0 es0 p in
  let p2 := foldl playerTick p1 ticks in
  let p3 := playerTick p2 last in
  contact (movePlayer last p2) (tickRefs last) (tickEnemies last) ->
  (Player.hp p1 = (Player.hp p - ENEMY_DAMAGE)%Z /\
   Player.invincible p1 = true /\ Player.invincibleTimer p1 = 500) /\
  (forall n, Player.hp (foldl playerTick p1 (take n ticks)) = Player.hp p1) /\
  (Player.invincible p2 = true /\
   Player.invincibleTimer p2 == 500 - sumDt ticks) /\
  Player.hp p3 = (Player.hp p1 - ENEMY_DAMAGE)%Z.
Proof.
  intros Hinv Hc0 Hpos Hsum Hend p1 p2 p3 Hc.
  pose proof (playerVsEnemies_hit (Player.x p) (Player.y p) erefs0 p es0 Hinv Hc0) as Hv1.
  fold (collide erefs0 es0 p) in Hv1. fold p1 in Hv1.
  unfold vitals in Hv1. injection Hv1 as Hhp1 Hinv1 Htm1.
  split; [auto |].
  split.
  { intros n.
    destruct (window_holds (take n ticks) p1 Hinv1) as (Hhp & _).
    - apply Forall_take, Hpos.
    - rewrite Htm1. pose proof (sumDt_take ticks n Hpos). lra.
    - exact Hhp. }
  destruct (window_holds ticks p1 Hinv1 Hpos) as (Hhp2 & Hinv2 & Htm2).
  { rewrite Htm1. exact Hsum. }
  fold p2 in Hhp2, Hinv2, Htm2. rewrite Htm1 in Htm2.
  split; [auto |].
  destruct (update_expires (tickDt last) p2) as (Hhp3 & Hinv3); [lra |].
  pose proof (movePlayer_vitals last p2) as Hm. unfold vitals in Hm.
  injection Hm as Hmhp Hminv _.
  assert (Player.invincible (movePlayer last p2) = false) as Hoff by congruence.
  pose proof (playerVsEnemies_hit _ _ _ _ _ Hoff Hc) as Hv3.
  unfold vitals in Hv3. injection Hv3 as Hhp4 _ _.
  subst p3. unfold playerTick, collide. rewrite Hhp4. congruence.
Qed.

End Invincibility.

(** [invincibility_window] on that scenario: the first contact leaves 90
    hit points, a contact 200 ms later changes nothing, and a contact
    after 500 ms leaves 80. *)
Lemma invincibility_window_witness :
  let p1 := collide (host := approxHost) [0%nat] [Enemy.new 15 6.5] (Player.new 15 7) in
  let p2 := foldl (playerTick (host := approxHost)) p1 [meeting 200 1200] in
  let p3 := playerTick (host := approxHost) p2 (meeting 300 1500) in
  Player.hp p1 = 90%Z /\ Player.hp p2 = 90%Z /\ Player.hp p3 = 80%Z.
Proof.
  assert (Forall (fun t => 0 <= tickDt t) [meeting 200 1200]) as Hpos.
  { apply Forall_cons. split; [vm_compute; discriminate | apply Forall_nil_2]. }
  assert (sumDt [meeting 200 1200] < 500) as Hsum by (vm_compute; reflexivity).
  assert (500 <= sumDt [meeting 200 1200] + tickDt (meeting 300 1500)) as Hend
    by (vm_compute; discriminate).
  destruct (invincibility_window (host := approxHost) (Player.new 15 7)
              [0%nat] [Enemy.new 15 6.5] [meeting 200 1200] (meeting 300 1500)
              eq_refl ltac:(contact_with_first (Enemy.new 15 6.5)) Hpos Hsum Hend)
    as ((H1 & _) & H2 & _ & H3).
  { contact_with_first (Enemy.new 15 6.5). }
  intros p1 p2 p3. split; [exact H1 | split].
  - exact (eq_trans (H2 1%nat) H1).
  - refine (eq_trans H3 _). exact (f_equal (fun h => (h - ENEMY_DAMAGE)%Z) H1).
Defined.

(** ** Wave escalation *)

(** C6.  From wave 1 on, the spawn interval is
    [max(500, 2000 - (w - 1) * 150)]: it falls by 150 ms a wave down to
    wave 11 and is 500 ms from there on, so it never increases with the
    wave and never goes below the minimum; the population bound
    [3 + (w - 1) * 2] never decreases. *)
Theorem spawnRate_escalation (w w' : Z) :
  (1 <= w)%Z -> (w <= w')%Z ->
  VampireGame.spawnRate w =
    Z.max MIN_SPAWN_RATE (BASE_SPAWN_RATE - (w - 1) * 150) /\
  ((w <= 11)%Z -> VampireGame.spawnRate w = (2000 - (w - 1) * 150)%Z) /\
  ((11 <= w)%Z -> VampireGame.spawnRate w = MIN_SPAWN_RATE) /\
  (MIN_SPAWN_RATE <= VampireGame.spawnRate w)%Z /\
  (VampireGame.spawnRate w' <= VampireGame.spawnRate w)%Z /\
  (VampireGame.maxEnemies w <= VampireGame.maxEnemies w')%Z.
Proof.
  intros H1 Hle.
  unfold VampireGame.spawnRate, VampireGame.maxEnemies, MIN_SPAWN_RATE, BASE_SPAWN_RATE.
  repeat split; lia.
Qed.

(** [spawnRate_escalation] between waves 3 and 12. *)
Lemma spawnRate_escalation_witness :
  VampireGame.spawnRate 3 = 1700%Z /\ VampireGame.spawnRate 12 = 500%Z /\
  (VampireGame.spawnRate 12 <= VampireGame.spawnRate 3)%Z /\
  (VampireGame.maxEnemies 3 <= VampireGame.maxEnemies 12)%Z.
Proof.
  destruct (spawnRate_escalation 3 12) as (_ & Hlin & _ & _ & Hmono & Hcap); [lia | lia |].
  destruct (spawnRate_escalation 12 12) as (_ & _ & Hmin & _); [lia | lia |].
  split; [apply Hlin; lia | split; [apply Hmin; lia | split; [exact Hmono | exact Hcap]]].
Defined.

(** ** Projectile lifetime *)

Lemma fly_app p dts dts' : fly p (dts ++ dts') = fly (fly p dts) dts'.
Proof. apply foldl_app. Qed.

Lemma fly_lifetime dts : forall p,
  Projectile.lifetime (fly p dts) == Projectile.lifetime p - sumQ dts.
Proof.
  induction dts as [| dt dts IH]; intros p; simpl.
  - lra.
  - rewrite IH. simpl. lra.
Qed.

Lemma update_stays_inactive dt p :
  Projectile.active p = false -> Projectile.active (Projectile.update dt p) = false.
Proof. intros Hp. unfold Projectile.update. simpl. rewrite Hp. destruct (_ || _); reflexivity. Qed.

Lemma fly_stays_inactive dts : forall p,
  Projectile.active p = false -> Projectile.active (fly p dts) = false.
Proof.
  induction dts as [| dt dts IH]; intros p Hp; simpl; [exact Hp |].
  apply IH, update_stays_inactive, Hp.
Qed.

Lemma update_expired dt p :
  Projectile.lifetime (Projectile.update dt p) <= 0 ->
  Projectile.active (Projectile.update dt p) = false.
Proof.
  unfold Projectile.update. simpl. intros Hle.
  apply Qle_bool_iff in Hle. rewrite Hle.
  rewrite !orb_true_r. reflexivity.
Qed.

Lemma fly_expired dts : forall p,
  dts <> [] -> Projectile.lifetime (fly p dts) <= 0 ->
  Projectile.active (fly p dts) = false.
Proof.
  induction dts as [| dt dts IH] using rev_ind; intros p Hne Hle; [congruence |].
  rewrite fly_app in *. simpl in *. apply update_expired, Hle.
Qed.

Section Lifetime.
Context `{host : MathHost}.

(** C7.  A new projectile has 3000 ms to live.  Once the time applied by
    its updates has reached 3000 ms it is inactive, and it stays so
    through any further update, wherever it is. *)
Theorem projectile_lifetime (x y vx vy : Q) (dts later : list Q) :
  3000 <= sumQ dts ->
  Projectile.lifetime (Projectile.new x y vx vy) = 3000 /\
  Projectile.active (fly (Projectile.new x y vx vy) dts) = false /\
  Projectile.active (fly (Projectile.new x y vx vy) (dts ++ later)) = false.
Proof.
  intros Hsum.
  assert (Projectile.active (fly (Projectile.new x y vx vy) dts) = false) as Hoff.
  { apply fly_expired.
    - intros ->. simpl in Hsum. lra.
    - rewrite fly_lifetime. simpl. lra. }
  split; [reflexivity | split; [exact Hoff |]].
  rewrite fly_app. apply fly_stays_inactive, Hoff.
Qed.

End Lifetime.

(** [projectile_lifetime] for a projectile fired to the left from (15, 7):
    three updates of one second, then a fourth update. *)
Lemma projectile_lifetime_witness :
  3000 <= sumQ [1000; 1000; 1000] /\
  Projectile.active
    (fly (Projectile.new (host := approxHost) 15 7 (-1) 0) [1000; 1000; 1000]) = false /\
  Projectile.active
    (fly (Projectile.new (host := approxHost) 15 7 (-1) 0) ([1000; 1000; 1000] ++ [16])) = false.
Proof.
  assert (3000 <= sumQ [1000; 1000; 1000]) as Hsum by (vm_compute; discriminate).
  destruct (projectile_lifetime (host := approxHost) 15 7 (-1) 0 [1000; 1000; 1000] [16] Hsum)
    as (_ & H1 & H2).
  split; [exact Hsum | split; [exact H1 | exact H2]].
Defined.

(** ** The wave clock *)

Lemma updateWave_clock r1 r2 dt g :
  let g' := VampireGame.updateWave r1 r2 dt g in
  (Qle_bool WAVE_DURATION (VampireGame.waveTimer g + dt) = true ->
   VampireGame.wave g' = (VampireGame.wave g + 1)%Z /\
   VampireGame.waveTimer g' = 0) /\
  (Qle_bool WAVE_DURATION (VampireGame.waveTimer g + dt) = false ->
   VampireGame.wave g' = VampireGame.wave g /\
   VampireGame.waveTimer g' = VampireGame.waveTimer g + dt).
Proof.
  unfold VampireGame.updateWave.
  destruct (Qle_bool WAVE_DURATION _); simpl;
    destruct (VampireGame.spawnDue _ _ _); simpl; split; intros Hq;
    try discriminate Hq; split; reflexivity.
Qed.

Lemma sumQ_nonneg dts : Forall (fun dt => 0 <= dt) dts -> 0 <= sumQ dts.
Proof. induction 1 as [| dt dts Hdt _ IH]; simpl; lra. Qed.

Lemma waveRun_within g dts g' :
  waveRun g dts g' ->
  Forall (fun dt => 0 <= dt) dts ->
  VampireGame.waveTimer g + sumQ dts < WAVE_DURATION ->
  VampireGame.wave g' = VampireGame.wave g /\
  VampireGame.waveTimer g' == VampireGame.waveTimer g + sumQ dts.
Proof.
  induction 1 as [g | g g1 r1 r2 dt dts g' [Hw Ht] Hrun IH]; intros Hpos Hsum; simpl in *.
  - split; [reflexivity | lra].
  - apply Forall_cons in Hpos as [Hdt Hpos].
    pose proof (sumQ_nonneg dts Hpos) as Hnn.
    destruct (updateWave_clock r1 r2 dt g1) as [_ Hstay].
    destruct Hstay as [Hw1 Ht1].
    { apply Qle_bool_gt. rewrite Ht. lra. }
    destruct IH as [Hw2 Ht2]; [exact Hpos | rewrite Ht1, Ht; lra |].
    split; [congruence |]. rewrite Ht2, Ht1, Ht. lra.
Qed.

Lemma waveRun_turns g dts g' :
  waveRun g dts g' ->
  Forall (fun dt => 0 <= dt) dts ->
  VampireGame.waveTimer g < WAVE_DURATION ->
  VampireGame.waveTimer g + sumQ dts == WAVE_DURATION ->
  VampireGame.wave g' = (VampireGame.wave g + 1)%Z /\
  VampireGame.waveTimer g' == 0.
Proof.
  induction 1 as [g | g g1 r1 r2 dt dts g' [Hw Ht] Hrun IH]; intros Hpos Hlt Hsum; simpl in *.
  - lra.
  - apply Forall_cons in Hpos as [Hdt Hpos].
    pose proof (sumQ_nonneg dts Hpos) as Hnn.
    destruct (updateWave_clock r1 r2 dt g1) as [Hturn Hstay].
    destruct (Qle_bool WAVE_DURATION (VampireGame.waveTimer g1 + dt)) eqn:E.
    + destruct Hturn as [Hw1 Ht1]; [reflexivity |].
      apply Qle_bool_iff in E. rewrite Ht in E.
      destruct (waveRun_within _ _ _ Hrun Hpos) as [Hw2 Ht2].
      { rewrite Ht1. unfold WAVE_DURATION in *. lra. }
      split; [congruence |]. rewrite Ht2, Ht1. lra.
    + destruct Hstay as [Hw1 Ht1]; [reflexivity |].
      apply Qle_bool_gt in E. rewrite Ht in E.
      destruct IH as [Hw2 Ht2]; [exact Hpos | rewrite Ht1, Ht; exact E | rewrite Ht1, Ht; lra |].
      split; [congruence | exact Ht2].
Qed.

(** C5, as the code has it.  In the tick whose [dt] brings the wave timer
    to 20000 ms or more, the wave goes up by one and the wave timer is
    zero again; the per-wave spawn count restarts, so after the tick it
    is 1 when the same call spawns an enemy and 0 otherwise.  And from a
    wave timer of zero, ticks of non-negative [dt] that add up to exactly
    20000 ms take the wave up by exactly one, from 1 to 2 in a new
    game. *)
Theorem updateWave_new_wave :
  (forall r1 r2 dt g,
     WAVE_DURATION <= VampireGame.waveTimer g + dt ->
     let g' := VampireGame.updateWave r1 r2 dt g in
     VampireGame.wave g' = (VampireGame.wave g + 1)%Z /\
     VampireGame.waveTimer g' = 0 /\
     VampireGame.enemiesSpawnedThisWave g' =
       if VampireGame.spawnDue (VampireGame.spawnTimer g + dt)
            (VampireGame.wave g + 1) (VampireGame.enemies g)
       then 1%Z else 0%Z) /\
  (forall g dts g',
     waveRun g dts g' ->
     Forall (fun dt => 0 <= dt) dts ->
     VampireGame.waveTimer g == 0 ->
     sumQ dts == WAVE_DURATION ->
     VampireGame.wave g' = (VampireGame.wave g + 1)%Z /\
     VampireGame.waveTimer g' == 0).
Proof.
  split.
  - intros r1 r2 dt g Hdue. apply Qle_bool_iff in Hdue.
    unfold VampireGame.updateWave. rewrite Hdue. simpl.
    destruct (VampireGame.spawnDue _ _ _); simpl; auto.
  - intros g dts g' Hrun Hpos Hzero Hsum.
    apply (waveRun_turns g dts g' Hrun Hpos).
    + rewrite Hzero. reflexivity.
    + rewrite Hzero, Hsum. lra.
Qed.

(** C5 as stated fails on the spawn count.  Late in wave 1 (wave timer at
    19990 ms, spawn timer at 1990 ms, nine enemies spawned so far) a tick
    of 16 ms ends the wave; the spawn timer, at 2006 ms, has passed the
    1850 ms of wave 2, so the same call spawns an enemy and the count
    after the tick is 1, not 0. *)
Lemma updateWave_counts_spawn_of_new_wave :
  let g := VampireGame.setWaveClock 1 19990 1990 9
             (playingWith (Player.new 15 7) [] [] []) in
  let g' := VampireGame.updateWave 0 0.5 16 g in
  WAVE_DURATION <= VampireGame.waveTimer g + 16 /\
  VampireGame.wave g' = 2%Z /\
  VampireGame.waveTimer g' = 0 /\
  VampireGame.enemiesSpawnedThisWave g' = 1%Z /\
  length (VampireGame.enemies g') = 1%nat.
Proof.
  split; [vm_compute; discriminate |].
  split; [reflexivity | split; [reflexivity | split; reflexivity]].
Qed.

(** [updateWave_new_wave] on a new game: 19990 ms in two ticks, then the
    tick of 10 ms that ends wave 1. *)
Lemma updateWave_new_wave_witness :
  let g := playingWith (Player.new 15 7) [] [] [] in
  let g1 := VampireGame.updateWave 0 0.5 10000 g in
  let g2 := VampireGame.updateWave 0 0.5 9990 (VampireGame.cleanup g1) in
  let g3 := VampireGame.updateWave 0 0.5 10 g2 in
  VampireGame.wave g = 1%Z /\ VampireGame.wave g3 = 2%Z /\
  VampireGame.waveTimer g3 == 0.
Proof.
  intros g g1 g2 g3.
  assert (waveRun g [10000; 9990; 10] g3) as Hrun.
  { apply (waveRun_tick g g 0 0.5); [split; reflexivity |].
    apply (waveRun_tick g1 (VampireGame.cleanup g1) 0 0.5); [split; reflexivity |].
    apply (waveRun_tick g2 g2 0 0.5); [split; reflexivity |].
    apply waveRun_done. }
  destruct updateWave_new_wave as [_ Hturn].
  destruct (Hturn g [10000; 9990; 10] g3 Hrun) as [Hw Ht].
  - repeat (apply Forall_cons; split; [vm_compute; discriminate |]). apply Forall_nil_2.
  - reflexivity.
  - vm_compute. reflexivity.
  - split; [reflexivity | split; [exact Hw | exact Ht]].
Defined.

(** ** The spawn director *)

Lemma countActive_le es : (countActive es <= length es)%nat.
Proof. apply List.filter_length_le. Qed.

Lemma countActive_all es :
  Forall (fun e => Enemy.active e = true) es -> countActive es = length es.
Proof.
  unfold countActive. induction 1 as [| e es He _ IH]; simpl; [reflexivity |].
  rewrite He. simpl. congruence.
Qed.

(** C4, as the code has it.  With [w] the wave after the wave check of
    the same call, [updateWave] spawns one enemy, at the drawn edge
    position, and zeroes the spawn timer exactly when the spawn timer has
    reached [spawnRate w] and the length of the enemy array is below
    [2 * maxEnemies w]; otherwise the array is left alone and the timer
    keeps its time.  The array still holds the enemies that this tick's
    collisions deactivated, so its length is the active count only when
    every enemy in it is active. *)
Theorem updateWave_spawn_condition (r1 r2 dt : Q) (g : VampireGame.t) :
  let w := if Qle_bool WAVE_DURATION (VampireGame.waveTimer g + dt)
           then (VampireGame.wave g + 1)%Z else VampireGame.wave g in
  let st := VampireGame.spawnTimer g + dt in
  let es := VampireGame.enemies g in
  let g' := VampireGame.updateWave r1 r2 dt g in
  (inject_Z (VampireGame.spawnRate w) <= st /\
   (Z.of_nat (length es) < 2 * VampireGame.maxEnemies w)%Z ->
   VampireGame.enemies g' =
     es ++ [Enemy.new (VampireGame.spawnPosition r1 r2).1
                      (VampireGame.spawnPosition r1 r2).2] /\
   VampireGame.spawnTimer g' = 0) /\
  (~ (inject_Z (VampireGame.spawnRate w) <= st /\
      (Z.of_nat (length es) < 2 * VampireGame.maxEnemies w)%Z) ->
   VampireGame.enemies g' = es /\ VampireGame.spawnTimer g' = st) /\
  VampireGame.maxEnemies w = (3 + (w - 1) * 2)%Z /\
  (countActive es <= length es)%nat /\
  (Forall (fun e => Enemy.active e = true) es -> countActive es = length es).
Proof.
  intros w st es g'.
  assert (VampireGame.spawnDue st w es = true <->
          inject_Z (VampireGame.spawnRate w) <= st /\
          (Z.of_nat (length es) < 2 * VampireGame.maxEnemies w)%Z) as Hdue.
  { unfold VampireGame.spawnDue. rewrite andb_true_iff, Qle_bool_iff, Z.ltb_lt. intuition lia. }
  assert (g' = VampireGame.updateWave r1 r2 dt g) as Hg' by reflexivity.
  unfold VampireGame.updateWave in Hg'. fold st in Hg'.
  assert (forall g1,
            VampireGame.spawnTimer g1 = st -> VampireGame.wave g1 = w ->
            VampireGame.enemies g1 = es ->
            g' = (if VampireGame.spawnDue st w es
                  then let g2 := VampireGame.spawnEnemy r1 r2 g1 in
                       VampireGame.setWaveClock (VampireGame.wave g2)
                         (VampireGame.waveTimer g2) 0
                         (VampireGame.enemiesSpawnedThisWave g2) g2
                  else g1) ->
            (VampireGame.spawnDue st w es = true ->
             VampireGame.enemies g' =
               es ++ [Enemy.new (VampireGame.spawnPosition r1 r2).1
                                (VampireGame.spawnPosition r1 r2).2] /\
             VampireGame.spawnTimer g' = 0) /\
            (VampireGame.spawnDue st w es = false ->
             VampireGame.enemies g' = es /\ VampireGame.spawnTimer g' = st)) as Hcases.
  { intros g1 Hst Hw Hes ->. destruct (VampireGame.spawnDue st w es); simpl;
      split; intros Hq; try discriminate Hq; rewrite ?Hes; auto. }
  assert ((VampireGame.spawnDue st w es = true ->
           VampireGame.enemies g' =
             es ++ [Enemy.new (VampireGame.spawnPosition r1 r2).1
                              (VampireGame.spawnPosition r1 r2).2] /\
           VampireGame.spawnTimer g' = 0) /\
          (VampireGame.spawnDue st w es = false ->
           VampireGame.enemies g' = es /\ VampireGame.spawnTimer g' = st)) as [Hyes Hno].
  { subst w. destruct (Qle_bool WAVE_DURATION (VampireGame.waveTimer g + dt));
      eapply Hcases; try exact Hg'; reflexivity. }
  split; [intros Hc; apply Hyes, Hdue, Hc |].
  split.
  { intros Hc. apply Hno. destruct (VampireGame.spawnDue st w es); [| reflexivity].
    exfalso. apply Hc, Hdue. reflexivity. }
  split; [reflexivity |].
  split; [apply countActive_le | apply countActive_all].
Qed.

(** C4 as stated fails when the active count and the array length differ.
    In [crowded] the collision phase kills the first enemy, which stays in
    the array until the cleanup step: five enemies are active, fewer than
    2 * 3 = 6, and after a tick of 16 ms the spawn timer, at 2006 ms, has
    reached the 2000 ms of wave 1; yet the array holds six enemies and
    [updateWave] spawns nothing. *)
Lemma updateWave_counts_dead_enemies :
  exists g1,
    VampireGame.checkCollisions (host := approxHost) crowded = Some g1 /\
    countActive (VampireGame.enemies g1) = 5%nat /\
    length (VampireGame.enemies g1) = 6%nat /\
    inject_Z (VampireGame.spawnRate (VampireGame.wave g1))
      <= VampireGame.spawnTimer g1 + 16 /\
    (Z.of_nat (countActive (VampireGame.enemies g1))
      < 2 * VampireGame.maxEnemies (VampireGame.wave g1))%Z /\
    VampireGame.enemies (VampireGame.updateWave 0 0.5 16 g1) = VampireGame.enemies g1 /\
    VampireGame.spawnTimer (VampireGame.updateWave 0 0.5 16 g1) == 2006.
Proof.
  eexists. split; [vm_compute; reflexivity |].
  split; [reflexivity | split; [reflexivity |]].
  split; [vm_compute; discriminate |].
  split; [reflexivity |].
  split; [reflexivity | vm_compute; reflexivity].
Qed.

(** [updateWave_spawn_condition] twice, at a spawn timer of 1990 ms and a
    tick of 16 ms in wave 1: with two enemies in the array a third is
    spawned on the right edge and the timer is zeroed; with the six of
    [crowded] nothing is spawned. *)
Lemma updateWave_spawn_condition_witness :
  let few := VampireGame.setWaveClock 1 5000 1990 2
               (playingWith (Player.new 15 7) [Enemy.new 5 2; Enemy.new 25 2] [] []) in
  (VampireGame.enemies (VampireGame.updateWave 0.3 0.5 16 few) =
     [Enemy.new 5 2; Enemy.new 25 2] ++
     [Enemy.new (VampireGame.spawnPosition 0.3 0.5).1 (VampireGame.spawnPosition 0.3 0.5).2] /\
   VampireGame.spawnTimer (VampireGame.updateWave 0.3 0.5 16 few) = 0) /\
  (VampireGame.enemies (VampireGame.updateWave 0.3 0.5 16 crowded) =
     VampireGame.enemies crowded /\
   VampireGame.spawnTimer (VampireGame.updateWave 0.3 0.5 16 crowded) = 1990 + 16).
Proof.
  intros few.
  destruct (updateWave_spawn_condition 0.3 0.5 16 few) as (Hyes & _).
  destruct (updateWave_spawn_condition 0.3 0.5 16 crowded) as (_ & Hno & _).
  split.
  - apply Hyes. split; [vm_compute; discriminate | vm_compute; reflexivity].
  - apply Hno. intros [_ Hlt]. vm_compute in Hlt. discriminate Hlt.
Defined.

(** ** Projectile hits *)

Lemma Enemy_takeDamage_spec e :
  let e' := (Enemy.takeDamage e).1 in
  let died := (Enemy.takeDamage e).2 in
  Enemy.hp e' = (Enemy.hp e - 1)%Z /\
  Enemy.x e' = Enemy.x e /\ Enemy.y e' = Enemy.y e /\
  died = (Enemy.hp e - 1 <=? 0)%Z /\
  Enemy.active e' = (if died then false else Enemy.active e).
Proof.
  unfold Enemy.takeDamage. destruct (Enemy.hp e - 1 <=? 0)%Z; simpl; auto.
Qed.



(** Whenever some referenced enemy is active and near, one of them is
    the first. *)
Lemma firstHit_exists proj es erefs :
  (exists k e, k ∈ erefs /\ es !! k = Some e /\ Enemy.active e = true /\
               VampireGame.near 0.8 (Projectile.x proj) (Projectile.y proj)
                                (Enemy.x e) (Enemy.y e) = true) ->
  exists j e, firstHit proj es erefs j e.
Proof.
  induction erefs as [| k erefs IH]; intros (k0 & e0 & Hk0 & He0 & Ha0 & Hn0).
  - inversion Hk0.
  - destruct (es !! k) as [ek |] eqn:Hk.
    + destruct (Enemy.active ek &&
                VampireGame.near 0.8 (Projectile.x proj) (Projectile.y proj)
                                 (Enemy.x ek) (Enemy.y ek)) eqn:Hhit.
      * apply andb_true_iff in Hhit as [Ha Hn].
        exists k, ek, [], erefs. repeat split; auto. intros k' e' Hk'. inversion Hk'.
      * destruct IH as (j & e & pre & post & -> & Hj & Ha & Hn & Hpre).
        { exists k0, e0. apply elem_of_cons in Hk0 as [-> | Hk0]; [| auto].
          rewrite Hk in He0. injection He0 as ->. rewrite Ha0, Hn0 in Hhit. discriminate. }
        exists j, e, (k :: pre), post. repeat split; auto.
        intros k' e' Hk' He' Ha'. apply elem_of_cons in Hk' as [-> | Hk']; [| eauto].
        rewrite Hk in He'. injection He' as ->. rewrite Ha' in Hhit. exact Hhit.
    + destruct IH as (j & e & pre & post & -> & Hj & Ha & Hn & Hpre).
      { exists k0, e0. apply elem_of_cons in Hk0 as [-> | Hk0]; [congruence | auto]. }
      exists j, e, (k :: pre), post. repeat split; auto.
      intros k' e' Hk' He' Ha'. apply elem_of_cons in Hk' as [-> | Hk']; [congruence | eauto].
Qed.








(** ** Lifecycle *)

Lemma State_eqb_eq a b : State_eqb a b = true <-> a = b.
Proof. destruct a, b; simpl; split; intros Hq; congruence. Qed.

Lemma State_eqb_neq a b : State_eqb a b = false <-> a <> b.
Proof. destruct a, b; simpl; split; intros Hq; congruence. Qed.

Section Lifecycle.
Context `{host : MathHost}.

(** C9.  [pause] on a playing game sets the state to [paused], drops the
    frame handle and cancels the pending request, so no tick is
    scheduled, and a frame callback arriving all the same does nothing.
    The player, the three entity arrays, wave, score, both timers and the
    per-wave spawn count are the values they were (as are the keys, the
    time base and the previous frame). *)
Theorem pause_preserves (w : World) (g : VampireGame.t) :
  VampireGame.state g = playing ->
  let w' := (VampireGame.pause (w, g)).1 in
  let g' := (VampireGame.pause (w, g)).2 in
  (VampireGame.state g' = paused /\
   VampireGame.animationId g' = None /\
   frameRequests w' =
     match VampireGame.animationId g with
     | Some id => frameRequests w ∖ {[ id ]}
     | None => frameRequests w
     end /\
   forall inp, VampireGame.gameLoop inp (w', g') = Some (w', g', [])) /\
  VampireGame.player g' = VampireGame.player g /\
  VampireGame.enemies g' = VampireGame.enemies g /\
  VampireGame.projectiles g' = VampireGame.projectiles g /\
  VampireGame.xpGems g' = VampireGame.xpGems g /\
  VampireGame.wave g' = VampireGame.wave g /\
  VampireGame.score g' = VampireGame.score g /\
  VampireGame.waveTimer g' = VampireGame.waveTimer g /\
  VampireGame.spawnTimer g' = VampireGame.spawnTimer g /\
  VampireGame.enemiesSpawnedThisWave g' = VampireGame.enemiesSpawnedThisWave g /\
  VampireGame.keys g' = VampireGame.keys g /\
  VampireGame.lastTimestamp g' = VampireGame.lastTimestamp g /\
  VampireGame.prevGrid g' = VampireGame.prevGrid g.
Proof.
  intros Hplay. unfold VampireGame.pause. rewrite Hplay. simpl.
  split; [| repeat split; reflexivity].
  split; [reflexivity | split; [reflexivity | split]].
  - destruct (VampireGame.animationId g); reflexivity.
  - intros inp. reflexivity.
Qed.

(** C10.  [start] on a playing game, [pause] on a game that is not
    playing and [resume] on a game that is not paused return at once:
    game and page are what they were. *)
Theorem lifecycle_guards (now : Q) (id : positive) (w : World) (g : VampireGame.t) :
  (VampireGame.state g = playing -> VampireGame.start now id (w, g) = (w, g)) /\
  (VampireGame.state g <> playing -> VampireGame.pause (w, g) = (w, g)) /\
  (VampireGame.state g <> paused -> VampireGame.resume now id (w, g) = (w, g)).
Proof.
  split; [| split].
  - intros Hs. unfold VampireGame.start. rewrite Hs. reflexivity.
  - intros Hs. unfold VampireGame.pause.
    apply State_eqb_neq in Hs. rewrite Hs. reflexivity.
  - intros Hs. unfold VampireGame.resume.
    apply State_eqb_neq in Hs. rewrite Hs. reflexivity.
Qed.

End Lifecycle.

(** [pause_preserves] on the crowded game, with frame request 7 pending:
    afterwards nothing is pending and the entities are in place. *)
Lemma pause_preserves_witness :
  let g := VampireGame.setAnimationId (Some 7%positive) crowded in
  let w' := (VampireGame.pause (pageWith 7, g)).1 in
  let g' := (VampireGame.pause (pageWith 7, g)).2 in
  VampireGame.state g = playing /\
  VampireGame.state g' = paused /\
  frameRequests w' = frameRequests (pageWith 7) ∖ {[ 7%positive ]} /\
  VampireGame.enemies g' = VampireGame.enemies crowded /\
  VampireGame.spawnTimer g' = 1990.
Proof.
  intros g w' g'.
  destruct (pause_preserves (host := approxHost) (pageWith 7) g eq_refl)
    as ((Hs & _ & Hreq & _) & _ & He & _ & _ & _ & _ & _ & Hst & _).
  split; [reflexivity |].
  split; [exact Hs |]. split; [exact Hreq |]. split; [exact He | exact Hst].
Defined.

(** [lifecycle_guards] on a playing game, a paused game and an idle one. *)
Lemma lifecycle_guards_witness :
  let wg := (pageWith 7, VampireGame.setAnimationId (Some 7%positive) crowded) in
  let wp := VampireGame.pause wg in
  let wi := (pageWith 7, VampireGame.new) in
  VampireGame.start 100 8 wg = wg /\
  VampireGame.pause wp = wp /\
  VampireGame.pause wi = wi /\
  VampireGame.resume 100 8 wg = wg /\
  VampireGame.resume 100 8 wi = wi.
Proof.
  intros wg wp wi.
  destruct (lifecycle_guards 100 8 (pageWith 7)
              (VampireGame.setAnimationId (Some 7%positive) crowded))
    as (Hstart & _ & Hresume).
  destruct (lifecycle_guards 100 8 wp.1 wp.2) as (_ & Hpause & _).
  destruct (lifecycle_guards 100 8 (pageWith 7) VampireGame.new)
    as (_ & Hpause' & Hresume').
  split; [apply Hstart; reflexivity |].
  split; [apply Hpause; discriminate |].
  split; [apply Hpause'; discriminate |].
  split; [apply Hresume; discriminate | apply Hresume'; discriminate].
Defined.

(** ** Render diffing *)

Lemma gridShape_cellAt grid y x :
  gridShape grid -> (y < VampireGame.rows)%nat -> (x < VampireGame.cols)%nat ->
  exists row c, grid !! y = Some row /\ row !! x = Some c /\ cellAt grid y x = Some c.
Proof.
  intros [Hlen Hrows] Hy Hx.
  destruct (lookup_lt_is_Some_2 grid y) as [row Hrow]; [lia |].
  pose proof (proj1 (Forall_lookup _ _) Hrows y row Hrow) as Hlr. simpl in Hlr.
  destruct (lookup_lt_is_Some_2 row x) as [c Hc]; [lia |].
  exists row, c. unfold cellAt. rewrite Hrow. simpl. auto.
Qed.

Lemma grid_ext g1 g2 :
  gridShape g1 -> gridShape g2 ->
  (forall y x, (y < VampireGame.rows)%nat -> (x < VampireGame.cols)%nat ->
               cellAt g1 y x = cellAt g2 y x) ->
  g1 = g2.
Proof.
  intros [Hl1 Hr1] [Hl2 Hr2] Hcells. apply list_eq. intros y.
  destruct (decide (y < VampireGame.rows)%nat) as [Hy | Hy].
  - destruct (lookup_lt_is_Some_2 g1 y) as [r1 E1]; [lia |].
    destruct (lookup_lt_is_Some_2 g2 y) as [r2 E2]; [lia |].
    rewrite E1, E2. f_equal. apply list_eq. intros x.
    pose proof (proj1 (Forall_lookup _ _) Hr1 y r1 E1) as Hc1.
    pose proof (proj1 (Forall_lookup _ _) Hr2 y r2 E2) as Hc2. simpl in Hc1, Hc2.
    destruct (decide (x < VampireGame.cols)%nat) as [Hx | Hx].
    + specialize (Hcells y x Hy Hx). unfold cellAt in Hcells.
      rewrite E1, E2 in Hcells. exact Hcells.
    + rewrite !lookup_ge_None_2 by lia. reflexivity.
  - rewrite !lookup_ge_None_2 by lia. reflexivity.
Qed.

Lemma blankGrid_shape : gridShape VampireGame.blankGrid.
Proof.
  unfold gridShape, VampireGame.blankGrid. rewrite length_replicate.
  split; [reflexivity |]. apply Forall_replicate. apply length_replicate.
Qed.

Lemma paint_shape pos c grid : gridShape grid -> gridShape (VampireGame.paint pos c grid).
Proof.
  intros [Hlen Hrows]. unfold VampireGame.paint. destruct (VampireGame.inGrid pos); [| split; assumption].
  split.
  - rewrite length_alter. exact Hlen.
  - apply Forall_alter; [exact Hrows |]. intros row _ Hrow. rewrite length_insert. exact Hrow.
Qed.

Lemma paintAll_shape {A : Type} (f : list (list Cell) -> A -> list (list Cell)) (l : list A) :
  (forall grid a, gridShape grid -> gridShape (f grid a)) ->
  forall grid, gridShape grid -> gridShape (foldl f grid l).
Proof.
  intros Hf. induction l as [| a l IH]; intros grid Hg; simpl; [exact Hg |].
  apply IH, Hf, Hg.
Qed.

Lemma buildFrame_shape now p es ps gems :
  gridShape (VampireGame.buildFrame now p es ps gems).
Proof.
  unfold VampireGame.buildFrame.
  match goal with
  | |- gridShape (if _ then VampireGame.paint _ _ ?grid else ?grid) =>
      assert (gridShape grid) as Hg
  end.
  { repeat (apply paintAll_shape; [intros; apply paint_shape; assumption |]).
    apply blankGrid_shape. }
  destruct (_ && _); [apply paint_shape |]; exact Hg.
Qed.

Lemma cellDiffers_false cur old :
  VampireGame.cellDiffers cur old = false -> cur = old.
Proof.
  unfold VampireGame.cellDiffers. rewrite orb_false_iff, !negb_false_iff, !String.eqb_eq.
  destruct cur, old. simpl. intros [-> ->]. reflexivity.
Qed.

Lemma cellDiffers_same c : VampireGame.cellDiffers c c = false.
Proof. unfold VampireGame.cellDiffers. rewrite !String.eqb_refl. reflexivity. Qed.

Lemma cellAt_insert prev y x prow c y' x' :
  prev !! y = Some prow -> (x < length prow)%nat ->
  cellAt (<[y := <[x := c]> prow]> prev) y' x' =
    if decide ((y', x') = (y, x)) then Some c else cellAt prev y' x'.
Proof.
  intros Hrow Hx. unfold cellAt.
  pose proof (lookup_lt_Some _ _ _ Hrow) as Hy.
  destruct (decide (y' = y)) as [-> | Hne].
  - rewrite list_lookup_insert_eq by exact Hy. rewrite Hrow. simpl.
    destruct (decide (x' = x)) as [-> | Hnx].
    + rewrite list_lookup_insert_eq by exact Hx.
      rewrite decide_True by reflexivity. reflexivity.
    + rewrite list_lookup_insert_ne by congruence.
      rewrite decide_False by congruence. reflexivity.
  - rewrite list_lookup_insert_ne by congruence.
    rewrite decide_False by congruence. reflexivity.
Qed.

Lemma insert_shape prev y x prow c :
  gridShape prev -> prev !! y = Some prow ->
  gridShape (<[y := <[x := c]> prow]> prev).
Proof.
  intros [Hlen Hrows] Hrow. split.
  - rewrite length_insert. exact Hlen.
  - apply Forall_insert; [exact Hrows |]. rewrite length_insert.
    exact (proj1 (Forall_lookup _ _) Hrows y prow Hrow).
Qed.

Lemma changed_cons grid prev yx cells :
  changed grid prev (yx :: cells) =
    match changedAt grid prev yx with
    | Some wr => wr :: changed grid prev cells
    | None => changed grid prev cells
    end.
Proof. reflexivity. Qed.

Lemma changed_ext grid p1 p2 cells :
  (forall y x, (y, x) ∈ cells -> cellAt p1 y x = cellAt p2 y x) ->
  changed grid p1 cells = changed grid p2 cells.
Proof.
  induction cells as [| [y x] cells IH]; intros Hsame; [reflexivity |].
  rewrite !changed_cons.
  assert (changedAt grid p1 (y, x) = changedAt grid p2 (y, x)) as ->.
  { unfold changedAt. simpl. rewrite (Hsame y x) by apply list_elem_of_here. reflexivity. }
  rewrite IH; [reflexivity |].
  intros y' x' Hin. apply Hsame. apply elem_of_cons. right. exact Hin.
Qed.

(** The selective update over any list of distinct cells of the grid:
    it writes the cells that differ, and leaves the previous frame equal
    to the current one on the cells it visited. *)
Lemma diffCells_spec grid cells : forall prev,
  NoDup cells -> gridShape grid -> gridShape prev ->
  (forall y x, (y, x) ∈ cells ->
               (y < VampireGame.rows)%nat /\ (x < VampireGame.cols)%nat) ->
  exists prev',
    VampireGame.diffCells cells grid prev = Some (prev', changed grid prev cells) /\
    gridShape prev' /\
    (forall y x, (y, x) ∈ cells -> cellAt prev' y x = cellAt grid y x) /\
    (forall y x, (y, x) ∉ cells -> cellAt prev' y x = cellAt prev y x).
Proof.
  induction cells as [| [y x] cells IH]; intros prev Hnd Hg Hp Hin.
  - exists prev. simpl. split; [reflexivity | split; [exact Hp | split]].
    + intros y x Hyx. inversion Hyx.
    + reflexivity.
  - apply NoDup_cons in Hnd as [Hfresh Hnd].
    destruct (Hin y x) as [Hy Hx]; [apply list_elem_of_here |].
    destruct (gridShape_cellAt grid y x Hg Hy Hx) as (row & cur & Hrow & Hcur & Hgc).
    destruct (gridShape_cellAt prev y x Hp Hy Hx) as (prow & old & Hprow & Hold & Hpc).
    assert (forall y' x', (y', x') ∈ cells ->
              (y' < VampireGame.rows)%nat /\ (x' < VampireGame.cols)%nat) as Hin'.
    { intros y' x' Hyx. apply Hin. apply elem_of_cons. right. exact Hyx. }
    rewrite changed_cons. unfold changedAt at 1. simpl.
    rewrite Hrow. simpl. rewrite Hcur. simpl. rewrite Hprow. simpl. rewrite Hold. simpl.
    rewrite Hgc, Hpc. simpl.
    destruct (VampireGame.cellDiffers cur old) eqn:Hdiff.
    + assert ({| cellChar := cellChar cur; cellClass := cellClass cur |} = cur) as ->
        by (destruct cur; reflexivity).
      pose proof (lookup_lt_Some _ _ _ Hold) as Hxlen.
      destruct (IH (<[y := <[x := cur]> prow]> prev) Hnd Hg
                  (insert_shape prev y x prow cur Hp Hprow) Hin')
        as (prev' & Hrun & Hshape & Hvisited & Hrest).
      exists prev'. rewrite Hrun. simpl.
      rewrite (changed_ext grid (<[y := <[x := cur]> prow]> prev) prev cells).
      2:{ intros y' x' Hyx. rewrite (cellAt_insert prev y x prow cur y' x' Hprow Hxlen).
          rewrite decide_False; [reflexivity |]. intros Heq. apply Hfresh.
          rewrite <- Heq. exact Hyx. }
      split; [reflexivity | split; [exact Hshape | split]].
      * intros y' x' Hyx. destruct (decide ((y', x') ∈ cells)) as [Hc | Hc]; [apply Hvisited, Hc |].
        apply elem_of_cons in Hyx as [Heq | Hyx]; [| contradiction].
        rewrite Hrest by exact Hc.
        rewrite (cellAt_insert prev y x prow cur y' x' Hprow Hxlen).
        rewrite decide_True by exact Heq. injection Heq as -> ->. symmetry. exact Hgc.
      * intros y' x' Hyx. apply not_elem_of_cons in Hyx as [Hne Hc].
        rewrite Hrest by exact Hc.
        rewrite (cellAt_insert prev y x prow cur y' x' Hprow Hxlen).
        rewrite decide_False by exact Hne. reflexivity.
    + apply cellDiffers_false in Hdiff. subst old.
      destruct (IH prev Hnd Hg Hp Hin') as (prev' & Hrun & Hshape & Hvisited & Hrest).
      exists prev'. split; [exact Hrun | split; [exact Hshape | split]].
      * intros y' x' Hyx. destruct (decide ((y', x') ∈ cells)) as [Hc | Hc]; [apply Hvisited, Hc |].
        apply elem_of_cons in Hyx as [Heq | Hyx]; [| contradiction].
        rewrite Hrest by exact Hc. injection Heq as -> ->. congruence.
      * intros y' x' Hyx. apply not_elem_of_cons in Hyx as [Hne Hc]. apply Hrest, Hc.
Qed.

Lemma scanOrder_elem y x :
  (y, x) ∈ VampireGame.scanOrder <->
  (y < VampireGame.rows)%nat /\ (x < VampireGame.cols)%nat.
Proof.
  unfold VampireGame.scanOrder. rewrite list_elem_of_bind. split.
  - intros (y0 & (x0 & Hyx & Hx0)%list_elem_of_bind & Hy0).
    apply list_elem_of_singleton in Hyx. injection Hyx as -> ->.
    apply elem_of_seq in Hx0, Hy0. lia.
  - intros [Hy Hx]. exists y. split; [| apply elem_of_seq; lia].
    apply list_elem_of_bind. exists x. split; [apply list_elem_of_singleton; reflexivity |].
    apply elem_of_seq. lia.
Qed.

Lemma scanOrder_NoDup : NoDup VampireGame.scanOrder.
Proof.
  unfold VampireGame.scanOrder. apply NoDup_bind; [| | apply NoDup_seq].
  - intros y1 y2 yx _ _ (x1 & Hyx1 & _)%list_elem_of_bind (x2 & Hyx2 & _)%list_elem_of_bind.
    apply list_elem_of_singleton in Hyx1, Hyx2. congruence.
  - intros y _. apply NoDup_bind; [| | apply NoDup_seq].
    + intros x1 x2 yx _ _ Hyx1 Hyx2.
      apply list_elem_of_singleton in Hyx1, Hyx2. congruence.
    + intros x _. apply NoDup_singleton.
Qed.

(** The whole scan: the previous frame becomes the current frame, and
    the writes are those of the cells that differed. *)
Lemma diffCells_scan grid prev :
  gridShape grid -> gridShape prev ->
  VampireGame.diffCells VampireGame.scanOrder grid prev =
    Some (grid, changed grid prev VampireGame.scanOrder).
Proof.
  intros Hg Hp.
  destruct (diffCells_spec grid VampireGame.scanOrder prev scanOrder_NoDup Hg Hp)
    as (prev' & Hrun & Hshape & Hvisited & _).
  { intros y x. apply scanOrder_elem. }
  rewrite Hrun. f_equal. f_equal. apply grid_ext; [exact Hshape | exact Hg |].
  intros y x Hy Hx. apply Hvisited, scanOrder_elem. auto.
Qed.

Lemma changed_same grid cells : changed grid grid cells = [].
Proof.
  induction cells as [| [y x] cells IH]; [reflexivity |].
  rewrite changed_cons, IH. unfold changedAt. simpl.
  destruct (cellAt grid y x) as [c |]; simpl; [| reflexivity].
  rewrite cellDiffers_same. reflexivity.
Qed.

Lemma changed_differs grid prev cells wr :
  wr ∈ changed grid prev cells ->
  exists cur old,
    (writeY wr, writeX wr) ∈ cells /\
    cellAt grid (writeY wr) (writeX wr) = Some cur /\
    cellAt prev (writeY wr) (writeX wr) = Some old /\
    VampireGame.cellDiffers cur old = true /\
    wr = writeOf (writeY wr) (writeX wr) cur.
Proof.
  unfold changed. intros ([y x] & Hin & Hat)%list_elem_of_omap.
  unfold changedAt in Hat. simpl in Hat.
  destruct (cellAt grid y x) as [cur |] eqn:Hc; simpl in Hat; [| discriminate].
  destruct (cellAt prev y x) as [old |] eqn:Ho; simpl in Hat; [| discriminate].
  destruct (VampireGame.cellDiffers cur old) eqn:Hd; [| discriminate].
  injection Hat as <-. simpl. exists cur, old. auto.
Qed.

Lemma paintLooks_fmap {A : Type} (look : A -> Z * Z * string) cls (l : list A) :
  forall grid,
    foldl (fun grid a =>
             VampireGame.paint (look a).1
               {| cellChar := (look a).2; cellClass := cls |} grid) grid l =
    paintLooks cls grid (look <$> l).
Proof.
  unfold paintLooks. induction l as [| a l IH]; intros grid; simpl; [reflexivity |].
  apply IH.
Qed.

Lemma buildFrame_looks now p es ps gems :
  VampireGame.buildFrame now p es ps gems =
    let grid :=
      paintLooks "game-enemy"
        (paintLooks "game-projectile"
           (paintLooks "game-xp" VampireGame.blankGrid (gemLook <$> gems))
           (projectileLook <$> ps))
        (enemyLook <$> es) in
    if VampireGame.inGrid (playerLook p).1 && VampireGame.showPlayer now p
    then VampireGame.paint (playerLook p).1
           {| cellChar := (playerLook p).2; cellClass := "game-player" |} grid
    else grid.
Proof.
  rewrite <- (paintLooks_fmap gemLook), <- (paintLooks_fmap projectileLook),
          <- (paintLooks_fmap enemyLook).
  reflexivity.
Qed.

Lemma buildFrame_sameLooks now1 now2 p1 p2 es1 es2 ps1 ps2 gems1 gems2 :
  gemLook <$> gems1 = gemLook <$> gems2 ->
  projectileLook <$> ps1 = projectileLook <$> ps2 ->
  enemyLook <$> es1 = enemyLook <$> es2 ->
  playerLook p1 = playerLook p2 ->
  VampireGame.showPlayer now1 p1 = VampireGame.showPlayer now2 p2 ->
  VampireGame.buildFrame now1 p1 es1 ps1 gems1 =
  VampireGame.buildFrame now2 p2 es2 ps2 gems2.
Proof.
  intros Hg Hp He Hpl Hshow. rewrite !buildFrame_looks.
  rewrite Hg, Hp, He, Hpl, Hshow. reflexivity.
Qed.

Lemma prevGrid_setPrevGrid grid g :
  VampireGame.prevGrid (VampireGame.setPrevGrid grid g) = grid.
Proof. reflexivity. Qed.

Lemma Some_pair_inj {A B : Type} (a a' : A) (b b' : B) :
  Some (a, b) = Some (a', b') -> a = a' /\ b = b'.
Proof. intros Hq. injection Hq. auto. Qed.

Lemma setPrevGrid_same g : VampireGame.setPrevGrid (VampireGame.prevGrid g) g = g.
Proof. destruct g. reflexivity. Qed.

(** C8, as the code has it.  On a game with a player and a previous
    frame of the grid's shape, [render] writes, in scan order, the cells
    of the current frame whose glyph or class differs from the previous
    frame and no other cell, and the current frame is the previous frame
    afterwards.  If between two consecutive renders no entity changes
    grid cell or glyph, and the player is shown in both frames or hidden
    in both (an invincible player blinks with the clock), the second
    render writes nothing. *)
Theorem render_diff :
  (forall now g p,
     VampireGame.player g = Some p ->
     gridShape (VampireGame.prevGrid g) ->
     let frame :=
       VampireGame.buildFrame now p (VampireGame.enemies g)
         (VampireGame.projectiles g) (VampireGame.xpGems g) in
     let writes := changed frame (VampireGame.prevGrid g) VampireGame.scanOrder in
     VampireGame.render now g = Some (VampireGame.setPrevGrid frame g, writes) /\
     gridShape frame /\
     (forall wr, wr ∈ writes ->
        exists cur old,
          cellAt frame (writeY wr) (writeX wr) = Some cur /\
          cellAt (VampireGame.prevGrid g) (writeY wr) (writeX wr) = Some old /\
          VampireGame.cellDiffers cur old = true /\
          wr = writeOf (writeY wr) (writeX wr) cur) /\
     (forall y x cur old,
        cellAt frame y x = Some cur ->
        cellAt (VampireGame.prevGrid g) y x = Some old ->
        VampireGame.cellDiffers cur old = true ->
        writeOf y x cur ∈ writes)) /\
  (forall now1 now2 g1 g1' writes1 g2 p1 p2,
     VampireGame.player g1 = Some p1 ->
     VampireGame.player g2 = Some p2 ->
     gridShape (VampireGame.prevGrid g1) ->
     VampireGame.render now1 g1 = Some (g1', writes1) ->
     VampireGame.prevGrid g2 = VampireGame.prevGrid g1' ->
     sameLooks g1 g2 ->
     VampireGame.showPlayer now1 p1 = VampireGame.showPlayer now2 p2 ->
     VampireGame.render now2 g2 = Some (g2, [])).
Proof.
  assert (forall now g p,
            VampireGame.player g = Some p ->
            gridShape (VampireGame.prevGrid g) ->
            VampireGame.render now g =
              Some (VampireGame.setPrevGrid
                      (VampireGame.buildFrame now p (VampireGame.enemies g)
                         (VampireGame.projectiles g) (VampireGame.xpGems g)) g,
                    changed (VampireGame.buildFrame now p (VampireGame.enemies g)
                               (VampireGame.projectiles g) (VampireGame.xpGems g))
                            (VampireGame.prevGrid g) VampireGame.scanOrder)) as Hrender.
  { intros now g p Hp Hshape. unfold VampireGame.render. rewrite Hp.
    cbv beta iota delta [mbind option_bind].
    rewrite diffCells_scan; [reflexivity | apply buildFrame_shape | exact Hshape]. }
  split.
  - intros now g p Hp Hshape frame writes.
    split; [apply Hrender; assumption |].
    split; [apply buildFrame_shape |].
    split.
    + intros wr Hwr. destruct (changed_differs _ _ _ _ Hwr) as (cur & old & _ & H1 & H2 & H3 & H4).
      exists cur, old. auto.
    + intros y x cur old Hcur Hold Hdiff. unfold writes, changed.
      apply list_elem_of_omap. exists (y, x). split.
      * apply scanOrder_elem. unfold cellAt in Hold. destruct Hshape as [Hlen Hrows].
        destruct (VampireGame.prevGrid g !! y) as [row |] eqn:Hrow; [| discriminate].
        simpl in Hold. apply lookup_lt_Some in Hold.
        pose proof (proj1 (Forall_lookup _ _) Hrows y row Hrow) as Hlr. simpl in Hlr.
        apply lookup_lt_Some in Hrow. lia.
      * unfold changedAt. simpl. rewrite Hcur, Hold. simpl. rewrite Hdiff. reflexivity.
  - intros now1 now2 g1 g1' writes1 g2 p1 p2 Hp1 Hp2 Hshape Hr1 Hprev
           (Hgems & Hprojs & Hens & Hpl) Hshow.
    rewrite (Hrender now1 g1 p1 Hp1 Hshape) in Hr1.
    apply Some_pair_inj in Hr1 as [Hg1' _]. subst g1'.
    rewrite prevGrid_setPrevGrid in Hprev.
    rewrite Hp1, Hp2 in Hpl. injection Hpl as Hpl1 Hpl2 Hpl3.
    assert (VampireGame.buildFrame now2 p2 (VampireGame.enemies g2)
              (VampireGame.projectiles g2) (VampireGame.xpGems g2) =
            VampireGame.prevGrid g2) as Hframe.
    { rewrite Hprev. symmetry. apply buildFrame_sameLooks; try assumption.
      unfold playerLook, getGridPos. congruence. }
    rewrite (Hrender now2 g2 p2 Hp2).
    + rewrite Hframe, changed_same, setPrevGrid_same. reflexivity.
    + rewrite Hprev. apply buildFrame_shape.
Qed.

(** C8 as stated fails while the player blinks.  Two renders of
    [justHit], with the clock at 1000 ms and at 1100 ms and nothing moved
    in between: the first shows the player, the second hides it, and so
    the second writes the player's cell although no entity has changed
    grid cell or glyph. *)
Lemma render_blink_writes :
  exists g1 writes1 g2 writes2,
    VampireGame.render 1000 justHit = Some (g1, writes1) /\
    sameLooks justHit g1 /\
    VampireGame.render 1100 g1 = Some (g2, writes2) /\
    writes1 = [writeOf 0 15 {| cellChar := CHAR_ENEMY; cellClass := "game-enemy" |};
               writeOf 7 15 {| cellChar := CHAR_PLAYER; cellClass := "game-player" |}] /\
    writes2 = [writeOf 7 15 {| cellChar := CHAR_EMPTY; cellClass := "game-empty" |}].
Proof.
  eexists. eexists. eexists. eexists.
  split; [vm_compute; reflexivity |].
  split; [repeat split |].
  split; [vm_compute; reflexivity |].
  split; reflexivity.
Qed.

(** [render_diff] on the same game when the clock is at 1000 ms and then
    at 1016 ms, the player shown both times: the first render writes the
    two occupied cells, the second writes nothing. *)
Lemma render_diff_witness :
  exists g1 writes1,
    VampireGame.render 1000 justHit = Some (g1, writes1) /\
    length writes1 = 2%nat /\
    VampireGame.showPlayer 1000 justHitPlayer =
      VampireGame.showPlayer 1016 justHitPlayer /\
    VampireGame.render 1016 g1 = Some (g1, []).
Proof.
  destruct render_diff as [Hfirst Hsecond].
  assert (gridShape (VampireGame.prevGrid justHit)) as Hshape by apply blankGrid_shape.
  destruct (Hfirst 1000 justHit justHitPlayer eq_refl Hshape) as (Hrun & _).
  eexists. eexists. split; [exact Hrun |].
  split; [vm_compute; reflexivity |].
  split; [reflexivity |].
  refine (Hsecond 1000 1016 justHit _ _
            (VampireGame.setPrevGrid
               (VampireGame.buildFrame 1000 justHitPlayer (VampireGame.enemies justHit)
                  (VampireGame.projectiles justHit) (VampireGame.xpGems justHit))
               justHit)
            justHitPlayer justHitPlayer eq_refl eq_refl Hshape Hrun _ _ _).
  - reflexivity.
  - repeat split.
  - reflexivity.
Defined.

(** * Further properties of the game *)

(** ** Travel, speed and cooldown *)

(** X1.  Linear travel.  Whatever the split into updates, a projectile is
    where its velocity takes it in the total time; its velocity and glyph
    never change, active or not. *)
Theorem projectile_travel (p : Projectile.t) (dts : list Q) :
  Projectile.x (fly p dts) == Projectile.x p + Projectile.vx p * sumQ dts /\
  Projectile.y (fly p dts) == Projectile.y p + Projectile.vy p * sumQ dts /\
  Projectile.vx (fly p dts) = Projectile.vx p /\
  Projectile.vy (fly p dts) = Projectile.vy p /\
  Projectile.char (fly p dts) = Projectile.char p.
Proof.
  revert p. induction dts as [| dt dts IH]; intros p; simpl.
  - repeat split; try reflexivity; lra.
  - destruct (IH (Projectile.update dt p)) as (Hx & Hy & Hvx & Hvy & Hc).
    simpl in *. repeat split; try assumption.
    + rewrite Hx. lra.
    + rewrite Hy. lra.
Qed.

Lemma clamp_inside (hi v : Q) : 0 <= v <= hi -> clamp hi v == v.
Proof.
  intros [H0 Hhi]. unfold clamp.
  destruct (Q.min_spec hi v) as [[H1 H2] | [H1 H2]];
    destruct (Q.max_spec 0 (Qmin hi v)) as [[H3 H4] | [H3 H4]]; lra.
Qed.

Lemma clamp_step (hi x d s : Q) :
  0 <= x <= hi -> Qabs d <= s -> Qabs (clamp hi (x + d) - x) <= s.
Proof.
  intros [H0 Hhi] Hd. apply Qabs_Qle_condition in Hd. apply Qabs_Qle_condition.
  unfold clamp.
  destruct (Q.min_spec hi (x + d)) as [[Hlt Hmin] | [Hle Hmin]];
    destruct (Q.max_spec 0 (Qmin hi (x + d))) as [[Hlt' Hmax] | [Hle' Hmax]]; lra.
Qed.

Section Speed.
Context `{host : MathHost}.

Lemma inputDirection_noInput keys :
  noInput keys ->
  exists dx dy, Player.inputDirection keys = (dx, dy) /\ dx == 0 /\ dy == 0 /\
                Qnonzero dx = false /\ Qnonzero dy = false.
Proof.
  intros [Hv Hh]. unfold Player.inputDirection. rewrite Hv, Hh.
  destruct (Player.pressed keys "KeyS" || Player.pressed keys "ArrowDown");
    destruct (Player.pressed keys "KeyD" || Player.pressed keys "ArrowRight");
    simpl; eexists; eexists; (split; [reflexivity |]);
    repeat split; reflexivity.
Qed.

(** X2.  Without input the player stays put and keeps facing where it faced,
    whatever the elapsed time: opposite keys cancel. *)
Theorem handleInput_idle keys dt p :
  noInput keys ->
  inArena (Player.x p) (Player.y p) ->
  let p' := Player.handleInput keys dt p in
  Player.x p' == Player.x p /\ Player.y p' == Player.y p /\
  Player.lastDirection p' = Player.lastDirection p /\
  vitals p' = vitals p /\ Player.lastAttack p' = Player.lastAttack p.
Proof.
  intros Hno [Hx Hy].
  destruct (inputDirection_noInput keys Hno) as (dx & dy & Hdir & Hdx & Hdy & Hnx & Hny).
  unfold Player.handleInput. rewrite Hdir. simpl. rewrite Hnx, Hny. simpl.
  repeat split; try reflexivity.
  - rewrite clamp_inside; [rewrite Hdx; lra |]. rewrite Hdx. lra.
  - rewrite clamp_inside; [rewrite Hdy; lra |]. rewrite Hdy. lra.
Qed.

(** The components of the input direction are at most 1 in size, when
    the host's square root of 2 is at least 1. *)
Lemma inputDirection_unit keys :
  (forall a, a == 2 -> 1 <= Math_sqrt a) ->
  Qabs (Player.inputDirection keys).1 <= 1 /\
  Qabs (Player.inputDirection keys).2 <= 1.
Proof.
  intros Hsqrt. unfold Player.inputDirection.
  assert (forall a len, Qabs a <= 1 -> 1 <= len -> Qabs (a / len) <= 1) as Hdiv.
  { intros a len Ha Hlen. unfold Qdiv. rewrite Qabs_Qmult.
    assert (0 < / len) as Hpos by (apply Qinv_lt_0_compat; lra).
    assert (/ len <= 1) as Hle.
    { apply Qle_shift_inv_r; lra. }
    rewrite (Qabs_pos (/ len)) by lra.
    pose proof (Qabs_nonneg a). nra. }
  destruct (Player.pressed keys "KeyW" || Player.pressed keys "ArrowUp");
    destruct (Player.pressed keys "KeyS" || Player.pressed keys "ArrowDown");
    destruct (Player.pressed keys "KeyA" || Player.pressed keys "ArrowLeft");
    destruct (Player.pressed keys "KeyD" || Player.pressed keys "ArrowRight");
    cbv beta iota zeta;
    repeat first [ change (Qnonzero (0 - 1 + 1)) with false
                 | change (Qnonzero (0 - 1)) with true
                 | change (Qnonzero (0 + 1)) with true
                 | change (Qnonzero 0) with false ];
    cbn [andb fst snd]; split;
    try (vm_compute; discriminate);
    (apply Hdiv; [vm_compute; discriminate | apply Hsqrt; vm_compute; reflexivity]).
Qed.

(** X3.  The speed limit of the player: in a tick of [dt >= 0] it moves at
    most [PLAYER_SPEED * dt] along either axis, whatever the keys. *)
Theorem handleInput_speed_limit keys dt p :
  (forall a, a == 2 -> 1 <= Math_sqrt a) ->
  0 <= dt ->
  inArena (Player.x p) (Player.y p) ->
  let p' := Player.handleInput keys dt p in
  Qabs (Player.x p' - Player.x p) <= PLAYER_SPEED * dt /\
  Qabs (Player.y p' - Player.y p) <= PLAYER_SPEED * dt.
Proof.
  intros Hsqrt Hdt [Hx Hy].
  destruct (inputDirection_unit keys Hsqrt) as [Hdx Hdy].
  unfold Player.handleInput. destruct (Player.inputDirection keys) as [dx dy].
  simpl in *.
  assert (forall d, Qabs d <= 1 -> Qabs (d * PLAYER_SPEED * dt) <= PLAYER_SPEED * dt) as Hstep.
  { intros d Hd. apply Qabs_Qle_condition in Hd. apply Qabs_Qle_condition.
    unfold PLAYER_SPEED in *. split; nra. }
  split; apply clamp_step; auto.
Qed.

(** X4.  The speed limit of an enemy: where the host's distance is at least
    the size of each coordinate difference, a tick of [dt >= 0] moves the
    enemy at most [ENEMY_SPEED * dt] along either axis; within half a
    unit of the player it holds its position; hit points, activity and
    glyph are never touched. *)
Theorem Enemy_update_speed_limit dt p e :
  let dx := Player.x p - Enemy.x e in
  let dy := Player.y p - Enemy.y e in
  let dist := Math_sqrt (dx * dx + dy * dy) in
  let e' := Enemy.update dt p e in
  0 <= dt ->
  inArena (Enemy.x e) (Enemy.y e) ->
  (0.5 < dist -> Qabs dx <= dist /\ Qabs dy <= dist) ->
  Qabs (Enemy.x e' - Enemy.x e) <= ENEMY_SPEED * dt /\
  Qabs (Enemy.y e' - Enemy.y e) <= ENEMY_SPEED * dt /\
  (dist <= 0.5 -> Enemy.x e' == Enemy.x e /\ Enemy.y e' == Enemy.y e) /\
  Enemy.hp e' = Enemy.hp e /\ Enemy.active e' = Enemy.active e /\
  Enemy.char e' = Enemy.char e.
Proof.
  intros dx dy dist e' Hdt [Hx Hy] Hdist.
  unfold e', Enemy.update. fold dx dy dist.
  cbn [Enemy.x Enemy.y Enemy.hp Enemy.active Enemy.char].
  destruct (Qltb 0.5 dist) eqn:Hfar.
  - apply Qltb_lt in Hfar. destruct (Hdist Hfar) as [Hdx Hdy].
    assert (forall d, Qabs d <= dist ->
              Qabs (d / dist * ENEMY_SPEED * dt) <= ENEMY_SPEED * dt) as Hstep.
    { intros d Hd.
      assert (Qabs (d / dist) <= 1) as Hunit.
      { unfold Qdiv. rewrite Qabs_Qmult.
        assert (0 < / dist) as Hpos by (apply Qinv_lt_0_compat; lra).
        rewrite (Qabs_pos (/ dist)) by lra.
        apply Qle_shift_div_r; [lra |]. lra. }
      apply Qabs_Qle_condition in Hunit. apply Qabs_Qle_condition.
      unfold ENEMY_SPEED. split; nra. }
    split; [apply clamp_step; auto |].
    split; [apply clamp_step; auto |].
    split; [intros Hnear; lra |]. auto.
  - apply Qltb_ge in Hfar.
    pose proof (clamp_inside (inject_Z CANVAS_WIDTH - 1) (Enemy.x e) Hx) as Hcx.
    pose proof (clamp_inside (inject_Z CANVAS_HEIGHT - 1) (Enemy.y e) Hy) as Hcy.
    assert (0 <= ENEMY_SPEED * dt) as Hnn by (unfold ENEMY_SPEED; lra).
    split; [apply Qabs_Qle_condition; lra |].
    split; [apply Qabs_Qle_condition; lra |].
    split; [intros _; split; assumption |]. auto.
Qed.

End Speed.

Lemma approxSqrt_two (a : Q) : a == 2 -> 1 <= approxSqrt a.
Proof.
  intros Ha. unfold approxSqrt.
  assert (Qle_bool a 0 = false) as -> by (apply Qle_bool_gt; lra).
  assert (Qfloor (a * 1000000000000) = 2000000000000%Z) as ->.
  { rewrite (Qfloor_comp (a * 1000000000000) (2 * 1000000000000)) by (rewrite Ha; reflexivity).
    reflexivity. }
  vm_compute. discriminate.
Qed.

(** [handleInput_idle] with up and down both held, for a tick of 16 ms. *)
Lemma handleInput_idle_witness :
  let keys : gmap string bool := <["KeyW" := true]> (<["ArrowDown" := true]> ∅) in
  let p' := Player.handleInput (host := approxHost) keys 16 (Player.new 15 7) in
  noInput keys /\
  Player.x p' == 15 /\ Player.y p' == 7 /\ Player.lastDirection p' = (1, 0).
Proof.
  intros keys p'.
  assert (noInput keys) as Hno by (split; vm_compute; reflexivity).
  destruct (handleInput_idle (host := approxHost) keys 16 (Player.new 15 7) Hno)
    as (Hx & Hy & Hd & _).
  { split; split; vm_compute; discriminate. }
  split; [exact Hno |]. split; [exact Hx | split; [exact Hy | exact Hd]].
Defined.

(** [handleInput_speed_limit] on a diagonal input, right and down, for a
    tick of 16 ms: at most 0.128 along each axis. *)
Lemma handleInput_speed_limit_witness :
  let keys : gmap string bool := <["ArrowRight" := true]> (<["ArrowDown" := true]> ∅) in
  let p' := Player.handleInput (host := approxHost) keys 16 (Player.new 15 7) in
  Qabs (Player.x p' - 15) <= 0.128 /\ Qabs (Player.y p' - 7) <= 0.128 /\
  15 < Player.x p' /\ 7 < Player.y p'.
Proof.
  intros keys p'.
  destruct (handleInput_speed_limit (host := approxHost) keys 16 (Player.new 15 7))
    as (Hx & Hy).
  - exact approxSqrt_two.
  - vm_compute. discriminate.
  - split; split; vm_compute; discriminate.
  - split; [exact Hx | split; [exact Hy |]]. split; vm_compute; reflexivity.
Defined.

(** [Enemy_update_speed_limit] for an enemy at the top edge, seven units
    above the player, in a tick of 16 ms: it comes down by 0.032. *)
Lemma Enemy_update_speed_limit_witness :
  let e' := Enemy.update (host := approxHost) 16 (Player.new 15 7) (Enemy.new 15 0) in
  Qabs (Enemy.x e' - 15) <= ENEMY_SPEED * 16 /\
  Qabs (Enemy.y e' - 0) <= ENEMY_SPEED * 16 /\
  Enemy.y e' == 0.032 /\ Enemy.hp e' = 1%Z.
Proof.
  intros e'.
  destruct (Enemy_update_speed_limit (host := approxHost) 16 (Player.new 15 7) (Enemy.new 15 0))
    as (Hx & Hy & _ & Hhp & _).
  - vm_compute. discriminate.
  - split; split; vm_compute; discriminate.
  - intros _. split; vm_compute; discriminate.
  - split; [exact Hx | split; [exact Hy | split; [vm_compute; reflexivity | exact Hhp]]].
Defined.

(** ** The auto-attack *)

Section Attack.
Context `{host : MathHost}.

(** X5.  The auto-attack fires in a tick exactly when 350 ms have passed since
    the last shot, and then once: the projectile is launched half a unit
    ahead of the player as this tick's input has moved and turned it, and
    is updated with the others in the same tick.  The shot starts
    active, with 3000 ms to live, at the player's position plus half its
    facing; its velocity is the facing divided by the length the host
    gives it, times [PROJECTILE_SPEED] (to the right when that length is
    not positive).  The shot is timed at [now], so no tick whose clock
    is less than 350 ms later fires. *)
Theorem moveEntities_attack now dt g g' p :
  VampireGame.player g = Some p ->
  VampireGame.moveEntities now dt g = Some g' ->
  let p1 := Player.handleInput (VampireGame.keys g) dt p in
  let shot :=
    Projectile.new (Player.x p1 + (Player.lastDirection p1).1 * 0.5)
                   (Player.y p1 + (Player.lastDirection p1).2 * 0.5)
                   (Player.lastDirection p1).1 (Player.lastDirection p1).2 in
  let len := Math_sqrt ((Player.lastDirection p1).1 * (Player.lastDirection p1).1 +
                        (Player.lastDirection p1).2 * (Player.lastDirection p1).2) in
  (ATTACK_COOLDOWN <= now - Player.lastAttack p ->
   VampireGame.projectiles g' =
     Projectile.update dt <$> (VampireGame.projectiles g ++ [shot]) /\
   (Projectile.x shot = Player.x p1 + (Player.lastDirection p1).1 * 0.5 /\
    Projectile.y shot = Player.y p1 + (Player.lastDirection p1).2 * 0.5 /\
    Projectile.vx shot = (if Qltb 0 len
                          then (Player.lastDirection p1).1 / len * PROJECTILE_SPEED
                          else PROJECTILE_SPEED) /\
    Projectile.vy shot = (if Qltb 0 len
                          then (Player.lastDirection p1).2 / len * PROJECTILE_SPEED
                          else 0) /\
    Projectile.active shot = true /\ Projectile.lifetime shot = 3000 /\
    Projectile.char shot = CHAR_PROJECTILE) /\
   last (VampireGame.projectiles g') = Some (Projectile.update dt shot) /\
   Player.lastAttack <$> VampireGame.player g' = Some now /\
   forall now' p', VampireGame.player g' = Some p' ->
                   now' - now < ATTACK_COOLDOWN -> Player.canAttack now' p' = false) /\
  (now - Player.lastAttack p < ATTACK_COOLDOWN ->
   VampireGame.projectiles g' = Projectile.update dt <$> VampireGame.projectiles g /\
   Player.lastAttack <$> VampireGame.player g' = Some (Player.lastAttack p)).
Proof.
  intros Hp Hrun p1 shot len. unfold VampireGame.moveEntities in Hrun.
  rewrite Hp in Hrun. cbv beta iota delta [mbind option_bind] in Hrun. fold p1 in Hrun.
  assert (Player.lastAttack p1 = Player.lastAttack p) as Hlast.
  { unfold p1, Player.handleInput. destruct (Player.inputDirection _). reflexivity. }
  assert (forall q, Player.lastAttack (Player.update dt q) = Player.lastAttack q) as Hupd.
  { intros q. unfold Player.update. destruct (Player.invincible q); reflexivity. }
  unfold Player.canAttack in Hrun. rewrite Hlast in Hrun.
  destruct (Qle_bool ATTACK_COOLDOWN (now - Player.lastAttack p)) eqn:Hcd.
  - injection Hrun as <-. split.
    + intros _. cbn [VampireGame.projectiles VampireGame.player VampireGame.setEntities].
      split; [reflexivity |].
      split; [repeat split |].
      split; [rewrite fmap_app; apply last_snoc |].
      split.
      * cbn [fmap option_fmap option_map]. rewrite Hupd. reflexivity.
      * intros now' p' Hp' Hsoon. injection Hp' as <-.
        unfold Player.canAttack. rewrite Hupd. cbn [Player.attack fst Player.lastAttack].
        apply Qle_bool_gt. exact Hsoon.
    + intros Hsoon. apply Qle_bool_iff in Hcd. lra.
  - injection Hrun as <-. split.
    + intros Hdue. apply Qle_bool_gt in Hcd. lra.
    + intros _. cbn [VampireGame.projectiles VampireGame.player VampireGame.setEntities].
      split; [reflexivity |]. cbn [fmap option_fmap option_map]. rewrite Hupd, Hlast. reflexivity.
Qed.

End Attack.

(** [moveEntities_attack] on a new game at clock 1000 ms, then on the
    game that results at clock 1200 ms: the first tick fires, from
    (15.5, 7) to the right, and after its 16 ms the shot is at
    (15.98, 7); the second tick does not fire. *)
Lemma moveEntities_attack_witness :
  exists g1 g2 pr,
    VampireGame.moveEntities (host := approxHost) 1000 16
      (playingWith (Player.new 15 7) [] [] []) = Some g1 /\
    VampireGame.moveEntities (host := approxHost) 1200 16 g1 = Some g2 /\
    VampireGame.projectiles g1 = [pr] /\
    (Projectile.x pr == 15.98 /\ Projectile.y pr == 7 /\
     Projectile.vx pr == 0.03 /\ Projectile.vy pr == 0 /\
     Projectile.active pr = true /\ Projectile.lifetime pr == 2984) /\
    Player.lastAttack <$> VampireGame.player g1 = Some 1000 /\
    length (VampireGame.projectiles g2) = 1%nat.
Proof.
  eexists. eexists. eexists.
  split; [vm_compute; reflexivity |]. split; [vm_compute; reflexivity |].
  destruct (moveEntities_attack (host := approxHost) 1000 16
              (playingWith (Player.new 15 7) [] [] []) _ (Player.new 15 7) eq_refl eq_refl)
    as [Hfire _].
  destruct Hfire as (Hps & _ & _ & Hlast & _); [vm_compute; discriminate |].
  split; [vm_compute; reflexivity |].
  split; [repeat split; vm_compute; reflexivity |].
  split; [exact Hlast | reflexivity].
Defined.

(** ** The player-enemy loop *)

Section Knockback.
Context `{host : MathHost}.


End Knockback.


(** ** Gems *)

Lemma playerVsGems_refs px py (l : list XPGem.t) : forall pre extra sc,
  VampireGame.playerVsGems px py (refsFrom XPGem.active (length pre) l)
    (pre ++ l ++ extra) sc =
  (pre ++ (collect px py <$> l) ++ extra, (sc + collectedValue px py l)%Z).
Proof.
  induction l as [| gem l IH]; intros pre extra sc.
  - simpl. rewrite Z.add_0_r. reflexivity.
  - cbn [refsFrom].
    change (collect px py <$> gem :: l) with (collect px py gem :: (collect px py <$> l)).
    change (collectedValue px py (gem :: l))
      with ((if gemInReach px py gem then XPGem.value gem else 0) +
            collectedValue px py l)%Z.
    change ((gem :: l) ++ extra) with (gem :: l ++ extra).
    assert (forall d : XPGem.t,
              pre ++ d :: (collect px py <$> l) ++ extra =
              (pre ++ [d]) ++ (collect px py <$> l) ++ extra) as Hshift.
    { intros d. rewrite <- app_assoc. reflexivity. }
    assert (forall d : XPGem.t, pre ++ d :: l ++ extra = (pre ++ [d]) ++ l ++ extra) as Hshift'.
    { intros d. rewrite <- app_assoc. reflexivity. }
    assert (forall d : XPGem.t, S (length pre) = length (pre ++ [d])) as Hlen
      by (intros d; rewrite length_app; simpl; lia).
    unfold collect at 1. unfold gemInReach at 1 2.
    destruct (XPGem.active gem) eqn:Hact; cbn [andb].
    + cbn [VampireGame.playerVsGems].
      rewrite list_lookup_middle by reflexivity.
      destruct (VampireGame.near 1.5 px py (XPGem.x gem) (XPGem.y gem)) eqn:Hnear.
      * replace (<[length pre := XPGem.deactivate gem]> (pre ++ gem :: l ++ extra))
          with ((pre ++ [XPGem.deactivate gem]) ++ l ++ extra).
        2:{ rewrite <- Hshift'. symmetry.
            rewrite <- (Nat.add_0_r (length pre)) at 1. rewrite insert_app_r. reflexivity. }
        rewrite (Hlen (XPGem.deactivate gem)), IH, <- Hshift. f_equal. lia.
      * rewrite Hshift', (Hlen gem), IH, <- Hshift. f_equal.
    + rewrite Hshift', (Hlen gem), IH, <- Hshift. f_equal.
Qed.

Lemma projectileVsEnemies_gems proj erefs es sc gems :
  exists fresh,
    (VampireGame.projectileVsEnemies proj erefs es sc gems).2.2 = gems ++ fresh /\
    Forall freshGem fresh /\
    (VampireGame.projectileVsEnemies proj erefs es sc gems).2.1.2 =
      (sc + 10 * Z.of_nat (length fresh))%Z.
Proof.
  induction erefs as [| j erefs IH]; simpl.
  - exists []. rewrite app_nil_r. split; [reflexivity | split; [constructor | simpl; lia]].
  - destruct (es !! j) as [e |]; [| exact IH].
    destruct (Enemy.active e); simpl; [| exact IH].
    destruct (VampireGame.near _ _ _ _ _); [| exact IH].
    destruct (Enemy.takeDamage e) as [e' died]. destruct died; simpl.
    + eexists. split; [reflexivity |]. split.
      * apply Forall_singleton. repeat split.
      * simpl. lia.
    + exists []. rewrite app_nil_r. split; [reflexivity | split; [constructor | simpl; lia]].
Qed.

Lemma projectilesVsEnemies_gems prefs erefs : forall ps es sc gems,
  exists fresh,
    (VampireGame.projectilesVsEnemies prefs erefs ps es sc gems).2 = gems ++ fresh /\
    Forall freshGem fresh /\
    (VampireGame.projectilesVsEnemies prefs erefs ps es sc gems).1.2 =
      (sc + 10 * Z.of_nat (length fresh))%Z.
Proof.
  induction prefs as [| i prefs IH]; intros ps es sc gems; simpl.
  - exists []. rewrite app_nil_r. split; [reflexivity | split; [constructor | simpl; lia]].
  - destruct (ps !! i) as [proj |]; [| apply IH].
    destruct (Projectile.active proj); simpl; [| apply IH].
    destruct (projectileVsEnemies_gems proj erefs es sc gems) as (f1 & Hg1 & Hf1 & Hs1).
    destruct (VampireGame.projectileVsEnemies proj erefs es sc gems)
      as [hit [[es1 sc1] gems1]]. simpl in Hg1, Hs1. subst gems1 sc1.
    destruct (IH (if hit then <[i := Projectile.deactivate proj]> ps else ps) es1
                (sc + 10 * Z.of_nat (length f1))%Z (gems ++ f1)) as (f2 & Hg2 & Hf2 & Hs2).
    exists (f1 ++ f2). rewrite Hg2, Hs2, app_assoc, length_app.
    split; [reflexivity |]. split; [apply Forall_app; auto | lia].
Qed.

(** The guard on the two array lengths changes nothing: with no active
    projectile or no active enemy the loops would do nothing anyway. *)
Lemma projectilesVsEnemies_no_enemies prefs : forall ps es sc gems,
  VampireGame.projectilesVsEnemies prefs [] ps es sc gems = (ps, es, sc, gems).
Proof.
  induction prefs as [| i prefs IH]; intros ps es sc gems; simpl; [reflexivity |].
  destruct (ps !! i) as [proj |]; [| apply IH].
  destruct (Projectile.active proj); simpl; apply IH.
Qed.

Section Collisions.
Context `{host : MathHost}.

(** [checkCollisions] as its three loops, one after the other. *)
Lemma checkCollisions_loops g p :
  VampireGame.player g = Some p ->
  exists p1 es1 ps2 es2 sc2 gems2 gems3 sc3,
    VampireGame.playerVsEnemies (Player.x p) (Player.y p)
      (refs Enemy.active (VampireGame.enemies g)) p (VampireGame.enemies g) = (p1, es1) /\
    VampireGame.projectilesVsEnemies (refs Projectile.active (VampireGame.projectiles g))
      (refs Enemy.active (VampireGame.enemies g)) (VampireGame.projectiles g) es1
      (VampireGame.score g) (VampireGame.xpGems g) = (ps2, es2, sc2, gems2) /\
    VampireGame.playerVsGems (Player.x p) (Player.y p)
      (refs XPGem.active (VampireGame.xpGems g)) gems2 sc2 = (gems3, sc3) /\
    VampireGame.checkCollisions g =
      Some (VampireGame.setEntities p1 es2 ps2 gems3 sc3 g).
Proof.
  intros Hp. unfold VampireGame.checkCollisions. rewrite Hp.
  cbv beta iota delta [mbind option_bind].
  destruct (VampireGame.playerVsEnemies _ _ _ _ _) as [p1 es1].
  exists p1, es1.
  set (loop := VampireGame.projectilesVsEnemies
                 (refs Projectile.active (VampireGame.projectiles g))
                 (refs Enemy.active (VampireGame.enemies g)) (VampireGame.projectiles g) es1
                 (VampireGame.score g) (VampireGame.xpGems g)).
  assert ((if (0 <? length (refs Projectile.active (VampireGame.projectiles g)))%nat &&
              (0 <? length (refs Enemy.active (VampireGame.enemies g)))%nat
           then loop
           else (VampireGame.projectiles g, es1, VampireGame.score g, VampireGame.xpGems g)) =
          loop) as ->.
  { subst loop.
    destruct (refs Projectile.active (VampireGame.projectiles g)) as [| i prefs].
    - reflexivity.
    - destruct (refs Enemy.active (VampireGame.enemies g)) as [| j erefs].
      + rewrite projectilesVsEnemies_no_enemies. reflexivity.
      + reflexivity. }
  destruct loop as [[[ps2 es2] sc2] gems2].
  exists ps2, es2, sc2, gems2.
  destruct (VampireGame.playerVsGems _ _ _ _ _) as [gems3 sc3].
  exists gems3, sc3. auto.
Qed.

(** The gems and the score across [checkCollisions]. *)
Lemma checkCollisions_gems_spec g g' p :
  VampireGame.player g = Some p ->
  VampireGame.checkCollisions g = Some g' ->
  exists fresh,
    VampireGame.xpGems g' =
      (collect (Player.x p) (Player.y p) <$> VampireGame.xpGems g) ++ fresh /\
    Forall freshGem fresh /\
    VampireGame.score g' =
      (VampireGame.score g + 10 * Z.of_nat (length fresh) +
       collectedValue (Player.x p) (Player.y p) (VampireGame.xpGems g))%Z.
Proof.
  intros Hp Hrun.
  destruct (checkCollisions_loops g p Hp)
    as (p1 & es1 & ps2 & es2 & sc2 & gems2 & gems3 & sc3 & _ & Hloop & Hgems & Hcc).
  rewrite Hcc in Hrun. injection Hrun as <-.
  destruct (projectilesVsEnemies_gems (refs Projectile.active (VampireGame.projectiles g))
              (refs Enemy.active (VampireGame.enemies g)) (VampireGame.projectiles g) es1
              (VampireGame.score g) (VampireGame.xpGems g)) as (fresh & Hg & Hf & Hs).
  rewrite Hloop in Hg, Hs. simpl in Hg, Hs. subst gems2 sc2.
  pose proof (playerVsGems_refs (Player.x p) (Player.y p) (VampireGame.xpGems g) [] fresh
                (VampireGame.score g + 10 * Z.of_nat (length fresh))%Z) as Hspec.
  simpl in Hspec. unfold refs in Hgems. rewrite Hspec in Hgems. injection Hgems as <- <-.
  exists fresh. auto.
Qed.

(** X7.  Gems.  The collision phase deactivates exactly the gems that were
    active on entry and lie within 1.5 of the player on both axes, and
    adds their values to the score.  The gems that this tick's kills
    drop, ten points each, come after them in the array and are still
    active, however close the player is: a gem is picked up in a later
    tick than the one that drops it. *)
Theorem checkCollisions_gems g g' p :
  VampireGame.player g = Some p ->
  VampireGame.checkCollisions g = Some g' ->
  exists fresh,
    VampireGame.xpGems g' =
      (collect (Player.x p) (Player.y p) <$> VampireGame.xpGems g) ++ fresh /\
    Forall freshGem fresh /\
    VampireGame.score g' =
      (VampireGame.score g + 10 * Z.of_nat (length fresh) +
       collectedValue (Player.x p) (Player.y p) (VampireGame.xpGems g))%Z.
Proof. exact (checkCollisions_gems_spec g g' p). Qed.

End Collisions.

(** [checkCollisions_gems] with the player standing on an old gem and
    next to an enemy that a projectile kills: the old gem is collected,
    the new one, dropped within reach, stays active, and the score is
    20. *)
Lemma checkCollisions_gems_witness :
  exists g',
    VampireGame.checkCollisions (host := approxHost)
      (playingWith justHitPlayer [Enemy.new 15 6]
         [Projectile.new (host := approxHost) 15 6.2 0 (-1)] [XPGem.new 15 7]) = Some g' /\
    (XPGem.active <$> VampireGame.xpGems g') = [false; true] /\
    gemInReach 15 7 (XPGem.new 15 6) = true /\
    VampireGame.score g' = 20%Z.
Proof.
  eexists. split; [vm_compute; reflexivity |].
  destruct (checkCollisions_gems (host := approxHost)
              (playingWith justHitPlayer [Enemy.new 15 6]
                 [Projectile.new (host := approxHost) 15 6.2 0 (-1)] [XPGem.new 15 7])
              _ justHitPlayer eq_refl eq_refl) as (fresh & _ & _ & _).
  split; [reflexivity |]. split; [vm_compute; reflexivity | reflexivity].
Defined.

(** ** What the collision phase never does *)

Lemma Forall2_update {A : Type} (R : A -> A -> Prop) (l : list A) i x y :
  (forall a, R a a) -> l !! i = Some x -> R x y -> Forall2 R l (<[i := y]> l).
Proof.
  intros Hrefl Hi Hxy. rewrite <- (list_insert_id l i x Hi) at 1.
  apply Forall2_insert; [| exact Hxy]. apply Forall_Forall2_diag, Forall_forall. auto.
Qed.

Lemma enemyAged_refl e : enemyAged e e.
Proof. unfold enemyAged. repeat split; auto; lia. Qed.

Lemma enemyAged_trans e1 e2 e3 : enemyAged e1 e2 -> enemyAged e2 e3 -> enemyAged e1 e3.
Proof.
  intros (H1 & H2 & H3) (H4 & H5 & H6). unfold enemyAged.
  repeat split; [lia | auto | congruence].
Qed.

Lemma projectileAged_refl pr : projectileAged pr pr.
Proof. left. reflexivity. Qed.

Lemma projectileAged_trans p1 p2 p3 :
  projectileAged p1 p2 -> projectileAged p2 p3 -> projectileAged p1 p3.
Proof.
  intros [-> | [Ha ->]] [-> | [Hb ->]]; unfold projectileAged; auto.
Qed.

Section Flags.
Context `{host : MathHost}.

Lemma playerVsEnemies_aged px py erefs p es :
  Forall2 enemyAged es (VampireGame.playerVsEnemies px py erefs p es).2 /\
  ((VampireGame.playerVsEnemies px py erefs p es).1 = p \/
   (Player.invincible p = false /\
    (VampireGame.playerVsEnemies px py erefs p es).1 =
      (Player.takeDamage ENEMY_DAMAGE p).1)).
Proof.
  assert (Forall2 enemyAged es es) as Hsame
    by (apply Forall_Forall2_diag, Forall_forall; intros; apply enemyAged_refl).
  destruct (Player.invincible p) eqn:Hinv.
  { rewrite playerVsEnemies_invincible by exact Hinv. simpl. auto. }
  induction erefs as [| i erefs IH]; simpl; [auto |].
  destruct (es !! i) as [e |] eqn:Hi; [| exact IH].
  destruct (VampireGame.near _ _ _ _ _); [| exact IH].
  destruct (Player.takeDamage ENEMY_DAMAGE p) as [p' hit] eqn:Htd.
  unfold Player.takeDamage in Htd. rewrite Hinv in Htd. injection Htd as <- <-.
  rewrite playerVsEnemies_invincible by reflexivity. simpl. split.
  - apply (Forall2_update enemyAged es i e); [apply enemyAged_refl | exact Hi |].
    unfold enemyAged. simpl. repeat split; auto; lia.
  - right. split; reflexivity.
Qed.

End Flags.

Lemma projectileVsEnemies_aged proj erefs es sc gems :
  Forall2 enemyAged es (VampireGame.projectileVsEnemies proj erefs es sc gems).2.1.1.
Proof.
  induction erefs as [| j erefs IH]; simpl.
  - apply Forall_Forall2_diag, Forall_forall; intros; apply enemyAged_refl.
  - destruct (es !! j) as [e |] eqn:Hj; [| exact IH].
    destruct (Enemy.active e) eqn:Hact; simpl; [| exact IH].
    destruct (VampireGame.near _ _ _ _ _); [| exact IH].
    destruct (Enemy_takeDamage_spec e) as (Hhp & _ & _ & _ & Ha).
    assert (enemyAged e (Enemy.takeDamage e).1) as Haged.
    { unfold enemyAged. rewrite Hhp. repeat split; [lia | auto |].
      unfold Enemy.takeDamage. destruct (_ <=? _)%Z; reflexivity. }
    destruct (Enemy.takeDamage e) as [e' died]. simpl in *.
    destruct died; simpl; apply (Forall2_update enemyAged es j e); auto using enemyAged_refl.
Qed.

Lemma projectilesVsEnemies_aged prefs erefs : forall ps es sc gems,
  Forall2 projectileAged ps
    (VampireGame.projectilesVsEnemies prefs erefs ps es sc gems).1.1.1 /\
  Forall2 enemyAged es
    (VampireGame.projectilesVsEnemies prefs erefs ps es sc gems).1.1.2.
Proof.
  induction prefs as [| i prefs IH]; intros ps es sc gems; simpl.
  - split; apply Forall_Forall2_diag, Forall_forall; intros;
      [apply projectileAged_refl | apply enemyAged_refl].
  - destruct (ps !! i) as [proj |] eqn:Hi; [| apply IH].
    destruct (Projectile.active proj) eqn:Hact; simpl; [| apply IH].
    pose proof (projectileVsEnemies_aged proj erefs es sc gems) as Hes.
    destruct (VampireGame.projectileVsEnemies proj erefs es sc gems)
      as [hit [[es1 sc1] gems1]]. simpl in Hes.
    destruct (IH (if hit then <[i := Projectile.deactivate proj]> ps else ps) es1 sc1 gems1)
      as [Hps2 Hes2].
    split.
    + eapply Forall2_trans; [apply projectileAged_trans | | exact Hps2].
      destruct hit.
      * apply (Forall2_update projectileAged ps i proj);
          [apply projectileAged_refl | exact Hi | right; auto].
      * apply Forall_Forall2_diag, Forall_forall; intros; apply projectileAged_refl.
    + eapply Forall2_trans; [apply enemyAged_trans | exact Hes | exact Hes2].
Qed.

Section Flags2.
Context `{host : MathHost}.

(** The player across [checkCollisions]. *)
Lemma checkCollisions_player g g' p :
  VampireGame.player g = Some p ->
  VampireGame.checkCollisions g = Some g' ->
  exists p', VampireGame.player g' = Some p' /\
             Player.x p' = Player.x p /\ Player.y p' = Player.y p /\
             Player.lastDirection p' = Player.lastDirection p /\
             Player.lastAttack p' = Player.lastAttack p /\
             (Player.hp p' = Player.hp p \/
              Player.hp p' = (Player.hp p - ENEMY_DAMAGE)%Z).
Proof.
  intros Hp Hrun.
  destruct (checkCollisions_loops g p Hp)
    as (p1 & es1 & ps2 & es2 & sc2 & gems2 & gems3 & sc3 & Hpe & _ & _ & Hcc).
  rewrite Hcc in Hrun. injection Hrun as <-.
  destruct (playerVsEnemies_aged (Player.x p) (Player.y p)
              (refs Enemy.active (VampireGame.enemies g)) p (VampireGame.enemies g))
    as [_ Hp1].
  rewrite Hpe in Hp1. simpl in Hp1.
  exists p1. split; [reflexivity |].
  destruct Hp1 as [-> | [Hinv ->]]; [auto 10 |].
  unfold Player.takeDamage. rewrite Hinv. simpl. auto 10.
Qed.

(** X8.  The collision phase removes nothing and revives nothing.  Both
    arrays keep their length and order; an enemy never gains hit points
    or becomes active again; a projectile is as it was or deactivated in
    place; the player is where it was, with the hit points it had or
    [ENEMY_DAMAGE] fewer. *)
Theorem checkCollisions_inert g g' p :
  VampireGame.player g = Some p ->
  VampireGame.checkCollisions g = Some g' ->
  Forall2 enemyAged (VampireGame.enemies g) (VampireGame.enemies g') /\
  Forall2 projectileAged (VampireGame.projectiles g) (VampireGame.projectiles g') /\
  exists p', VampireGame.player g' = Some p' /\
             Player.x p' = Player.x p /\ Player.y p' = Player.y p /\
             Player.lastDirection p' = Player.lastDirection p /\
             Player.lastAttack p' = Player.lastAttack p /\
             (Player.hp p' = Player.hp p \/
              Player.hp p' = (Player.hp p - ENEMY_DAMAGE)%Z).
Proof.
  intros Hp Hrun.
  split; [| split; [| exact (checkCollisions_player g g' p Hp Hrun)]];
    destruct (checkCollisions_loops g p Hp)
      as (p1 & es1 & ps2 & es2 & sc2 & gems2 & gems3 & sc3 & Hpe & Hloop & _ & Hcc);
    rewrite Hcc in Hrun; injection Hrun as <-;
    destruct (playerVsEnemies_aged (Player.x p) (Player.y p)
                (refs Enemy.active (VampireGame.enemies g)) p (VampireGame.enemies g))
      as [Hes1 _];
    rewrite Hpe in Hes1; simpl in Hes1;
    destruct (projectilesVsEnemies_aged (refs Projectile.active (VampireGame.projectiles g))
                (refs Enemy.active (VampireGame.enemies g)) (VampireGame.projectiles g) es1
                (VampireGame.score g) (VampireGame.xpGems g)) as [Hps2 Hes2];
    rewrite Hloop in Hps2, Hes2; simpl in Hps2, Hes2;
    cbn [VampireGame.enemies VampireGame.projectiles VampireGame.setEntities].
  - eapply Forall2_trans; [apply enemyAged_trans | exact Hes1 | exact Hes2].
  - exact Hps2.
Qed.

End Flags2.

(** [checkCollisions_inert] on the crowded game: six enemies before and
    after, the first one dead, the projectile deactivated in place. *)
Lemma checkCollisions_inert_witness :
  exists g',
    VampireGame.checkCollisions (host := approxHost) crowded = Some g' /\
    length (VampireGame.enemies g') = 6%nat /\
    (Enemy.active <$> VampireGame.enemies g') = [false; true; true; true; true; true] /\
    (Projectile.active <$> VampireGame.projectiles g') = [false] /\
    Forall2 projectileAged (VampireGame.projectiles crowded) (VampireGame.projectiles g').
Proof.
  eexists. split; [vm_compute; reflexivity |].
  destruct (checkCollisions_inert (host := approxHost) crowded _ (Player.new 15 7)
              eq_refl eq_refl) as (_ & Hps & _).
  split; [reflexivity |]. split; [reflexivity |]. split; [reflexivity | exact Hps].
Defined.

(** ** Cleanup *)

Lemma filter_all {A : Type} (f : A -> bool) (l : list A) :
  existsb (fun a => negb (f a)) l = false -> List.filter f l = l.
Proof.
  induction l as [| a l IH]; simpl; [reflexivity |].
  destruct (f a); simpl; [| discriminate]. intros Hl. rewrite IH by exact Hl. reflexivity.
Qed.

Lemma filter_guarded {A : Type} (f : A -> bool) (l : list A) :
  (if existsb (fun a => negb (f a)) l then List.filter f l else l) = List.filter f l.
Proof.
  destruct (existsb _ l) eqn:E; [reflexivity |]. symmetry. apply filter_all, E.
Qed.

Lemma filter_filter {A : Type} (f : A -> bool) (l : list A) :
  List.filter f (List.filter f l) = List.filter f l.
Proof.
  induction l as [| a l IH]; simpl; [reflexivity |].
  destruct (f a) eqn:E; simpl; rewrite ?E, IH; reflexivity.
Qed.

(** X9.  Cleanup keeps, in order, exactly the active entities of each array
    (testing first whether there is anything to drop makes no
    difference), touches nothing else, and a second cleanup changes
    nothing. *)
Theorem cleanup_filters (g : VampireGame.t) :
  VampireGame.cleanup g =
    VampireGame.setLists (List.filter Enemy.active (VampireGame.enemies g))
      (List.filter Projectile.active (VampireGame.projectiles g))
      (List.filter XPGem.active (VampireGame.xpGems g)) g /\
  VampireGame.cleanup (VampireGame.cleanup g) = VampireGame.cleanup g /\
  (forall e, e ∈ VampireGame.enemies (VampireGame.cleanup g) <->
             e ∈ VampireGame.enemies g /\ Enemy.active e = true) /\
  (forall pr, pr ∈ VampireGame.projectiles (VampireGame.cleanup g) <->
              pr ∈ VampireGame.projectiles g /\ Projectile.active pr = true) /\
  (forall gem, gem ∈ VampireGame.xpGems (VampireGame.cleanup g) <->
               gem ∈ VampireGame.xpGems g /\ XPGem.active gem = true).
Proof.
  assert (forall g0, VampireGame.cleanup g0 =
            VampireGame.setLists (List.filter Enemy.active (VampireGame.enemies g0))
              (List.filter Projectile.active (VampireGame.projectiles g0))
              (List.filter XPGem.active (VampireGame.xpGems g0)) g0) as Hfilter.
  { intros g0. unfold VampireGame.cleanup. rewrite !filter_guarded. reflexivity. }
  split; [apply Hfilter |]. split.
  - rewrite (Hfilter (VampireGame.cleanup g)), (Hfilter g).
    cbn [VampireGame.enemies VampireGame.projectiles VampireGame.xpGems VampireGame.setLists].
    rewrite !filter_filter. reflexivity.
  - rewrite (Hfilter g).
    cbn [VampireGame.enemies VampireGame.projectiles VampireGame.xpGems VampireGame.setLists].
    repeat split; intros; rewrite ?list_elem_of_In, ?List.filter_In in *; tauto.
Qed.

(** ** The whole tick *)

Lemma render_runs now g p :
  VampireGame.player g = Some p ->
  gridShape (VampireGame.prevGrid g) ->
  VampireGame.render now g =
    Some (VampireGame.setPrevGrid
            (VampireGame.buildFrame now p (VampireGame.enemies g)
               (VampireGame.projectiles g) (VampireGame.xpGems g)) g,
          changed (VampireGame.buildFrame now p (VampireGame.enemies g)
                     (VampireGame.projectiles g) (VampireGame.xpGems g))
                  (VampireGame.prevGrid g) VampireGame.scanOrder).
Proof.
  intros Hp Hshape. unfold VampireGame.render. rewrite Hp.
  cbv beta iota delta [mbind option_bind].
  rewrite diffCells_scan; [reflexivity | apply buildFrame_shape | exact Hshape].
Qed.

(** ** A fresh game *)

Lemma buildFrame_alone now p :
  Player.invincible p = false ->
  VampireGame.inGrid (getGridPos (Player.x p) (Player.y p)) = true ->
  VampireGame.buildFrame now p [] [] []
    = VampireGame.paint (getGridPos (Player.x p) (Player.y p))
        {| cellChar := Player.char p; cellClass := "game-player" |} VampireGame.blankGrid.
Proof.
  intros Hinv Hin. unfold VampireGame.buildFrame, VampireGame.showPlayer.
  rewrite Hinv, Hin. reflexivity.
Qed.

Lemma fresh_frame_writes :
  changed (VampireGame.paint (15, 7)%Z playerCell VampireGame.blankGrid)
          VampireGame.blankGrid VampireGame.scanOrder
    = [writeOf 7 15 playerCell].
Proof. vm_compute. reflexivity. Qed.

Lemma updateHUD_fresh g h : GameUI.updateHUD (freshFrom g) h = Some (freshHud h).
Proof. destruct h as [[wv |] [sc |] [hp |]]; vm_compute; reflexivity. Qed.

(** [init] on a game with a canvas, whatever the game was: it leaves the
    new game's values with the player at the centre (only the canvas,
    the state, the time base and the frame handle are kept), its render
    writes one cell, the player's, and the HUD shows the fresh values. *)
Lemma init_fresh now ov h w g :
  VampireGame.canvas g = true ->
  GameUI.init now (ov, h, w, g)
    = Some ((ov, freshHud h, w, freshFrom g), [writeOf 7 15 playerCell]).
Proof.
  intros Hc. unfold GameUI.init, VampireGame.initGrid. cbv zeta.
  cbn [VampireGame.canvas GameUI.setKeys VampireGame.setWaveClock VampireGame.setEntities].
  rewrite Hc. cbv beta iota delta [mbind option_bind].
  match goal with
  | |- context [VampireGame.render now ?g0] =>
      rewrite (render_runs now g0 _ eq_refl blankGrid_shape)
  end.
  cbn [VampireGame.enemies VampireGame.projectiles VampireGame.xpGems
       VampireGame.prevGrid VampireGame.setPrevGrid].
  rewrite buildFrame_alone by (vm_compute; reflexivity).
  change (getGridPos _ _) with (15, 7)%Z.
  change {| cellChar := Player.char _; cellClass := "game-player" |} with playerCell.
  rewrite fresh_frame_writes.
  match goal with
  | |- context [GameUI.updateHUD ?g0 h] => change g0 with (freshFrom g)
  end.
  rewrite updateHUD_fresh. reflexivity.
Qed.

(** [init] on a game without a canvas: the [TypeError] of [initGrid]. *)
Lemma init_no_canvas now ov h w g :
  VampireGame.canvas g = false -> GameUI.init now (ov, h, w, g) = None.
Proof.
  intros Hc. unfold GameUI.init, VampireGame.initGrid. cbv zeta.
  cbn [VampireGame.canvas GameUI.setKeys VampireGame.setWaveClock VampireGame.setEntities].
  rewrite Hc. reflexivity.
Qed.

Section Loop.
Context `{host : MathHost}.

Lemma simulate_runs inp g p :
  VampireGame.player g = Some p ->
  exists g1 g2 g3 p3,
    VampireGame.moveEntities (attackNow inp)
      (timestamp inp - VampireGame.lastTimestamp g)
      (VampireGame.setLastTimestamp (timestamp inp) g) = Some g1 /\
    VampireGame.checkCollisions g1 = Some g2 /\
    g3 = VampireGame.cleanup
           (VampireGame.updateWave (randomSide inp) (randomAlong inp)
              (timestamp inp - VampireGame.lastTimestamp g) g2) /\
    simulate inp g = Some g3 /\
    VampireGame.player g2 = Some p3 /\ VampireGame.player g3 = Some p3 /\
    VampireGame.prevGrid g3 = VampireGame.prevGrid g /\
    VampireGame.state g3 = VampireGame.state g /\
    VampireGame.lastTimestamp g3 = timestamp inp /\
    VampireGame.animationId g3 = VampireGame.animationId g /\
    VampireGame.keys g3 = VampireGame.keys g.
Proof.
  intros Hp. unfold simulate.
  destruct (moveEntities_runs (attackNow inp) (timestamp inp - VampireGame.lastTimestamp g)
              (VampireGame.setLastTimestamp (timestamp inp) g) p Hp) as [g1 Hg1].
  rewrite Hg1. cbv beta iota delta [mbind option_bind].
  assert (exists p1, VampireGame.player g1 = Some p1 /\
                     VampireGame.prevGrid g1 = VampireGame.prevGrid g /\
                     VampireGame.state g1 = VampireGame.state g /\
                     VampireGame.lastTimestamp g1 = timestamp inp /\
                     VampireGame.animationId g1 = VampireGame.animationId g /\
                     VampireGame.keys g1 = VampireGame.keys g) as (p1 & Hp1 & Hmove).
  { unfold VampireGame.moveEntities in Hg1.
    cbn [VampireGame.player VampireGame.setLastTimestamp] in Hg1. rewrite Hp in Hg1.
    cbv beta iota delta [mbind option_bind] in Hg1.
    destruct (Player.canAttack _ _); injection Hg1 as <-; eexists;
      (split; [reflexivity |]); repeat split. }
  destruct (checkCollisions_loops g1 p1 Hp1)
    as (p2 & es1 & ps2 & es2 & sc2 & gems2 & gems3 & sc3 & _ & _ & _ & Hcc).
  rewrite Hcc. eexists g1, _, _, p2.
  split; [reflexivity |]. split; [exact Hcc |]. split; [reflexivity |].
  split; [reflexivity |]. split; [reflexivity |].
  destruct Hmove as (Hgrid & Hstate & Hts & Hid & Hkeys).
  unfold VampireGame.updateWave.
  destruct (Qle_bool WAVE_DURATION _); cbn -[VampireGame.spawnDue VampireGame.spawnPosition];
    destruct (VampireGame.spawnDue _ _ _); cbn -[VampireGame.spawnPosition];
    repeat split; assumption.
Qed.

(** A tick of a playing game that has a player: the simulation, then
    game over or the render and the next frame request. *)
Lemma gameLoop_playing inp w g :
  VampireGame.state g = playing ->
  ready g ->
  exists g3 p3,
    simulate inp g = Some g3 /\ VampireGame.player g3 = Some p3 /\
    VampireGame.gameLoop inp (w, g) =
      Some (if (Player.hp p3 <=? 0)%Z
            then ((VampireGame.gameOver (w, g3)).1, (VampireGame.gameOver (w, g3)).2, [])
            else (requestAnimationFrame (frameId inp) w,
                  VampireGame.setAnimationId (Some (frameId inp))
                    (VampireGame.setPrevGrid
                       (VampireGame.buildFrame (renderNow inp) p3 (VampireGame.enemies g3)
                          (VampireGame.projectiles g3) (VampireGame.xpGems g3)) g3),
                  changed (VampireGame.buildFrame (renderNow inp) p3 (VampireGame.enemies g3)
                             (VampireGame.projectiles g3) (VampireGame.xpGems g3))
                          (VampireGame.prevGrid g3) VampireGame.scanOrder)).
Proof.
  intros Hstate [[p Hp] Hshape].
  destruct (simulate_runs inp g p Hp)
    as (g1 & g2 & g3 & p3 & Hg1 & Hg2 & Hg3 & Hsim & _ & Hp3 & Hgrid & _).
  exists g3, p3. split; [exact Hsim | split; [exact Hp3 |]].
  unfold VampireGame.gameLoop. rewrite Hstate.
  cbv beta iota delta [negb State_eqb]. rewrite Hg1.
  cbv beta iota delta [mbind option_bind]. rewrite Hg2.
  cbv beta iota delta [mbind option_bind]. rewrite <- Hg3, Hp3.
  cbv beta iota delta [mbind option_bind].
  destruct (Player.hp p3 <=? 0)%Z.
  - destruct (VampireGame.gameOver (w, g3)) as [w' g']. reflexivity.
  - rewrite (render_runs (renderNow inp) g3 p3 Hp3) by (rewrite Hgrid; exact Hshape).
    reflexivity.
Qed.

(** X10.  Safety.  [init] succeeds exactly on a game that was constructed
    with a canvas, whatever else the game holds, and then leaves a game
    that is [ready] (a player, and a previous frame of the grid's
    shape); on a game whose canvas is [null] it is a [TypeError].  On a
    ready game the simulation and the render of [gameLoop] never raise
    a [TypeError], in any state and for any input, and leave the game
    ready for the next call. *)
Theorem gameLoop_never_throws :
  (forall now ov h w g,
     (VampireGame.canvas g = true ->
      exists ui writes,
        GameUI.init now (ov, h, w, g) = Some (ui, writes) /\
        ready ui.2 /\ VampireGame.canvas ui.2 = true) /\
     (VampireGame.canvas g = false -> GameUI.init now (ov, h, w, g) = None)) /\
  (forall inp w g, ready g ->
     exists w' g' writes,
       VampireGame.gameLoop inp (w, g) = Some (w', g', writes) /\ ready g').
Proof.
  split.
  - intros now ov h w g. split.
    + intros Hc. rewrite (init_fresh now ov h w g Hc).
      eexists. eexists. split; [reflexivity |]. split; [| exact Hc].
      split; [eexists; reflexivity |].
      apply paint_shape, blankGrid_shape.
    + apply init_no_canvas.
  - intros inp w g Hready.
    destruct (VampireGame.state g) eqn:Hstate;
      try (exists w, g, []; split; [| exact Hready];
           unfold VampireGame.gameLoop; rewrite Hstate; reflexivity).
    destruct (gameLoop_playing inp w g Hstate Hready) as (g3 & p3 & Hsim & Hp3 & ->).
    destruct Hready as [[p Hp] Hshape].
    destruct (simulate_runs inp g p Hp)
      as (g1 & g2 & g3' & p3' & _ & _ & _ & Hsim' & _ & _ & Hgrid & _).
    rewrite Hsim in Hsim'. injection Hsim' as <-.
    destruct (Player.hp p3 <=? 0)%Z.
    + eexists. eexists. eexists. split; [reflexivity |].
      split; [exists p3; exact Hp3 | rewrite <- Hgrid in Hshape; exact Hshape].
    + eexists. eexists. eexists. split; [reflexivity |].
      split; [exists p3; exact Hp3 | apply buildFrame_shape].
Qed.

End Loop.

(** [gameLoop_never_throws] on the two games that [initVampireWindow] can
    construct: without the canvas [init] throws; with it [init] returns,
    and a first tick of the game once started returns as well. *)
Lemma gameLoop_never_throws_witness :
  let ov := GameUI.mkOverlays None None (Some false) true in
  let h := GameUI.mkHud (Some "") (Some "") (Some "") in
  GameUI.init 0 (ov, h, pageWith 1, VampireGame.construct false) = None /\
  exists ui writes,
    GameUI.init 0 (ov, h, pageWith 1, VampireGame.new) = Some (ui, writes) /\
    ready ui.2 /\
    exists w' g' writes',
      VampireGame.gameLoop (host := approxHost) (mkTick 1016 1016 0.3 0.5 1016 2)
        (VampireGame.start 1000 1 (pageWith 1, ui.2)) = Some (w', g', writes') /\
      ready g'.
Proof.
  cbv zeta.
  destruct (gameLoop_never_throws (host := approxHost)) as [Hinit Hloop].
  destruct (Hinit 0 (GameUI.mkOverlays None None (Some false) true)
              (GameUI.mkHud (Some "") (Some "") (Some "")) (pageWith 1)
              (VampireGame.construct false)) as [_ Hnone].
  destruct (Hinit 0 (GameUI.mkOverlays None None (Some false) true)
              (GameUI.mkHud (Some "") (Some "") (Some "")) (pageWith 1)
              VampireGame.new) as [Hsome _].
  split; [exact (Hnone eq_refl) |].
  destruct (Hsome eq_refl) as (ui & writes & Hrun & Hready & _).
  exists ui, writes. split; [exact Hrun |]. split; [exact Hready |].
  destruct ui as [[[ov1 h1] w1] g1]. cbn [snd] in *.
  destruct (VampireGame.start 1000 1 (pageWith 1, g1)) as [w2 g2] eqn:Hstart.
  apply (Hloop (mkTick 1016 1016 0.3 0.5 1016 2) w2 g2).
  unfold VampireGame.start in Hstart.
  destruct (State_eqb (VampireGame.state g1) playing);
    apply pair_equal_spec in Hstart as [_ <-]; exact Hready.
Defined.

Section Outcome.
Context `{host : MathHost}.

Lemma moveEntities_frame now dt g g1 :
  VampireGame.moveEntities now dt g = Some g1 ->
  VampireGame.wave g1 = VampireGame.wave g /\
  VampireGame.score g1 = VampireGame.score g /\
  VampireGame.xpGems g1 = VampireGame.xpGems g.
Proof.
  unfold VampireGame.moveEntities. destruct (VampireGame.player g) as [p |]; [| discriminate].
  cbv beta iota delta [mbind option_bind].
  destruct (Player.canAttack _ _); intros Hq; injection Hq as <-; repeat split.
Qed.

Lemma moveEntities_hp now dt g g1 p :
  VampireGame.moveEntities now dt g = Some g1 ->
  VampireGame.player g = Some p ->
  exists p1, VampireGame.player g1 = Some p1 /\ Player.hp p1 = Player.hp p.
Proof.
  unfold VampireGame.moveEntities. intros Hq Hp. rewrite Hp in Hq.
  cbv beta iota delta [mbind option_bind] in Hq.
  assert (forall q, Player.hp (Player.update dt q) = Player.hp q) as Hupd.
  { intros q. unfold Player.update. destruct (Player.invincible q); reflexivity. }
  assert (Player.hp (Player.handleInput (VampireGame.keys g) dt p) = Player.hp p) as Hin.
  { unfold Player.handleInput. destruct (Player.inputDirection _). reflexivity. }
  destruct (Player.canAttack _ _); injection Hq as <-; eexists;
    (split; [reflexivity |]); rewrite Hupd; cbn [Player.hp]; exact Hin.
Qed.

Lemma checkCollisions_wave g g' :
  VampireGame.checkCollisions g = Some g' -> VampireGame.wave g' = VampireGame.wave g.
Proof.
  destruct (VampireGame.player g) as [p |] eqn:Hp.
  - destruct (checkCollisions_loops g p Hp)
      as (p1 & es1 & ps2 & es2 & sc2 & gems2 & gems3 & sc3 & _ & _ & _ & ->).
    intros Hq. injection Hq as <-. reflexivity.
  - unfold VampireGame.checkCollisions. rewrite Hp. discriminate.
Qed.

Lemma wave_cleanup_frame r1 r2 dt g :
  let g' := VampireGame.cleanup (VampireGame.updateWave r1 r2 dt g) in
  (VampireGame.wave g <= VampireGame.wave g' <= VampireGame.wave g + 1)%Z /\
  VampireGame.score g' = VampireGame.score g /\
  VampireGame.xpGems g' = List.filter XPGem.active (VampireGame.xpGems g).
Proof.
  unfold VampireGame.updateWave, VampireGame.cleanup.
  rewrite !filter_guarded.
  destruct (Qle_bool WAVE_DURATION _); cbn -[VampireGame.spawnDue VampireGame.spawnPosition];
    destruct (VampireGame.spawnDue _ _ _); cbn -[VampireGame.spawnPosition];
    repeat split; lia.
Qed.

Lemma collectedValue_nonneg px py gems :
  Forall (fun gem => XPGem.value gem = 10%Z) gems ->
  (0 <= collectedValue px py gems)%Z.
Proof.
  induction 1 as [| gem gems Hv _ IH]; simpl; [lia |].
  destruct (gemInReach px py gem); lia.
Qed.

Lemma gameOver_page w g :
  let r := VampireGame.gameOver (w, g) in
  VampireGame.state r.2 = gameover /\ VampireGame.animationId r.2 = None /\
  VampireGame.prevGrid r.2 = VampireGame.prevGrid g /\
  keyupListener r.1 = false /\ keydownListener r.1 = keydownListener w /\
  frameRequests r.1 ⊆ frameRequests w /\
  VampireGame.player r.2 = VampireGame.player g /\
  VampireGame.lastTimestamp r.2 = VampireGame.lastTimestamp g.
Proof.
  unfold VampireGame.gameOver. cbn.
  destruct (VampireGame.animationId g); cbn; repeat split; auto.
  apply subseteq_difference_l. reflexivity.
Qed.

(** A tick of a playing game returns, and whether it ends the run. *)
Lemma gameLoop_state inp w g :
  VampireGame.state g = playing ->
  ready g ->
  exists w' g' writes p',
    VampireGame.gameLoop inp (w, g) = Some (w', g', writes) /\
    VampireGame.player g' = Some p' /\
    ((Player.hp p' <= 0)%Z -> VampireGame.state g' = gameover /\ writes = []) /\
    ((0 < Player.hp p')%Z -> VampireGame.state g' = playing).
Proof.
  intros Hstate Hready.
  destruct (gameLoop_playing inp w g Hstate Hready) as (g3 & p3 & Hsim & Hp3 & ->).
  destruct Hready as [[p Hp] Hshape].
  destruct (simulate_runs inp g p Hp)
    as (g1 & g2 & g3' & p3' & _ & _ & _ & Hsim' & _ & _ & _ & Hst & _).
  rewrite Hsim in Hsim'. injection Hsim' as <-.
  destruct (Player.hp p3 <=? 0)%Z eqn:Hdead.
  - apply Z.leb_le in Hdead.
    destruct (gameOver_page w g3) as (Hs & _ & _ & _ & _ & _ & Hpl & _).
    eexists. eexists. eexists. exists p3. split; [reflexivity |].
    split; [rewrite Hpl; exact Hp3 |]. split; [auto | intros; lia].
  - apply Z.leb_gt in Hdead.
    eexists. eexists. eexists. exists p3. split; [reflexivity |].
    cbn [VampireGame.player VampireGame.state VampireGame.setPrevGrid
         VampireGame.setAnimationId].
    split; [exact Hp3 |]. split; [intros; lia |].
    intros _. rewrite Hst. exact Hstate.
Qed.


(** X11.  The end of the run.  A tick of a playing game ends the run exactly
    when the player has no hit points left after the tick's cleanup: the
    state is then [gameover], nothing is rendered, no frame is requested
    and the key-up listener is removed.  Otherwise the state stays
    [playing] and exactly the frame [frameId] is requested.  Either way
    the time base is the tick's timestamp. *)
Theorem gameLoop_outcome inp w g :
  VampireGame.state g = playing ->
  ready g ->
  exists w' g' writes p',
    VampireGame.gameLoop inp (w, g) = Some (w', g', writes) /\
    VampireGame.player g' = Some p' /\
    VampireGame.lastTimestamp g' = timestamp inp /\
    ((Player.hp p' <= 0)%Z ->
     VampireGame.state g' = gameover /\ VampireGame.animationId g' = None /\
     writes = [] /\ VampireGame.prevGrid g' = VampireGame.prevGrid g /\
     keyupListener w' = false /\ keydownListener w' = keydownListener w /\
     frameRequests w' ⊆ frameRequests w) /\
    ((0 < Player.hp p')%Z ->
     VampireGame.state g' = playing /\
     VampireGame.animationId g' = Some (frameId inp) /\
     frameRequests w' = {[ frameId inp ]} ∪ frameRequests w /\
     keyupListener w' = keyupListener w /\ keydownListener w' = keydownListener w /\
     starfield w' = starfield w).
Proof.
  intros Hstate Hready.
  destruct (gameLoop_playing inp w g Hstate Hready) as (g3 & p3 & Hsim & Hp3 & ->).
  destruct Hready as [[p Hp] Hshape].
  destruct (simulate_runs inp g p Hp)
    as (g1 & g2 & g3' & p3' & _ & _ & _ & Hsim' & _ & _ & Hgrid & Hst & Hts & Hid & _).
  rewrite Hsim in Hsim'. injection Hsim' as <-.
  destruct (Player.hp p3 <=? 0)%Z eqn:Hdead.
  - apply Z.leb_le in Hdead.
    destruct (gameOver_page w g3) as (Hs & Ha & Hg & Hku & Hkd & Hfr & Hpl & Hlt).
    eexists. eexists. eexists. exists p3. split; [reflexivity |].
    split; [rewrite Hpl; exact Hp3 |]. split; [rewrite Hlt; exact Hts |].
    split; [| intros; lia].
    intros _. rewrite Hg, Hgrid. auto 10.
  - apply Z.leb_gt in Hdead.
    eexists. eexists. eexists. exists p3. split; [reflexivity |].
    cbn [VampireGame.player VampireGame.lastTimestamp VampireGame.state
         VampireGame.animationId VampireGame.setPrevGrid VampireGame.setAnimationId
         keyupListener keydownListener frameRequests starfield requestAnimationFrame].
    split; [exact Hp3 |]. split; [exact Hts |]. split; [intros; lia |].
    intros _. rewrite Hst, Hstate. repeat split.
Qed.

(** X12.  What a tick can only do one way.  Over a tick of a playing game the
    wave goes up by one or stays, the score never goes down, the player
    keeps its hit points or loses [ENEMY_DAMAGE] of them, and every gem
    is still worth ten points. *)
Theorem gameLoop_monotone inp w g w' g' writes p :
  VampireGame.state g = playing ->
  ready g ->
  gemsWorthTen g ->
  VampireGame.player g = Some p ->
  VampireGame.gameLoop inp (w, g) = Some (w', g', writes) ->
  (VampireGame.wave g <= VampireGame.wave g' <= VampireGame.wave g + 1)%Z /\
  (VampireGame.score g <= VampireGame.score g')%Z /\
  gemsWorthTen g' /\
  exists p', VampireGame.player g' = Some p' /\
             (Player.hp p' = Player.hp p \/
              Player.hp p' = (Player.hp p - ENEMY_DAMAGE)%Z).
Proof.
  intros Hstate Hready Hgems Hp Hrun.
  destruct (gameLoop_playing inp w g Hstate Hready) as (g3 & p3 & Hsim & Hp3 & Hloop).
  rewrite Hloop in Hrun. clear Hloop.
  destruct (simulate_runs inp g p Hp)
    as (g1 & g2 & g3' & p3' & Hg1 & Hg2 & Hg3 & Hsim' & Hp2 & Hp3' & _).
  rewrite Hsim in Hsim'. injection Hsim' as <-.
  rewrite Hp3 in Hp3'. injection Hp3' as <-.
  destruct (moveEntities_frame _ _ _ _ Hg1) as (Hw1 & Hs1 & Hx1).
  pose proof (checkCollisions_wave _ _ Hg2) as Hw2.
  destruct (moveEntities_hp _ _ _ _ p Hg1 Hp) as (p1 & Hp1 & Hhp1).
  destruct (checkCollisions_gems_spec g1 g2 p1 Hp1 Hg2) as (fresh & Hx2 & Hfresh & Hs2).
  destruct (checkCollisions_player g1 g2 p1 Hp1 Hg2) as (p2 & Hp2' & _ & _ & _ & _ & Hhp2).
  rewrite Hp2 in Hp2'. injection Hp2' as <-.
  destruct (wave_cleanup_frame (randomSide inp) (randomAlong inp)
              (timestamp inp - VampireGame.lastTimestamp g) g2) as (Hw3 & Hs3 & Hx3).
  rewrite <- Hg3 in Hw3, Hs3, Hx3.
  cbn [VampireGame.setLastTimestamp VampireGame.wave VampireGame.score VampireGame.xpGems]
    in Hw1, Hs1, Hx1.
  assert (gemsWorthTen g3) as Hgems3.
  { unfold gemsWorthTen. rewrite Hx3, Hx2, Hx1.
    apply Forall_forall. intros gem Hin.
    apply list_elem_of_In, List.filter_In in Hin as [Hin _].
    apply list_elem_of_In, elem_of_app in Hin as [Hin | Hin].
    - apply list_elem_of_fmap in Hin as (gem0 & -> & Hin0).
      pose proof (proj1 (Forall_forall _ _) Hgems gem0 Hin0) as Hv. simpl in Hv.
      unfold collect. destruct (gemInReach _ _ _); [exact Hv | exact Hv].
    - apply (proj1 (Forall_forall _ _) Hfresh gem Hin). }
  assert ((VampireGame.score g <= VampireGame.score g3)%Z) as Hscore.
  { rewrite Hs3, Hs2, Hs1.
    pose proof (collectedValue_nonneg (Player.x p1) (Player.y p1) (VampireGame.xpGems g1)) as Hnn.
    rewrite Hx1 in Hnn. specialize (Hnn Hgems). rewrite Hx1. lia. }
  assert ((VampireGame.wave g <= VampireGame.wave g3 <= VampireGame.wave g + 1)%Z) as Hwave
    by lia.
  assert (Player.hp p3 = Player.hp p \/ Player.hp p3 = (Player.hp p - ENEMY_DAMAGE)%Z) as Hhp
    by (rewrite <- Hhp1; exact Hhp2).
  destruct (Player.hp p3 <=? 0)%Z;
    apply Some_pair_inj in Hrun as [Hrun _];
    apply pair_equal_spec in Hrun as [_ <-].
  - unfold VampireGame.gameOver, gemsWorthTen.
    cbn [snd VampireGame.wave VampireGame.score VampireGame.xpGems VampireGame.player
         VampireGame.setState VampireGame.setAnimationId].
    split; [exact Hwave | split; [exact Hscore | split; [exact Hgems3 |]]].
    exists p3. auto.
  - unfold gemsWorthTen.
    cbn [VampireGame.wave VampireGame.score VampireGame.xpGems VampireGame.player
         VampireGame.setPrevGrid VampireGame.setAnimationId].
    split; [exact Hwave | split; [exact Hscore | split; [exact Hgems3 |]]].
    exists p3. auto.
Qed.

End Outcome.

(** [gameLoop_outcome] on a new game with an enemy half a unit above the
    player, for a tick of 16 ms. *)
Lemma gameLoop_outcome_witness :
  let inp := mkTick 16 1000 0.3 0.5 1000 2 in
  let g := playingWith (Player.new 15 7) [Enemy.new 15 6.5] [] [] in
  VampireGame.state g = playing /\
  ready g /\
  exists w' g' writes p',
    VampireGame.gameLoop (host := approxHost) inp (pageWith 1, g) = Some (w', g', writes) /\
    VampireGame.player g' = Some p' /\
    VampireGame.lastTimestamp g' = timestamp inp /\
    ((Player.hp p' <= 0)%Z ->
     VampireGame.state g' = gameover /\ VampireGame.animationId g' = None /\
     writes = [] /\ VampireGame.prevGrid g' = VampireGame.prevGrid g /\
     keyupListener w' = false /\ keydownListener w' = keydownListener (pageWith 1) /\
     frameRequests w' ⊆ frameRequests (pageWith 1)) /\
    ((0 < Player.hp p')%Z ->
     VampireGame.state g' = playing /\
     VampireGame.animationId g' = Some (frameId inp) /\
     frameRequests w' = {[ frameId inp ]} ∪ frameRequests (pageWith 1) /\
     keyupListener w' = keyupListener (pageWith 1) /\
     keydownListener w' = keydownListener (pageWith 1) /\
     starfield w' = starfield (pageWith 1)).
Proof.
  cbv zeta.
  assert (ready (playingWith (Player.new 15 7) [Enemy.new 15 6.5] [] [])) as Hready.
  { split; [eexists; reflexivity | apply blankGrid_shape]. }
  split; [reflexivity |]. split; [exact Hready |].
  exact (gameLoop_outcome (host := approxHost) (mkTick 16 1000 0.3 0.5 1000 2) (pageWith 1)
           (playingWith (Player.new 15 7) [Enemy.new 15 6.5] [] []) eq_refl Hready).
Defined.

(** [gameLoop_monotone] on the same game with a gem under the player: the
    tick runs, and the player has 100 hit points or 90. *)
Lemma gameLoop_monotone_witness :
  let inp := mkTick 16 1000 0.3 0.5 1000 2 in
  let g := playingWith (Player.new 15 7) [Enemy.new 15 6.5] [] [XPGem.new 15 7] in
  exists w' g' writes,
    VampireGame.gameLoop (host := approxHost) inp (pageWith 1, g) = Some (w', g', writes) /\
    (VampireGame.wave g <= VampireGame.wave g' <= VampireGame.wave g + 1)%Z /\
    (VampireGame.score g <= VampireGame.score g')%Z /\
    gemsWorthTen g' /\
    exists p', VampireGame.player g' = Some p' /\
               (Player.hp p' = 100%Z \/ Player.hp p' = (100 - ENEMY_DAMAGE)%Z).
Proof.
  cbv zeta.
  assert (ready (playingWith (Player.new 15 7) [Enemy.new 15 6.5] [] [XPGem.new 15 7]))
    as Hready.
  { split; [eexists; reflexivity | apply blankGrid_shape]. }
  assert (gemsWorthTen (playingWith (Player.new 15 7) [Enemy.new 15 6.5] [] [XPGem.new 15 7]))
    as Hgems.
  { repeat constructor. }
  eexists. eexists. eexists.
  match goal with
  | |- ?run = Some (?w', ?g', ?writes) /\ _ =>
      assert (run = Some (w', g', writes)) as Hrun by (vm_compute; reflexivity)
  end.
  split; [exact Hrun |].
  exact (gameLoop_monotone (host := approxHost) (mkTick 16 1000 0.3 0.5 1000 2) (pageWith 1)
           (playingWith (Player.new 15 7) [Enemy.new 15 6.5] [] [XPGem.new 15 7])
           _ _ _ (Player.new 15 7) eq_refl Hready Hgems eq_refl Hrun).
Defined.

(** ** Spawning *)

Lemma Qfloor_quarter (r : Q) :
  0 <= r < 1 ->
  Qfloor (r * 4) = 0%Z \/ Qfloor (r * 4) = 1%Z \/
  Qfloor (r * 4) = 2%Z \/ Qfloor (r * 4) = 3%Z.
Proof.
  intros [Hlo Hhi].
  assert (0 <= Qfloor (r * 4))%Z as H0.
  { change 0%Z with (Qfloor 0). apply Qfloor_resp_le. lra. }
  assert (Qfloor (r * 4) < 4)%Z as H4.
  { pose proof (Qfloor_le (r * 4)) as Hle.
    rewrite Zlt_Qlt. change (inject_Z 4) with 4. lra. }
  lia.
Qed.

(** X13.  Where enemies appear.  With both draws of [Math.random()] in
    [0, 1), [spawnEnemy] appends one enemy, active and with one hit
    point, on one of the four edges of the arena and on the grid; the
    per-wave count goes up by one, and nothing else changes.  The edge is
    the quarter that the first draw falls in. *)
Theorem spawnEnemy_on_edge (r1 r2 : Q) (g : VampireGame.t) :
  0 <= r1 < 1 -> 0 <= r2 < 1 ->
  exists e,
    VampireGame.enemies (VampireGame.spawnEnemy r1 r2 g) = VampireGame.enemies g ++ [e] /\
    Enemy.active e = true /\ Enemy.hp e = 1%Z /\
    onGrid (Enemy.x e) (Enemy.y e) /\
    ((r1 < 1 # 4 /\ Enemy.y e == 0) \/
     (1 # 4 <= r1 < 1 # 2 /\ Enemy.x e == inject_Z CANVAS_WIDTH - 1) \/
     (1 # 2 <= r1 < 3 # 4 /\ Enemy.y e == inject_Z CANVAS_HEIGHT - 1) \/
     (3 # 4 <= r1 /\ Enemy.x e == 0)) /\
    VampireGame.enemiesSpawnedThisWave (VampireGame.spawnEnemy r1 r2 g)
      = (VampireGame.enemiesSpawnedThisWave g + 1)%Z /\
    VampireGame.player (VampireGame.spawnEnemy r1 r2 g) = VampireGame.player g /\
    VampireGame.projectiles (VampireGame.spawnEnemy r1 r2 g) = VampireGame.projectiles g /\
    VampireGame.xpGems (VampireGame.spawnEnemy r1 r2 g) = VampireGame.xpGems g /\
    VampireGame.score (VampireGame.spawnEnemy r1 r2 g) = VampireGame.score g.
Proof.
  intros Hr1 Hr2.
  eexists. split; [reflexivity |].
  split; [reflexivity |]. split; [reflexivity |].
  split; [| split; [| repeat split]].
  - unfold VampireGame.spawnPosition, onGrid.
    change (inject_Z CANVAS_WIDTH) with 30. change (inject_Z CANVAS_HEIGHT) with 15.
    cbn [Enemy.x Enemy.y Enemy.new].
    destruct (Qfloor_quarter r1 Hr1) as [-> | [-> | [-> | ->]]];
      cbn [fst snd]; lra.
  - pose proof (Qfloor_le (r1 * 4)) as Hle.
    pose proof (Qlt_floor (r1 * 4)) as Hlt.
    unfold VampireGame.spawnPosition. cbn [Enemy.x Enemy.y Enemy.new].
    destruct (Qfloor_quarter r1 Hr1) as [Hq | [Hq | [Hq | Hq]]];
      rewrite Hq in Hle, Hlt |- *; cbn [fst snd];
      [left | right; left | right; right; left | right; right; right];
      (split; [| reflexivity]);
      change (inject_Z 0) with 0 in Hle; change (inject_Z 1) with 1 in Hle;
      change (inject_Z 2) with 2 in Hle; change (inject_Z 3) with 3 in Hle;
      change (inject_Z (0 + 1)) with 1 in Hlt; change (inject_Z (1 + 1)) with 2 in Hlt;
      change (inject_Z (2 + 1)) with 3 in Hlt; change (inject_Z (3 + 1)) with 4 in Hlt;
      lra.
Qed.

(** [spawnEnemy_on_edge] with the draws 0.6 and 0.5: the third quarter,
    hence the bottom edge, half way along. *)
Lemma spawnEnemy_on_edge_witness :
  0 <= 0.6 < 1 /\ 0 <= 0.5 < 1 /\
  exists e,
    VampireGame.enemies (VampireGame.spawnEnemy 0.6 0.5 crowded)
      = VampireGame.enemies crowded ++ [e] /\
    Enemy.x e == 15 /\ Enemy.y e == 14.
Proof.
  split; [lra |]. split; [lra |].
  destruct (spawnEnemy_on_edge 0.6 0.5 crowded ltac:(lra) ltac:(lra))
    as (e & He & _).
  exists e. split; [exact He |].
  apply app_inj_tail in He as [_ <-]. split; reflexivity.
Defined.

(** ** The layers of a frame *)

Lemma onCell_inGrid pos y x :
  (y < VampireGame.rows)%nat -> (x < VampireGame.cols)%nat ->
  onCell y x pos = true -> VampireGame.inGrid pos = true.
Proof.
  intros Hy Hx Hon. apply bool_decide_eq_true_1 in Hon. subst pos.
  unfold VampireGame.inGrid, VampireGame.rows, VampireGame.cols in *. cbn [fst snd].
  rewrite !andb_true_iff, !Z.leb_le, !Z.ltb_lt. lia.
Qed.

Lemma cellAt_paint pos c grid y x :
  gridShape grid -> (y < VampireGame.rows)%nat -> (x < VampireGame.cols)%nat ->
  cellAt (VampireGame.paint pos c grid) y x =
    if onCell y x pos then Some c else cellAt grid y x.
Proof.
  intros Hshape Hy Hx. unfold VampireGame.paint, onCell.
  destruct (VampireGame.inGrid pos) eqn:Hin.
  - unfold VampireGame.inGrid in Hin.
    apply andb_prop in Hin as [Hin H4]. apply andb_prop in Hin as [Hin H3].
    apply andb_prop in Hin as [H1 H2].
    apply Z.leb_le in H1, H3. apply Z.ltb_lt in H2, H4.
    destruct pos as [px py]. cbn [fst snd] in *.
    unfold cellAt. rewrite list_lookup_alter.
    destruct (decide (Z.to_nat py = y)) as [Hey | Hney].
    + destruct (gridShape_cellAt grid y x Hshape Hy Hx) as (row & c0 & Hrow & Hc0 & _).
      rewrite Hey, Hrow. cbn [fmap option_fmap option_map mbind option_bind].
      destruct (decide (Z.to_nat px = x)) as [Hex | Hnex].
      * rewrite bool_decide_eq_true_2 by (f_equal; lia).
        rewrite Hex. apply list_lookup_insert_eq.
        apply lookup_lt_Some in Hc0. exact Hc0.
      * rewrite bool_decide_eq_false_2 by (intros Hq; injection Hq; lia).
        rewrite list_lookup_insert_ne by exact Hnex. reflexivity.
    + rewrite bool_decide_eq_false_2 by (intros Hq; injection Hq; lia). reflexivity.
  - destruct (bool_decide _) eqn:Hon; [| reflexivity].
    rewrite (onCell_inGrid pos y x Hy Hx Hon) in Hin. discriminate.
Qed.

Lemma paintLooks_shape cls grid looks :
  gridShape grid -> gridShape (paintLooks cls grid looks).
Proof.
  intros Hg. unfold paintLooks.
  apply paintAll_shape; [intros; apply paint_shape; assumption | exact Hg].
Qed.

Lemma paintLooks_cell cls grid looks y x :
  gridShape grid -> (y < VampireGame.rows)%nat -> (x < VampireGame.cols)%nat ->
  cellAt (paintLooks cls grid looks) y x =
    match lookAt y x looks with
    | Some ch => Some {| cellChar := ch; cellClass := cls |}
    | None => cellAt grid y x
    end.
Proof.
  intros Hshape Hy Hx.
  induction looks as [| lk looks IH] using rev_ind; [reflexivity |].
  unfold paintLooks, lookAt in *. rewrite foldl_snoc.
  rewrite cellAt_paint; [| apply (paintLooks_shape cls grid looks Hshape) | exact Hy | exact Hx].
  rewrite List.filter_app. cbn [List.filter].
  destruct (onCell y x lk.1).
  - rewrite fmap_app. cbn [fmap list_fmap]. rewrite last_snoc. reflexivity.
  - rewrite app_nil_r. exact IH.
Qed.

(** X19.  What a frame shows at a cell.  The player, when it is drawn, is on
    top; under it come the enemies, then the projectiles, then the gems,
    and within an array the last entity standing on the cell; a cell
    that nothing stands on is empty.  While the invincible player blinks
    off, the cell shows what is under it. *)
Theorem buildFrame_layers now p es ps gems (y x : nat) :
  (y < VampireGame.rows)%nat -> (x < VampireGame.cols)%nat ->
  cellAt (VampireGame.buildFrame now p es ps gems) y x =
    Some (if VampireGame.showPlayer now p &&
             onCell y x (getGridPos (Player.x p) (Player.y p))
          then {| cellChar := Player.char p; cellClass := "game-player" |}
          else match lookAt y x (enemyLook <$> es),
                     lookAt y x (projectileLook <$> ps),
                     lookAt y x (gemLook <$> gems) with
               | Some ch, _, _ => {| cellChar := ch; cellClass := "game-enemy" |}
               | None, Some ch, _ => {| cellChar := ch; cellClass := "game-projectile" |}
               | None, None, Some ch => {| cellChar := ch; cellClass := "game-xp" |}
               | None, None, None => VampireGame.emptyCell
               end).
Proof.
  intros Hy Hx. rewrite buildFrame_looks. cbv zeta.
  pose proof (paintLooks_shape "game-xp" VampireGame.blankGrid (gemLook <$> gems)
                blankGrid_shape) as H1.
  pose proof (paintLooks_shape "game-projectile" _ (projectileLook <$> ps) H1) as H2.
  pose proof (paintLooks_shape "game-enemy" _ (enemyLook <$> es) H2) as H3.
  assert (cellAt VampireGame.blankGrid y x = Some VampireGame.emptyCell) as Hblank.
  { unfold cellAt, VampireGame.blankGrid.
    rewrite lookup_replicate_2 by exact Hy. cbn [mbind option_bind].
    apply lookup_replicate_2. exact Hx. }
  assert (cellAt (paintLooks "game-enemy"
                    (paintLooks "game-projectile"
                       (paintLooks "game-xp" VampireGame.blankGrid (gemLook <$> gems))
                       (projectileLook <$> ps)) (enemyLook <$> es)) y x
          = Some match lookAt y x (enemyLook <$> es),
                       lookAt y x (projectileLook <$> ps),
                       lookAt y x (gemLook <$> gems) with
                 | Some ch, _, _ => {| cellChar := ch; cellClass := "game-enemy" |}
                 | None, Some ch, _ => {| cellChar := ch; cellClass := "game-projectile" |}
                 | None, None, Some ch => {| cellChar := ch; cellClass := "game-xp" |}
                 | None, None, None => VampireGame.emptyCell
                 end) as Hunder.
  { rewrite (paintLooks_cell _ _ _ y x H2 Hy Hx).
    destruct (lookAt y x (enemyLook <$> es)); [reflexivity |].
    rewrite (paintLooks_cell _ _ _ y x H1 Hy Hx).
    destruct (lookAt y x (projectileLook <$> ps)); [reflexivity |].
    rewrite (paintLooks_cell _ _ _ y x blankGrid_shape Hy Hx).
    destruct (lookAt y x (gemLook <$> gems)); [reflexivity | exact Hblank]. }
  change (playerLook p).1 with (getGridPos (Player.x p) (Player.y p)).
  change (playerLook p).2 with (Player.char p).
  destruct (VampireGame.showPlayer now p).
  - rewrite andb_true_r. cbn [andb].
    destruct (VampireGame.inGrid _) eqn:Hin.
    + rewrite (cellAt_paint _ _ _ y x H3 Hy Hx).
      destruct (onCell y x _); [reflexivity | exact Hunder].
    + destruct (onCell y x _) eqn:Hon; [| exact Hunder].
      rewrite (onCell_inGrid _ y x Hy Hx Hon) in Hin. discriminate.
  - rewrite andb_false_r. cbn [andb]. exact Hunder.
Qed.

(** [buildFrame_layers] at the cell of an invincible player standing on an
    enemy and a gem: at 1100 ms it blinks off and the enemy shows, at
    1000 ms the player does. *)
Lemma buildFrame_layers_witness :
  (7 < VampireGame.rows)%nat /\ (15 < VampireGame.cols)%nat /\
  cellAt (VampireGame.buildFrame 1100 justHitPlayer [Enemy.new 15.5 7.2] []
            [XPGem.new 15 7]) 7 15
    = Some {| cellChar := CHAR_ENEMY; cellClass := "game-enemy" |} /\
  cellAt (VampireGame.buildFrame 1000 justHitPlayer [Enemy.new 15.5 7.2] []
            [XPGem.new 15 7]) 7 15
    = Some {| cellChar := CHAR_PLAYER; cellClass := "game-player" |}.
Proof.
  assert (7 < VampireGame.rows)%nat as Hy by (vm_compute; lia).
  assert (15 < VampireGame.cols)%nat as Hx by (vm_compute; lia).
  split; [exact Hy |]. split; [exact Hx |].
  rewrite !(fun now => buildFrame_layers now justHitPlayer [Enemy.new 15.5 7.2] []
                         [XPGem.new 15 7] 7 15 Hy Hx).
  split; vm_compute; reflexivity.
Defined.

(** ** Pause and resume, restart *)

(** X14.  The round trip of a pause.  [pause] and then [resume] at [now] on a
    playing game give the game back with the time base [now] and the
    new frame handle, and nothing else changed: the time spent paused
    never enters a tick.  On the page the old frame request is
    cancelled, the new one is pending and the background animation is
    stopped again. *)
Theorem pause_resume_roundtrip (now : Q) (id : positive) (w : World) (g : VampireGame.t) :
  VampireGame.state g = playing ->
  let r := VampireGame.resume now id (VampireGame.pause (w, g)) in
  r.2 = VampireGame.setAnimationId (Some id) (VampireGame.setLastTimestamp now g) /\
  starfield r.1 = (fun _ => false) <$> starfield w /\
  keydownListener r.1 = keydownListener w /\
  keyupListener r.1 = keyupListener w /\
  frameRequests r.1
    = {[ id ]} ∪ match VampireGame.animationId g with
                | Some old => frameRequests w ∖ {[ old ]}
                | None => frameRequests w
                end.
Proof.
  intros Hstate. destruct g as [cv st pl es ps gems wv sc wt spt n ks lt aid prev].
  cbn in Hstate. subst st.
  unfold VampireGame.pause, VampireGame.resume. cbn.
  split; [reflexivity |].
  destruct aid; cbn; destruct (starfield w); repeat split.
Qed.

(** [pause_resume_roundtrip] on the crowded game with frame request 7
    pending, resumed at 9000 ms with request 8. *)
Lemma pause_resume_roundtrip_witness :
  let g := VampireGame.setAnimationId (Some 7%positive) crowded in
  let r := VampireGame.resume 9000 8 (VampireGame.pause (pageWith 7, g)) in
  VampireGame.state g = playing /\
  VampireGame.state r.2 = playing /\
  VampireGame.lastTimestamp r.2 = 9000 /\
  VampireGame.enemies r.2 = VampireGame.enemies crowded /\
  frameRequests r.1 = {[ 8%positive ]} ∪ ({[ 7%positive ]} ∖ {[ 7%positive ]}).
Proof.
  cbv zeta.
  destruct (pause_resume_roundtrip 9000 8 (pageWith 7)
              (VampireGame.setAnimationId (Some 7%positive) crowded) eq_refl)
    as (Hg & _ & _ & _ & Hfr).
  split; [reflexivity |].
  rewrite Hg, Hfr. repeat split.
Defined.

Lemma start_fresh now id w g :
  VampireGame.canvas g = true ->
  VampireGame.state g <> playing ->
  exists w', VampireGame.start now id (w, freshFrom g) = (w', freshGame now id) /\
             running id w w'.
Proof.
  intros Hc Hs. unfold VampireGame.start.
  change (VampireGame.state (freshFrom g)) with (VampireGame.state g).
  apply State_eqb_neq in Hs. rewrite Hs.
  eexists. split.
  - f_equal. unfold freshGame, freshFrom, VampireGame.new, VampireGame.construct.
    cbn [VampireGame.setAnimationId VampireGame.setLastTimestamp VampireGame.setState
         VampireGame.canvas VampireGame.state VampireGame.player VampireGame.enemies
         VampireGame.projectiles VampireGame.xpGems VampireGame.wave VampireGame.score
         VampireGame.waveTimer VampireGame.spawnTimer VampireGame.enemiesSpawnedThisWave
         VampireGame.keys VampireGame.lastTimestamp VampireGame.animationId
         VampireGame.prevGrid].
    rewrite Hc. reflexivity.
  - unfold running. cbn. destruct (starfield w); repeat split; set_solver.
Qed.

(** X15.  Every way to restart leaves nothing of the previous run.  The [R]
    key on the game-over screen, the restart button of the pause menu,
    and closing the window and pressing the start button again all give
    the same game: the player alone at the centre with full hit points,
    wave 1, score 0, no key held, in the [playing] state with the time
    base [now].  None of them throws; each one's render writes the
    player's cell only, and the HUD shows the fresh values.  The game
    has its canvas: the three handlers are registered only once the
    first [init] has returned. *)
Theorem restart_fresh (now : Q) (id : positive) (ov : GameUI.Overlays) (h : GameUI.Hud)
    (w : World) (g : VampireGame.t) :
  VampireGame.canvas g = true ->
  (forall tag, tag <> "INPUT" -> VampireGame.state g = gameover ->
     exists w',
       GameUI.handleKeyDown (GameUI.mkKeyEvent tag "KeyR") now id (ov, h, w, g)
         = Some ((GameUI.hideGameOver ov, freshHud h, w', freshGame now id),
                 [writeOf 7 15 playerCell], false) /\
       running id w w') /\
  (exists w',
     GameUI.pauseRestartClick now id (ov, h, w, g)
       = Some ((GameUI.setPauseOverlay false ov, freshHud h, w', freshGame now id),
               [writeOf 7 15 playerCell]) /\
     running id w w') /\
  (forall now0, is_Some (GameUI.startOverlayHidden ov) ->
     exists ui w',
       GameUI.onClose now0 (ov, h, w, g) = Some (ui, [writeOf 7 15 playerCell]) /\
       VampireGame.state ui.2 = idle /\
       keydownListener ui.1.2 = false /\ keyupListener ui.1.2 = false /\
       GameUI.startButtonClick now id ui
         = Some (GameUI.setStartOverlayHidden true (GameUI.setWindowActive false ov),
                 freshHud h, w', freshGame now id) /\
       running id w w').
Proof.
  intros Hcanvas. split; [| split].
  - intros tag Htag Hstate.
    unfold GameUI.handleKeyDown.
    apply String.eqb_neq in Htag.
    cbn [GameUI.targetTagName GameUI.code]. rewrite Htag.
    change (String.eqb "KeyR" "KeyR") with true.
    change (String.eqb "KeyR" "Escape") with false.
    change (VampireGame.state (GameUI.setKeys _ g)) with (VampireGame.state g).
    rewrite Hstate. cbn [andb State_eqb].
    unfold GameUI.reset. rewrite init_fresh by exact Hcanvas.
    cbv beta iota delta [mbind option_bind].
    match goal with
    | |- context [VampireGame.start now id (?w0, freshFrom ?g0)] =>
        destruct (start_fresh now id w0 g0) as (w' & -> & Hrun)
    end.
    { exact Hcanvas. }
    { change (VampireGame.state (GameUI.setKeys _ g)) with (VampireGame.state g).
      rewrite Hstate. discriminate. }
    exists w'. split; [reflexivity |].
    destruct Hrun as (Hkd & Hku & Hsf & Hfr). repeat split; auto.
  - unfold GameUI.pauseRestartClick.
    destruct (VampireGame.destroy (w, g)) as [w1 g1] eqn:Hd.
    assert (VampireGame.canvas g1 = true) as Hc1.
    { unfold VampireGame.destroy in Hd. apply pair_equal_spec in Hd as [_ <-].
      exact Hcanvas. }
    rewrite init_fresh by exact Hc1. cbv beta iota delta [mbind option_bind].
    destruct (start_fresh now id w1 g1 Hc1) as (w' & -> & Hrun).
    { unfold VampireGame.destroy in Hd. apply pair_equal_spec in Hd as [_ <-].
      discriminate. }
    exists w'. split; [reflexivity |].
    unfold VampireGame.destroy in Hd. apply pair_equal_spec in Hd as [<- _].
    destruct Hrun as (Hkd & Hku & Hsf & Hfr). repeat split; auto.
    rewrite Hsf. cbn. destruct (VampireGame.animationId g); cbn;
      destruct (starfield w); reflexivity.
  - intros now0 [hid Hov].
    destruct ov as [go po so wa]. cbn in Hov. subst so.
    unfold GameUI.onClose.
    destruct (VampireGame.destroy (w, g)) as [w1 g1] eqn:Hd.
    unfold VampireGame.destroy in Hd. apply pair_equal_spec in Hd as [<- <-].
    rewrite init_fresh by exact Hcanvas. cbv beta iota delta [mbind option_bind].
    destruct (start_fresh now id
                (setListeners false false
                   (Starfield_start
                      match VampireGame.animationId (VampireGame.setState idle g) with
                      | Some id0 => cancelAnimationFrame id0 w
                      | None => w
                      end))
                (VampireGame.setAnimationId None (VampireGame.setState idle g)))
      as (w' & Hstart & Hrun); [exact Hcanvas | discriminate |].
    eexists. exists w'. split; [reflexivity |].
    split; [reflexivity |]. split; [reflexivity |]. split; [reflexivity |].
    split.
    + unfold GameUI.startButtonClick.
      cbn [GameUI.startOverlayHidden GameUI.setStartOverlayHidden GameUI.setWindowActive].
      cbv beta iota delta [mbind option_bind].
      rewrite Hstart. reflexivity.
    + destruct Hrun as (Hkd & Hku & Hsf & Hfr). repeat split; auto.
      rewrite Hsf. cbn. destruct (VampireGame.animationId g); cbn;
        destruct (starfield w); reflexivity.
Qed.

(** [restart_fresh] for the [R] key on the crowded game once it is over:
    nothing of the six enemies, the wave clock or the HUD texts is left. *)
Lemma restart_fresh_witness :
  let ov := GameUI.mkOverlays (Some (true, Some "")) (Some false) (Some true) true in
  let h := GameUI.mkHud (Some "3") (Some "120") (Some "") in
  let g := VampireGame.setState gameover crowded in
  VampireGame.canvas g = true /\
  VampireGame.state g = gameover /\
  exists w',
    GameUI.handleKeyDown (GameUI.mkKeyEvent "BODY" "KeyR") 5000 3 (ov, h, pageWith 7, g)
      = Some ((GameUI.hideGameOver ov, freshHud h, w', freshGame 5000 3),
              [writeOf 7 15 playerCell], false) /\
    running 3 (pageWith 7) w'.
Proof.
  cbv zeta. split; [reflexivity |]. split; [reflexivity |].
  exact (proj1 (restart_fresh 5000 3
                  (GameUI.mkOverlays (Some (true, Some "")) (Some false) (Some true) true)
                  (GameUI.mkHud (Some "3") (Some "120") (Some ""))
                  (pageWith 7) (VampireGame.setState gameover crowded) eq_refl)
               "BODY" ltac:(discriminate) eq_refl).
Defined.

(** ** The HUD *)

Lemma hpBlocks_div hp : GameUI.hpBlocks hp = ((hp + 9) / 10)%Z.
Proof.
  unfold GameUI.hpBlocks, Qceiling, Qfloor, PLAYER_MAX_HP. cbn.
  Z.div_mod_to_equations. lia.
Qed.

(** X16.  The health bar.  With the player's hit points between 0 and
    [PLAYER_MAX_HP], [updateHUD] writes a bar of ten segments, of which
    the tenths of the hit points, rounded up, are full: none only at 0
    hit points, all ten only above 90.  It writes wave and score as they
    are.  Above [PLAYER_MAX_HP], or at -10 and below, the bar is a
    [RangeError]. *)
Theorem updateHUD_bar (g : VampireGame.t) (h : GameUI.Hud) (p : Player.t) (old : string) :
  VampireGame.player g = Some p ->
  GameUI.hudHp h = Some old ->
  let n := ((Player.hp p + 9) / 10)%Z in
  ((-10 < Player.hp p <= PLAYER_MAX_HP)%Z ->
   GameUI.updateHUD g h
     = Some {| GameUI.hudWave := (fun _ => pretty (VampireGame.wave g)) <$> GameUI.hudWave h;
               GameUI.hudScore := (fun _ => pretty (VampireGame.score g)) <$> GameUI.hudScore h;
               GameUI.hudHp := Some (bar n) |} /\
   (0 <= n <= 10)%Z /\
   (n = 0 <-> Player.hp p <= 0)%Z /\ (n = 10 <-> 90 < Player.hp p)%Z) /\
  ((Player.hp p <= -10 \/ PLAYER_MAX_HP < Player.hp p)%Z -> GameUI.updateHUD g h = None).
Proof.
  intros Hp Hh n. unfold GameUI.updateHUD. rewrite Hh, Hp.
  cbv beta iota delta [mbind option_bind].
  rewrite hpBlocks_div. fold n.
  unfold GameUI.String_repeat, PLAYER_MAX_HP.
  split.
  - intros Hhp.
    assert (0 <= n <= 10)%Z as Hn by (subst n; Z.div_mod_to_equations; lia).
    destruct (n <? 0)%Z eqn:E1; [apply Z.ltb_lt in E1; lia |].
    destruct (10 - n <? 0)%Z eqn:E2; [apply Z.ltb_lt in E2; lia |].
    split; [destruct (GameUI.hudWave h), (GameUI.hudScore h); reflexivity |].
    split; [exact Hn |].
    subst n; split; split; intros; Z.div_mod_to_equations; lia.
  - intros Hhp.
    destruct (n <? 0)%Z eqn:E1; [reflexivity |].
    destruct (10 - n <? 0)%Z eqn:E2; [reflexivity |].
    apply Z.ltb_ge in E1, E2. subst n. exfalso.
    revert E1 E2. Z.div_mod_to_equations. lia.
Qed.

(** [updateHUD_bar] at 90 hit points, on a page without a score element:
    nine full segments and one light. *)
Lemma updateHUD_bar_witness :
  let g := playingWith justHitPlayer [] [] [] in
  let h := GameUI.mkHud (Some "") None (Some "") in
  VampireGame.player g = Some justHitPlayer /\
  GameUI.hudHp h = Some "" /\
  (-10 < Player.hp justHitPlayer <= PLAYER_MAX_HP)%Z /\
  GameUI.updateHUD g h
    = Some (GameUI.mkHud (Some "1") None (Some "█████████░")).
Proof.
  cbv zeta. split; [reflexivity |]. split; [reflexivity |].
  split; [vm_compute; split; [reflexivity | discriminate] |].
  refine (eq_trans
            (proj1 (proj1 (updateHUD_bar (playingWith justHitPlayer [] [] [])
                             (GameUI.mkHud (Some "") None (Some "")) justHitPlayer ""
                             eq_refl eq_refl) _)) _).
  - vm_compute. split; [reflexivity | discriminate].
  - vm_compute. reflexivity.
Defined.

Section HudLoop.
Context `{host : MathHost}.




End HudLoop.


(** ** The keyboard and the window *)

(** X17.  [Escape] toggles the pause menu.  On a playing game the key pauses
    it and shows the pause overlay; pressed again it hides the overlay
    and resumes, and the game is the one that was paused, with the time
    base of the second press.  Both presses call [preventDefault] and
    write no cell.  On an idle or finished game the key is recorded and
    nothing else happens. *)
Theorem escape_toggles (tag : string) (now1 now2 : Q) (id1 id2 : positive)
    (ov : GameUI.Overlays) (h : GameUI.Hud) (w : World) (g : VampireGame.t) :
  tag <> "INPUT" ->
  let held := GameUI.setKeys (<["Escape" := true]> (VampireGame.keys g)) g in
  (VampireGame.state g = playing ->
   exists w1 g1 w2,
     GameUI.handleKeyDown (escape tag) now1 id1 (ov, h, w, g)
       = Some ((GameUI.setPauseOverlay true ov, h, w1, g1), [], true) /\
     VampireGame.state g1 = paused /\ VampireGame.animationId g1 = None /\
     GameUI.handleKeyDown (escape tag) now2 id2 (GameUI.setPauseOverlay true ov, h, w1, g1)
       = Some ((GameUI.setPauseOverlay false ov, h, w2, restamped now2 id2 held), [], true) /\
     id2 ∈ frameRequests w2) /\
  (VampireGame.state g = idle \/ VampireGame.state g = gameover ->
   GameUI.handleKeyDown (escape tag) now1 id1 (ov, h, w, g)
     = Some ((ov, h, w, held), [], false)).
Proof.
  intros Htag held. apply String.eqb_neq in Htag.
  destruct g as [cv st pl es ps gems wv sc wt spt n ks lt aid prev].
  split.
  - intros Hstate. cbn in Hstate. subst st.
    unfold GameUI.handleKeyDown, escape.
    cbn [GameUI.targetTagName GameUI.code]. rewrite Htag.
    eexists. eexists. eexists.
    split; [reflexivity |]. split; [reflexivity |]. split; [reflexivity |].
    split.
    + cbn. f_equal. f_equal. f_equal. f_equal.
      * destruct ov as [go [po |] so wa]; reflexivity.
      * subst held. rewrite insert_insert_eq. reflexivity.
    + cbn. set_solver.
  - intros Hstate. cbn in Hstate.
    unfold GameUI.handleKeyDown, escape.
    cbn [GameUI.targetTagName GameUI.code]. rewrite Htag.
    destruct Hstate; subst st; reflexivity.
Qed.

(** [escape_toggles] on the crowded game: paused at 5000 ms, resumed at
    9000 ms. *)
Lemma escape_toggles_witness :
  exists w1 g1 w2,
    GameUI.handleKeyDown (escape "BODY") 5000 8
        (GameUI.mkOverlays None (Some false) (Some true) true,
         GameUI.mkHud None None None, pageWith 7,
         VampireGame.setAnimationId (Some 7%positive) crowded)
      = Some ((GameUI.mkOverlays None (Some true) (Some true) true,
               GameUI.mkHud None None None, w1, g1), [], true) /\
    VampireGame.state g1 = paused /\
    GameUI.handleKeyDown (escape "BODY") 9000 9
        (GameUI.mkOverlays None (Some true) (Some true) true,
         GameUI.mkHud None None None, w1, g1)
      = Some ((GameUI.mkOverlays None (Some false) (Some true) true,
               GameUI.mkHud None None None, w2,
               restamped 9000 9
                 (GameUI.setKeys {[ "Escape" := true ]}
                    (VampireGame.setAnimationId (Some 7%positive) crowded))), [], true).
Proof.
  destruct (proj1 (escape_toggles "BODY" 5000 9000 8 9
                     (GameUI.mkOverlays None (Some false) (Some true) true)
                     (GameUI.mkHud None None None) (pageWith 7)
                     (VampireGame.setAnimationId (Some 7%positive) crowded)
                     ltac:(discriminate)) eq_refl)
    as (w1 & g1 & w2 & H1 & Hs & _ & H2 & _).
  exists w1, g1, w2. split; [exact H1 |]. split; [exact Hs | exact H2].
Defined.

(** X20.  Minimising and restoring the window.  With the game playing, the
    two callbacks pause it and resume it at the restore time, and
    nothing of the game is lost.  With the game idle or over they do
    nothing.  With the game already paused from the pause menu,
    minimising does nothing and restoring resumes it (neither callback
    touches the pause overlay). *)
Theorem minimize_restore (now : Q) (id : positive) (w : World) (g : VampireGame.t) :
  (VampireGame.state g = playing ->
   (GameUI.onRestore now id (GameUI.onMinimize (w, g))).2 = restamped now id g) /\
  (VampireGame.state g = idle \/ VampireGame.state g = gameover ->
   GameUI.onRestore now id (GameUI.onMinimize (w, g)) = (w, g)) /\
  (VampireGame.state g = paused ->
   GameUI.onMinimize (w, g) = (w, g) /\
   (GameUI.onRestore now id (w, g)).2
     = restamped now id (VampireGame.setState playing g)).
Proof.
  destruct g as [cv st pl es ps gems wv sc wt spt n ks lt aid prev].
  cbn [VampireGame.state].
  split; [| split].
  - intros ->. reflexivity.
  - intros [-> | ->]; reflexivity.
  - intros ->. split; reflexivity.
Qed.

(** [minimize_restore] on the crowded game, restored at 9000 ms. *)
Lemma minimize_restore_witness :
  let g := VampireGame.setAnimationId (Some 7%positive) crowded in
  VampireGame.state g = playing /\
  (GameUI.onRestore 9000 8 (GameUI.onMinimize (pageWith 7, g))).2 = restamped 9000 8 g /\
  VampireGame.state (GameUI.onMinimize (pageWith 7, g)).2 = paused.
Proof.
  cbv zeta. split; [reflexivity |].
  split; [| reflexivity].
  exact (proj1 (minimize_restore 9000 8 (pageWith 7)
                  (VampireGame.setAnimationId (Some 7%positive) crowded)) eq_refl).
Defined.

(** ** Controls *)

Lemma keyDirection_codes c d :
  keyDirection c = Some d -> c <> "KeyR" /\ c <> "Escape" /\ c ∈ movementKeys.
Proof.
  intros Hd. key_cases c Hd; try discriminate Hd;
    (split; [discriminate | split; [discriminate |]]);
    unfold movementKeys; set_solver.
Qed.

Section Controls.
Context `{host : MathHost}.

Lemma inputDirection_key keys c d :
  idleKeys keys -> keyDirection c = Some d ->
  Player.inputDirection (<[c := true]> keys) = d /\
  (Qnonzero d.1 || Qnonzero d.2) = true.
Proof.
  intros Hidle Hd.
  assert (forall name, name ∈ movementKeys ->
            Player.pressed (<[c := true]> keys) name = String.eqb name c) as Hpress.
  { intros name Hin. unfold Player.pressed.
    destruct (String.eqb_spec name c) as [-> | Hne].
    - rewrite lookup_insert_eq. reflexivity.
    - rewrite lookup_insert_ne by congruence.
      exact (proj1 (Forall_forall _ _) Hidle name Hin). }
  unfold Player.inputDirection.
  rewrite !Hpress by (unfold movementKeys; set_solver).
  key_cases c Hd; try discriminate Hd; injection Hd as <-;
    split; vm_compute; reflexivity.
Qed.

Lemma moveEntities_position now dt g g1 p :
  VampireGame.moveEntities now dt g = Some g1 ->
  VampireGame.player g = Some p ->
  exists p1, VampireGame.player g1 = Some p1 /\
    Player.x p1 = Player.x (Player.handleInput (VampireGame.keys g) dt p) /\
    Player.y p1 = Player.y (Player.handleInput (VampireGame.keys g) dt p) /\
    Player.lastDirection p1
      = Player.lastDirection (Player.handleInput (VampireGame.keys g) dt p).
Proof.
  unfold VampireGame.moveEntities. intros Hq Hp. rewrite Hp in Hq.
  cbv beta iota delta [mbind option_bind] in Hq.
  assert (forall q, Player.x (Player.update dt q) = Player.x q /\
                    Player.y (Player.update dt q) = Player.y q /\
                    Player.lastDirection (Player.update dt q) = Player.lastDirection q)
    as Hupd.
  { intros q. unfold Player.update. destruct (Player.invincible q); repeat split. }
  destruct (Player.canAttack _ _); injection Hq as <-; eexists;
    (split; [reflexivity |]);
    match goal with
    | |- context [Player.update dt ?q] => destruct (Hupd q) as (-> & -> & ->)
    end; repeat split.
Qed.

Lemma gameLoop_position inp w g w' g' writes p :
  VampireGame.state g = playing ->
  ready g ->
  VampireGame.player g = Some p ->
  VampireGame.gameLoop inp (w, g) = Some (w', g', writes) ->
  let moved := Player.handleInput (VampireGame.keys g)
                 (timestamp inp - VampireGame.lastTimestamp g) p in
  exists p', VampireGame.player g' = Some p' /\
             Player.x p' = Player.x moved /\ Player.y p' = Player.y moved /\
             Player.lastDirection p' = Player.lastDirection moved.
Proof.
  intros Hstate Hready Hp Hrun.
  destruct (gameLoop_playing inp w g Hstate Hready) as (g3 & p3 & Hsim & Hp3 & Hloop).
  rewrite Hloop in Hrun. clear Hloop.
  destruct (simulate_runs inp g p Hp)
    as (g1 & g2 & g3' & p3' & Hg1 & Hg2 & Hg3 & Hsim' & Hp2 & Hp3' & _).
  rewrite Hsim in Hsim'. injection Hsim' as <-.
  rewrite Hp3 in Hp3'. injection Hp3' as <-.
  destruct (moveEntities_position _ _ _ _ p Hg1 Hp) as (p1 & Hp1 & Hx1 & Hy1 & Hd1).
  destruct (checkCollisions_player g1 g2 p1 Hp1 Hg2)
    as (p2 & Hp2' & Hx2 & Hy2 & Hd2 & _).
  rewrite Hp2 in Hp2'. injection Hp2' as <-.
  cbn [VampireGame.keys VampireGame.setLastTimestamp] in Hx1, Hy1, Hd1.
  rewrite Hx1 in Hx2. rewrite Hy1 in Hy2. rewrite Hd1 in Hd2.
  destruct (Player.hp p3 <=? 0)%Z;
    apply Some_pair_inj in Hrun as [Hrun _];
    apply pair_equal_spec in Hrun as [_ <-]; exists p3; auto.
Qed.

(** X21.  The controls.  On a playing game with no movement key held, pressing
    one (outside an input field) only records it: the key is set in the
    keys, no other field of the game changes, the page is as it was, no
    cell is written and [preventDefault] is not called.  The next tick
    then moves the player along that key's direction by [PLAYER_SPEED]
    per millisecond, clamped to the arena, whatever else happens in the
    tick, and the player faces that way.  Releasing the key clears it
    in the keys and changes nothing else: no movement key is held. *)
Theorem key_moves_player (tag c : string) (d : Q * Q) (now : Q) (id : positive)
    (ov : GameUI.Overlays) (h : GameUI.Hud) (w : World) (g : VampireGame.t) (p : Player.t) :
  tag <> "INPUT" ->
  keyDirection c = Some d ->
  idleKeys (VampireGame.keys g) ->
  VampireGame.state g = playing ->
  ready g ->
  VampireGame.player g = Some p ->
  exists g1 g2,
    GameUI.handleKeyDown (GameUI.mkKeyEvent tag c) now id (ov, h, w, g)
      = Some ((ov, h, w, g1), [], false) /\
    VampireGame.keys g1 = <[c := true]> (VampireGame.keys g) /\
    sameButKeys g g1 /\
    GameUI.handleKeyUp (GameUI.mkKeyEvent tag c) g1 = g2 /\
    VampireGame.keys g2 = <[c := false]> (<[c := true]> (VampireGame.keys g)) /\
    sameButKeys g g2 /\
    idleKeys (VampireGame.keys g2) /\
    (forall inp, exists w' g' writes p',
       VampireGame.gameLoop inp (w, g1) = Some (w', g', writes) /\
       VampireGame.player g' = Some p' /\
       let dt := timestamp inp - VampireGame.lastTimestamp g in
       Player.x p' = clamp (inject_Z CANVAS_WIDTH - 1)
                       (Player.x p + d.1 * PLAYER_SPEED * dt) /\
       Player.y p' = clamp (inject_Z CANVAS_HEIGHT - 1)
                       (Player.y p + d.2 * PLAYER_SPEED * dt) /\
       Player.lastDirection p' = d).
Proof.
  intros Htag Hd Hidle Hstate Hready Hp.
  destruct (keyDirection_codes c d Hd) as (Hr & Hesc & Hc).
  apply String.eqb_neq in Htag, Hr, Hesc.
  exists (GameUI.setKeys (<[c := true]> (VampireGame.keys g)) g).
  eexists.
  split; [| split; [reflexivity | split; [repeat split | split; [reflexivity |
           split; [reflexivity | split; [repeat split | split]]]]]].
  - unfold GameUI.handleKeyDown. cbn [GameUI.targetTagName GameUI.code].
    rewrite Htag, Hr, Hesc. reflexivity.
  - unfold idleKeys, GameUI.handleKeyUp. cbn [VampireGame.keys GameUI.setKeys].
    apply Forall_forall. intros name Hin. unfold Player.pressed.
    destruct (decide (name = c)) as [-> | Hne].
    + cbn [GameUI.code]. rewrite lookup_insert_eq. reflexivity.
    + cbn [GameUI.code]. rewrite !lookup_insert_ne by congruence.
      exact (proj1 (Forall_forall _ _) Hidle name Hin).
  - intros inp.
    pose (g1 := GameUI.setKeys (<[c := true]> (VampireGame.keys g)) g).
    assert (ready g1) as Hready1 by exact Hready.
    assert (VampireGame.state g1 = playing) as Hstate1 by exact Hstate.
    assert (VampireGame.player g1 = Some p) as Hp1 by exact Hp.
    destruct (gameLoop_state inp w g1 Hstate1 Hready1)
      as (w' & g' & writes & p' & Hrun & Hp' & _).
    destruct (gameLoop_position inp w g1 w' g' writes p Hstate1 Hready1 Hp1 Hrun)
      as (p'' & Hp'' & Hx & Hy & Hdir).
    subst g1.
    rewrite Hp' in Hp''. injection Hp'' as <-.
    exists w', g', writes, p'. split; [exact Hrun |]. split; [exact Hp' |].
    cbn [VampireGame.keys VampireGame.lastTimestamp GameUI.setKeys] in Hx, Hy, Hdir.
    destruct (inputDirection_key (VampireGame.keys g) c d Hidle Hd) as [Hin Hnz].
    unfold Player.handleInput in Hx, Hy, Hdir. rewrite Hin in Hx, Hy, Hdir.
    destruct d as [dx dy]. cbn [Player.x Player.y Player.lastDirection fst snd] in *.
    rewrite Hnz in Hdir. auto.
Qed.

End Controls.

(** [key_moves_player] for the right arrow and a tick of 100 ms: the key
    is the only one in the keys, the game is otherwise as it was, and the
    player goes from (15, 7) to (15.8, 7), facing right. *)
Lemma key_moves_player_witness :
  let g := VampireGame.setLastTimestamp 1000 (playingWith (Player.new 15 7) [] [] []) in
  exists g1 g2 w' g' writes p',
    GameUI.handleKeyDown (GameUI.mkKeyEvent "BODY" "ArrowRight") 1000 1
        (GameUI.mkOverlays None None None true, GameUI.mkHud None None None, pageWith 1, g)
      = Some ((GameUI.mkOverlays None None None true, GameUI.mkHud None None None,
               pageWith 1, g1), [], false) /\
    VampireGame.keys g1 = {[ "ArrowRight" := true ]} /\
    sameButKeys g g1 /\
    GameUI.handleKeyUp (GameUI.mkKeyEvent "BODY" "ArrowRight") g1 = g2 /\
    VampireGame.keys g2 !! "ArrowRight" = Some false /\
    sameButKeys g g2 /\
    VampireGame.gameLoop (host := approxHost) (mkTick 1100 1100 0.3 0.5 1100 2)
        (pageWith 1, g1) = Some (w', g', writes) /\
    VampireGame.player g' = Some p' /\
    Player.x p' == 15.8 /\ Player.y p' == 7 /\ Player.lastDirection p' = (1, 0).
Proof.
  cbv zeta.
  assert (ready (VampireGame.setLastTimestamp 1000
                   (playingWith (Player.new 15 7) [] [] []))) as Hready.
  { split; [eexists; reflexivity | apply blankGrid_shape]. }
  destruct (key_moves_player (host := approxHost) "BODY" "ArrowRight" (1, 0) 1000 1
              (GameUI.mkOverlays None None None true) (GameUI.mkHud None None None)
              (pageWith 1)
              (VampireGame.setLastTimestamp 1000 (playingWith (Player.new 15 7) [] [] []))
              (Player.new 15 7) ltac:(discriminate) eq_refl
              ltac:(repeat constructor) eq_refl Hready eq_refl)
    as (g1 & g2 & Hdown & Hk1 & Hsame1 & Hup & Hk2 & Hsame2 & _ & Htick).
  destruct (Htick (mkTick 1100 1100 0.3 0.5 1100 2))
    as (w' & g' & writes & p' & Hrun & Hp' & Hx & Hy & Hdir).
  exists g1, g2, w', g', writes, p'.
  split; [exact Hdown |]. split; [exact Hk1 |]. split; [exact Hsame1 |].
  split; [exact Hup |].
  split; [rewrite Hk2; apply lookup_insert_eq |]. split; [exact Hsame2 |].
  split; [exact Hrun |]. split; [exact Hp' |].
  split; [rewrite Hx; vm_compute; reflexivity |].
  split; [rewrite Hy; vm_compute; reflexivity | exact Hdir].
Defined.
